(** * Row virtualisation of fixed-data-table-2: [computeRenderedRows]

    A shallow embedding of [src/reducers/computeRenderedRows.js] (the unified
    version) and of its earlier evolution, followed by the properties of the
    row window, the slot mapping and the resolved scroll position.

    Conventions of the embedding.
    - Row indices, heights and offsets are integers ([Z]); the floating point
      side of JavaScript numbers (rounding, infinities) is not modelled.
    - A number the program may fail to produce is an [option Z]: [None]
      stands for [undefined] or [NaN] (an array read out of range, a missing
      key, and every sum or difference computed from one).
    - The object [newState] is local to one call until it is returned, so the
      functions that alter it take its property record and return the altered
      record.  The [rows] arrays are aliased between the caller's state and
      [newState] and live in a store, addressed by location.
    - The collaborators that are not part of the sources (the selectors and
      the height oracle [updateRowHeight]) are parameters of the development;
      the slot allocator [bufferSet] and the prefix sums [rowOffsets] are
      modelled from the specification. *)

From Stdlib Require Import ZArith Lia.
From stdpp Require Import base option list gmap fin_maps.

Local Open Scope Z_scope.

(** ** JavaScript numbers, arrays and the lodash helpers *)

Module Js.

(** [a + b]; [NaN] as soon as one operand is [undefined] or [NaN]. *)
Definition add (a b : option Z) : option Z :=
  match a, b with
  | Some x, Some y => Some (x + y)
  | _, _ => None
  end.

(** [a - b]. *)
Definition sub (a b : option Z) : option Z :=
  match a, b with
  | Some x, Some y => Some (x - y)
  | _, _ => None
  end.

(** [a >= b]; every comparison with [undefined] or [NaN] is false. *)
Definition geb (a b : option Z) : bool :=
  match a, b with
  | Some x, Some y => x >=? y
  | _, _ => false
  end.

(** [a !== b] for a left operand that is a number: [NaN] differs from
    everything, a finite number differs from [undefined] and [NaN]. *)
Definition strict_ne (a b : option Z) : bool :=
  match a, b with
  | Some x, Some y => negb (x =? y)
  | _, _ => true
  end.

(** [o[k]] on an object used as a map from row index to number: a missing
    key and a key bound to [undefined] both read as [undefined]. *)
Definition get (o : gmap Z (option Z)) (k : Z) : option Z :=
  match o !! k with
  | Some v => v
  | None => None
  end.

(** [a[i] = v] on a (possibly sparse) array: a write past the end extends
    the array and leaves holes ([None]) in between. *)
Definition array_set (a : list (option Z)) (i : nat) (v : Z) : list (option Z) :=
  if decide (i < length a)%nat
  then <[i := Some v]> a
  else a ++ replicate (i - length a) None ++ [Some v].

(** The row indices held by an array (its holes hold none). *)
Definition values (a : list (option Z)) : list Z := omap id a.

(** lodash [clamp(number, lower, upper)]: first capped by [upper], then
    raised to [lower]; [NaN] stays [NaN]. *)
Definition clamp (number : option Z) (lower upper : Z) : option Z :=
  match number with
  | Some n =>
      let n := if n <=? upper then n else upper in
      Some (if n >=? lower then n else lower)
  | None => None
  end.

(** lodash [inRange(number, start, end)]: [start <= number < end], the
    bounds swapped when [start > end]. *)
Definition inRange (number start end_ : Z) : bool :=
  (Z.min start end_ <=? number) && (number <? Z.max start end_).

End Js.

(** ** The slot allocator *)

Module BufferSet.

(** Modelled from the spec: the class of [state.bufferSet] (the
    SlotAllocator of section 4.2) is not part of the sources.  The
    bidirectional mapping between row indices and slots is the list of the
    bound row indices in slot order: a slot, once handed out, stays bound,
    and eviction rebinds it. *)
Abbreviation t := (list Z).

(** [size()]: the count of occupied slots. *)
Definition getSize (b : t) : Z := Z.of_nat (length b).

(** [positionOf(rowIndex)]: the slot bound to the row, if any. *)
Definition getValuePosition (b : t) (rowIdx : Z) : option nat :=
  fst <$> list_find (λ v, v = rowIdx) b.

(** [allocateFresh(rowIndex)]: binds a slot that was never used. *)
Definition getNewPositionForValue (b : t) (rowIdx : Z) : t * nat :=
  (b ++ [rowIdx], length b).

(** [d(idx) = max(rangeStart - idx, idx - rangeEnd, 0)]. *)
Definition distance (lowValue highValue idx : Z) : Z :=
  Z.max (Z.max (lowValue - idx) (idx - highValue)) 0.

(** The row lies outside the closed interval [[lowValue, highValue]]. *)
Definition outside (lowValue highValue idx : Z) : bool :=
  (idx <? lowValue) || (highValue <? idx).

(** [idx] is a better victim than [idx0]: further from the interval, or as
    far with a smaller row index. *)
Definition better (lowValue highValue idx idx0 : Z) : bool :=
  (distance lowValue highValue idx0 <? distance lowValue highValue idx)
  || ((distance lowValue highValue idx =? distance lowValue highValue idx0)
      && (idx <? idx0)).

(** The occupant to evict among the slots from [slot] on, given the best
    one found before. *)
Fixpoint furthest (lowValue highValue : Z) (b : list Z) (slot : nat)
    (best : option (nat * Z)) : option (nat * Z) :=
  match b with
  | [] => best
  | idx :: rest =>
      let best' :=
        if outside lowValue highValue idx then
          match best with
          | None => Some (slot, idx)
          | Some (_, idx0) =>
              if better lowValue highValue idx idx0 then Some (slot, idx) else best
          end
        else best in
      furthest lowValue highValue rest (S slot) best'
  end.

(** [evictFurthestOutside(rangeStart, rangeEnd, rowIndex)]: rebinds the
    slot of the furthest occupant outside the interval; none when every
    occupant lies inside it. *)
Definition replaceFurthestValuePosition (b : t) (lowValue highValue newValue : Z)
    : t * option nat :=
  match furthest lowValue highValue b 0 None with
  | Some (slot, _) => (<[slot := newValue]> b, Some slot)
  | None => (b, None)
  end.

End BufferSet.

(** ** The data model *)

(** Locations of the [rows] arrays and of the state objects. *)
Definition loc := positive.

(** Modelled from the spec: the class of [state.rowOffsets] (the
    PrefixSumIndex) is not part of the sources; it holds one height per row
    and [sumUntil(idx)] is the cumulative height of the rows [[0, idx)]. *)
Definition sumUntil (rowOffsets : gmap Z Z) (idx : Z) : Z :=
  foldr (λ i acc, default 0 (rowOffsets !! i) + acc) 0 (seqZ 0 idx).

(** The two objects the height oracle maintains: the array
    [state.storedHeights] and the prefix sums [state.rowOffsets]. *)
Record HeightCache := mkHeightCache {
  storedHeights : gmap Z Z;
  rowOffsets : gmap Z Z;
}.

(** What a table session shares between its successive states, by
    reference: the [rows] arrays, the slot allocator and the height cache. *)
Record Session := mkSession {
  arrays : gmap loc (list (option Z));
  bufferSet : BufferSet.t;
  heights : HeightCache;
}.

(** The own properties of a state object that the module reads or writes;
    [rowsCount] is [state.rowSettings.rowsCount], [rows] the reference to the
    slot array.  A [rowHeights] object is built afresh by each call and never
    altered once it is stored, so it is held by value. *)
Record State := mkState {
  rowsCount : Z;
  scrollContentHeight : Z;
  scrolling : bool;
  firstRowIndex : Z;
  firstRowOffset : option Z;
  rows : loc;
  rowHeights : gmap Z (option Z);
  scrollY : option Z;
  maxScrollY : Z;
  scrollJumpedY : bool;
}.

Module Anchor.
(** [scrollAnchor]: [firstIndex], [lastIndex] and [scrollJumpedY] may be
    absent. *)
Record t := mk {
  firstIndex : option Z;
  firstOffset : Z;
  lastIndex : option Z;
  scrollJumpedY : option bool;
}.
End Anchor.

Record RowRange := mkRowRange {
  endBufferIdx : Z;
  endViewportIdx : Z;
  firstBufferIdx : Z;
  firstViewportIdx : Z;
}.

Record RoughHeights := mkRoughHeights {
  bufferRowCount : Z;
  maxAvailableHeight : Z;
}.

(** Assignments to the properties of a state object. *)
Definition set_firstRow (idx : Z) (offset : option Z) (s : State) : State :=
  mkState (rowsCount s) (scrollContentHeight s) (scrolling s) idx offset
    (rows s) (rowHeights s) (scrollY s) (maxScrollY s) (scrollJumpedY s).

Definition set_scrollContentHeight (contentHeight : Z) (s : State) : State :=
  mkState (rowsCount s) contentHeight (scrolling s) (firstRowIndex s) (firstRowOffset s)
    (rows s) (rowHeights s) (scrollY s) (maxScrollY s) (scrollJumpedY s).

Definition set_firstRowOffset (offset : option Z) (s : State) : State :=
  set_firstRow (firstRowIndex s) offset s.

Definition set_rows (rowHeights' : gmap Z (option Z)) (rows' : loc) (s : State) : State :=
  mkState (rowsCount s) (scrollContentHeight s) (scrolling s) (firstRowIndex s)
    (firstRowOffset s) rows' rowHeights' (scrollY s) (maxScrollY s) (scrollJumpedY s).

Definition set_scroll (maxScrollY' : Z) (scrollY' : option Z) (scrollJumpedY' : bool)
    (s : State) : State :=
  mkState (rowsCount s) (scrollContentHeight s) (scrolling s) (firstRowIndex s)
    (firstRowOffset s) (rows s) (rowHeights s) scrollY' maxScrollY' scrollJumpedY'.

Definition set_arrays (arrays' : gmap loc (list (option Z))) (sn : Session) : Session :=
  mkSession arrays' (bufferSet sn) (heights sn).

Definition set_heights (heights' : HeightCache) (sn : Session) : Session :=
  mkSession (arrays sn) (bufferSet sn) heights'.

(** [addRowToBuffer(rowIdx, bufferSet, startRange, endRange, maxBufferSize)]:
    the slot of the row, after eviction or allocation when it has none. *)
Definition addRowToBuffer (rowIdx : Z) (bufferSet : BufferSet.t)
    (startRange endRange maxBufferSize : Z) : BufferSet.t * nat :=
  let rowPosition := BufferSet.getValuePosition bufferSet rowIdx in
  let '(bufferSet, rowPosition) :=
    match rowPosition with
    | None =>
        if BufferSet.getSize bufferSet >=? maxBufferSize
        then BufferSet.replaceFurthestValuePosition bufferSet startRange (endRange - 1) rowIdx
        else (bufferSet, None)
    | Some _ => (bufferSet, rowPosition)
    end in
  match rowPosition with
  | None => BufferSet.getNewPositionForValue bufferSet rowIdx
  | Some p => (bufferSet, p)
  end.

(** The variables of the loop of [computeRenderedRowOffsets]. *)
Record OffsetsLoop := mkOffsetsLoop {
  loopBufferSet : BufferSet.t;
  bufferMapping : list (option Z);
  rowOffsetsCache : gmap Z (option Z);
  runningOffset : option Z;
}.

(** One turn of [for (rowIdx = firstBufferIdx; rowIdx < endBufferIdx; rowIdx++)]. *)
Definition offsetsTurn (storedHeights : gmap Z Z) (computeWithinViewportOnly : bool)
    (firstViewportIdx endViewportIdx renderedRowsCount : Z)
    (v : OffsetsLoop) (rowIdx : Z) : OffsetsLoop :=
  let rowOffsetsCache := <[rowIdx := runningOffset v]> (rowOffsetsCache v) in
  let runningOffset := Js.add (runningOffset v) (storedHeights !! rowIdx) in
  if computeWithinViewportOnly
     && ((rowIdx <? firstViewportIdx) || (rowIdx >=? endViewportIdx))
  then mkOffsetsLoop (loopBufferSet v) (bufferMapping v) rowOffsetsCache runningOffset
  else
    let '(bufferSet, rowPosition) :=
      addRowToBuffer rowIdx (loopBufferSet v) firstViewportIdx endViewportIdx
        renderedRowsCount in
    mkOffsetsLoop bufferSet (Js.array_set (bufferMapping v) rowPosition rowIdx)
      rowOffsetsCache runningOffset.

(** [rowsNotInBuffer.forEach(rowIdx => rowOffsetsCache[rowIdx] = state.rowHeights[rowIdx])]
    over [filter(bufferMapping, rowIdx => !inRange(rowIdx, firstBufferIdx, endBufferIdx))].
    A hole of the array passes the filter as [undefined] and only writes the
    key ["undefined"], which is no row index and is left out. *)
Definition carryOver (bufferMapping : list (option Z)) (firstBufferIdx endBufferIdx : Z)
    (rowHeights : gmap Z (option Z)) (rowOffsetsCache : gmap Z (option Z))
    : gmap Z (option Z) :=
  let rowsNotInBuffer :=
    filter (λ rowIdx, Js.inRange rowIdx firstBufferIdx endBufferIdx = false)
      (Js.values bufferMapping) in
  foldl (λ cache rowIdx, <[rowIdx := Js.get rowHeights rowIdx]> cache)
    rowOffsetsCache rowsNotInBuffer.

(** [computeRenderedRowOffsets(state, rowRange, computeWithinViewportOnly)].
    The array [bufferMapping] is [state.rows] itself in viewport-only mode
    (altered in place, at its location) and a new array otherwise. *)
Definition computeRenderedRowOffsets (sn : Session) (state : State)
    (rowRange : RowRange) (computeWithinViewportOnly : bool) : Session * State :=
  let renderedRowsCount := endBufferIdx rowRange - firstBufferIdx rowRange in
  if renderedRowsCount =? 0 then
    let rows' := fresh (dom (arrays sn)) in
    (set_arrays (<[rows' := []]> (arrays sn)) sn, set_rows ∅ rows' state)
  else
    let bufferMappingRef :=
      if computeWithinViewportOnly then rows state else fresh (dom (arrays sn)) in
    let bufferMapping0 :=
      if computeWithinViewportOnly then default [] (arrays sn !! rows state) else [] in
    let v :=
      foldl (offsetsTurn (storedHeights (heights sn)) computeWithinViewportOnly
               (firstViewportIdx rowRange) (endViewportIdx rowRange) renderedRowsCount)
        (mkOffsetsLoop (bufferSet sn) bufferMapping0 ∅
           (Some (sumUntil (rowOffsets (heights sn)) (firstBufferIdx rowRange))))
        (seqZ (firstBufferIdx rowRange) renderedRowsCount) in
    let rowOffsetsCache :=
      if computeWithinViewportOnly
      then carryOver (bufferMapping v) (firstBufferIdx rowRange) (endBufferIdx rowRange)
             (rowHeights state) (rowOffsetsCache v)
      else rowOffsetsCache v in
    (mkSession (<[bufferMappingRef := bufferMapping v]> (arrays sn)) (loopBufferSet v)
       (heights sn),
     set_rows rowOffsetsCache bufferMappingRef state).

(** ** The functions of the module, over the collaborators *)

Section ComputeRenderedRows.

(** The selectors and the height oracle are imported by the module and are
    not part of the sources; each may read every property of the state it is
    given.  [updateRowHeight(state, rowIdx)] may alter the height cache and
    the aggregate [state.scrollContentHeight], which [computeRenderedRows]
    reads back from [newState] after the resolution; it returns the new
    cache, the new aggregate and the height of the row.  The other
    properties of the state are written by this module only. *)
Variable roughHeightsSelector : State → RoughHeights.
Variable scrollbarsVisibleSelector : State → Z.
Variable tableHeightsSelector : State → Z.
Variable updateRowHeight : HeightCache → State → Z → HeightCache * Z * Z.

(** The loop that walks the viewport until enough rows fill its height.
    The index moves by [step] at each turn and leaves [[0, rowsCount)] after
    at most [rowsCount] turns; [None] is for a walk cut short by [fuel]. *)
Fixpoint walkViewport (fuel : nat) (rowsCount maxAvailableHeight step : Z)
    (hc : HeightCache) (state : State) (rowIdx endIdx totalHeight : Z)
    : option (HeightCache * State * Z * Z) :=
  if (rowIdx <? rowsCount) && (rowIdx >=? 0) && (totalHeight <? maxAvailableHeight) then
    match fuel with
    | O => None
    | S fuel' =>
        let '(hc', contentHeight, height) := updateRowHeight hc state rowIdx in
        walkViewport fuel' rowsCount maxAvailableHeight step hc'
          (set_scrollContentHeight contentHeight state)
          (rowIdx + step) rowIdx (totalHeight + height)
    end
  else Some (hc, state, endIdx, totalHeight).

(** [for (rowIdx = first; rowIdx < last; rowIdx++) updateRowHeight(state, rowIdx)]. *)
Definition touchRows (hc : HeightCache) (state : State) (first last : Z)
    : HeightCache * State :=
  foldl (λ acc rowIdx,
           let '(hc', contentHeight, _) := updateRowHeight acc.1 acc.2 rowIdx in
           (hc', set_scrollContentHeight contentHeight acc.2))
    (hc, state) (seqZ first (last - first)).

(** [calculateRenderedRowRange(state, scrollAnchor)].  The same text in both
    evolutions of the module.  [None] when neither [firstIndex] nor
    [lastIndex] is given: every index is then [NaN] and there is no range of
    integers to return. *)
Definition calculateRenderedRowRange (hc : HeightCache) (state : State)
    (scrollAnchor : Anchor.t) : option (HeightCache * State * RowRange) :=
  let bufferRowCount := bufferRowCount (roughHeightsSelector state) in
  let maxAvailableHeight := maxAvailableHeight (roughHeightsSelector state) in
  let rowsCount := rowsCount state in
  if rowsCount =? 0 then Some (hc, state, mkRowRange 0 0 0 0) else
  let firstIndex := Anchor.firstIndex scrollAnchor in
  let firstOffset := Anchor.firstOffset scrollAnchor in
  let lastIndex :=
    if Js.geb firstIndex (Some rowsCount) || Js.geb (Anchor.lastIndex scrollAnchor) (Some rowsCount)
    then Some (rowsCount - 1)
    else Anchor.lastIndex scrollAnchor in
  let start :=
    match lastIndex, firstIndex with
    | Some lastIndex, _ => Some (-1, lastIndex, 0)
    | None, Some firstIndex => Some (1, firstIndex, firstOffset)
    | None, None => None
    end in
  '(step, startIdx, totalHeight) ← start;
  '(hc, state, endIdx, totalHeight) ←
    walkViewport (Z.to_nat rowsCount) rowsCount maxAvailableHeight step hc state
      startIdx startIdx totalHeight;
  let firstViewportIdx := Z.min startIdx endIdx in
  let firstBufferIdx := Z.max (firstViewportIdx - bufferRowCount) 0 in
  let '(hc, state) := touchRows hc state firstBufferIdx firstViewportIdx in
  let endViewportIdx := Z.max startIdx endIdx + 1 in
  let endBufferIdx := Z.min (endViewportIdx + bufferRowCount) rowsCount in
  let '(hc, state) := touchRows hc state endViewportIdx endBufferIdx in
  let availableHeight := scrollbarsVisibleSelector state in
  let '(firstViewportIdx, firstOffset) :=
    match lastIndex with
    | Some _ =>
        let firstOffset := Z.min (availableHeight - totalHeight) 0 in
        if Js.geb (Some (-1 * firstOffset)) (storedHeights hc !! firstViewportIdx)
        then (firstViewportIdx + 1,
              Js.add (Some firstOffset) (storedHeights hc !! (firstViewportIdx + 1)))
        else (firstViewportIdx, Some firstOffset)
    | None => (firstViewportIdx, Some firstOffset)
    end in
  Some (hc, set_firstRow firstViewportIdx firstOffset state,
        mkRowRange endBufferIdx endViewportIdx firstBufferIdx firstViewportIdx).

(** [scrollAnchor.scrollJumpedY === true]. *)
Definition jumpRequested (scrollAnchor : Anchor.t) : bool :=
  match Anchor.scrollJumpedY scrollAnchor with
  | Some true => true
  | _ => false
  end.

(** The anchor [{firstOffset: 0, lastIndex: rowsCount - 1}] of the second
    resolution. *)
Definition bottomAnchor (rowsCount : Z) : Anchor.t :=
  Anchor.mk None 0 (Some (rowsCount - 1)) None.

(** [computeRenderedRows(state, scrollAnchor)]: from the properties of
    [state] to the properties of the returned [newState]. *)
Definition computeRenderedRows (sn : Session) (state : State) (scrollAnchor : Anchor.t)
    : option (Session * State) :=
  let newState := state in
  '(hc, newState, rowRange) ← calculateRenderedRowRange (heights sn) newState scrollAnchor;
  let scrollContentHeight := scrollContentHeight newState in
  let rowsCount := rowsCount newState in
  let bodyHeight := tableHeightsSelector newState in
  let maxScrollY := scrollContentHeight - bodyHeight in
  '(hc, newState, rowRange) ←
    (if maxScrollY =? 0 then
       '(hc, newState, rowRange) ←
         (if firstViewportIdx rowRange >? 0
          then calculateRenderedRowRange hc newState (bottomAnchor rowsCount)
          else Some (hc, newState, rowRange));
       Some (hc, set_firstRowOffset (Some 0) newState, rowRange)
     else Some (hc, newState, rowRange));
  let '(sn, newState) :=
    computeRenderedRowOffsets (set_heights hc sn) newState rowRange (scrolling state) in
  let stateScrollY := scrollY state in
  let scrollY :=
    if rowsCount >? 0
    then Js.sub (Js.get (rowHeights newState) (firstViewportIdx rowRange))
           (firstRowOffset newState)
    else Some 0 in
  let scrollJumpedY := jumpRequested scrollAnchor && Js.strict_ne scrollY stateScrollY in
  let scrollY := Js.clamp scrollY 0 maxScrollY in
  Some (sn, set_scroll maxScrollY scrollY scrollJumpedY newState).

(** The steps of one call of [computeRenderedRows], in order: the first
    resolution, the corrected resolution when [maxScrollY === 0], the offsets
    and the scroll position ([resolved] is [scrollY] before the clamp). *)
Inductive Steps (sn : Session) (state : State) (scrollAnchor : Anchor.t)
    (sn' : Session) (state' : State) : Prop :=
  | steps (hc1 hc : HeightCache) (newState1 newState newState3 : State)
      (rowRange1 rowRange : RowRange) (resolved : option Z)
      (Hfirst :
         calculateRenderedRowRange (heights sn) state scrollAnchor
         = Some (hc1, newState1, rowRange1))
      (Hcorrect :
         if scrollContentHeight newState1 - tableHeightsSelector newState1 =? 0 then
           ∃ newState2,
             (if firstViewportIdx rowRange1 >? 0
              then calculateRenderedRowRange hc1 newState1
                     (bottomAnchor (rowsCount newState1))
              else Some (hc1, newState1, rowRange1)) = Some (hc, newState2, rowRange)
             ∧ newState = set_firstRowOffset (Some 0) newState2
         else (hc, newState, rowRange) = (hc1, newState1, rowRange1))
      (Hoffsets :
         computeRenderedRowOffsets (set_heights hc sn) newState rowRange (scrolling state)
         = (sn', newState3))
      (Hresolved :
         resolved =
           if rowsCount newState1 >? 0
           then Js.sub (Js.get (rowHeights newState3) (firstViewportIdx rowRange))
                  (firstRowOffset newState3)
           else Some 0)
      (Hfinal :
         state' =
           set_scroll (scrollContentHeight newState1 - tableHeightsSelector newState1)
             (Js.clamp resolved 0
                (scrollContentHeight newState1 - tableHeightsSelector newState1))
             (jumpRequested scrollAnchor && Js.strict_ne resolved (scrollY state))
             newState3).

(** A heap of state objects over the session: what the caller of
    [computeRenderedRows] holds. *)
Record Heap := mkHeap {
  objects : gmap loc State;
  session : Session;
}.

End ComputeRenderedRows.

(** ** The module on references

    The functions above pass the properties of [state] along.  Here they are
    given the reference [state] itself, as in the code: an object is read
    from the heap at the moment the code reads it, and an assignment
    [state.p = v] is a write to the object the reference names, whichever
    object that is. *)

Module ByReference.
Section ComputeRenderedRows.

Variable roughHeightsSelector : State → RoughHeights.
Variable scrollbarsVisibleSelector : State → Z.
Variable tableHeightsSelector : State → Z.
Variable updateRowHeight : HeightCache → State → Z → HeightCache * Z * Z.

(** [Object.assign(state, {...})] and [state.p = v]: the object at [state]
    gets the properties [assignment] sets. *)
Definition assign (state : loc) (assignment : State → State) (h : Heap) : Heap :=
  mkHeap (alter assignment state (objects h)) (session h).

(** [updateRowHeight(state, rowIdx)]: the oracle alters the height cache and
    [scrollContentHeight] of the object it is given, and returns the height
    of the row. *)
Definition updateRowHeightAt (h : Heap) (state : loc) (rowIdx : Z) : option (Heap * Z) :=
  properties ← objects h !! state;
  let '(hc, contentHeight, height) :=
    updateRowHeight (heights (session h)) properties rowIdx in
  Some (assign state (set_scrollContentHeight contentHeight)
          (mkHeap (objects h) (set_heights hc (session h))),
        height).

Fixpoint walkViewport (fuel : nat) (rowsCount maxAvailableHeight step : Z)
    (h : Heap) (state : loc) (rowIdx endIdx totalHeight : Z) : option (Heap * Z * Z) :=
  if (rowIdx <? rowsCount) && (rowIdx >=? 0) && (totalHeight <? maxAvailableHeight) then
    match fuel with
    | O => None
    | S fuel' =>
        '(h, height) ← updateRowHeightAt h state rowIdx;
        walkViewport fuel' rowsCount maxAvailableHeight step h state
          (rowIdx + step) rowIdx (totalHeight + height)
    end
  else Some (h, endIdx, totalHeight).

Definition touchRows (h : Heap) (state : loc) (first last : Z) : option Heap :=
  foldl (λ acc rowIdx, h ← acc; fst <$> updateRowHeightAt h state rowIdx)
    (Some h) (seqZ first (last - first)).

(** [calculateRenderedRowRange(state, scrollAnchor)]: the rows are measured
    on [state], and lines 170-171 assign [firstRowIndex] and
    [firstRowOffset] of [state]. *)
Definition calculateRenderedRowRange (h : Heap) (state : loc) (scrollAnchor : Anchor.t)
    : option (Heap * RowRange) :=
  properties ← objects h !! state;
  let bufferRowCount := bufferRowCount (roughHeightsSelector properties) in
  let maxAvailableHeight := maxAvailableHeight (roughHeightsSelector properties) in
  let rowsCount := rowsCount properties in
  if rowsCount =? 0 then Some (h, mkRowRange 0 0 0 0) else
  let firstIndex := Anchor.firstIndex scrollAnchor in
  let firstOffset := Anchor.firstOffset scrollAnchor in
  let lastIndex :=
    if Js.geb firstIndex (Some rowsCount) || Js.geb (Anchor.lastIndex scrollAnchor) (Some rowsCount)
    then Some (rowsCount - 1)
    else Anchor.lastIndex scrollAnchor in
  let start :=
    match lastIndex, firstIndex with
    | Some lastIndex, _ => Some (-1, lastIndex, 0)
    | None, Some firstIndex => Some (1, firstIndex, firstOffset)
    | None, None => None
    end in
  '(step, startIdx, totalHeight) ← start;
  '(h, endIdx, totalHeight) ←
    walkViewport (Z.to_nat rowsCount) rowsCount maxAvailableHeight step h state
      startIdx startIdx totalHeight;
  let firstViewportIdx := Z.min startIdx endIdx in
  let firstBufferIdx := Z.max (firstViewportIdx - bufferRowCount) 0 in
  h ← touchRows h state firstBufferIdx firstViewportIdx;
  let endViewportIdx := Z.max startIdx endIdx + 1 in
  let endBufferIdx := Z.min (endViewportIdx + bufferRowCount) rowsCount in
  h ← touchRows h state endViewportIdx endBufferIdx;
  properties ← objects h !! state;
  let availableHeight := scrollbarsVisibleSelector properties in
  let hc := heights (session h) in
  let '(firstViewportIdx, firstOffset) :=
    match lastIndex with
    | Some _ =>
        let firstOffset := Z.min (availableHeight - totalHeight) 0 in
        if Js.geb (Some (-1 * firstOffset)) (storedHeights hc !! firstViewportIdx)
        then (firstViewportIdx + 1,
              Js.add (Some firstOffset) (storedHeights hc !! (firstViewportIdx + 1)))
        else (firstViewportIdx, Some firstOffset)
    | None => (firstViewportIdx, Some firstOffset)
    end in
  Some (assign state (set_firstRow firstViewportIdx firstOffset) h,
        mkRowRange endBufferIdx endViewportIdx firstBufferIdx firstViewportIdx).

(** [computeRenderedRowOffsets(state, rowRange, computeWithinViewportOnly)]
    reads [state.rows] and [state.rowHeights], alters the shared slot
    allocator and [rows] array, and ends on the assignments of
    [state.rowHeights] and [state.rows]. *)
Definition computeRenderedRowOffsets (h : Heap) (state : loc) (rowRange : RowRange)
    (computeWithinViewportOnly : bool) : option Heap :=
  properties ← objects h !! state;
  let '(sn, properties) :=
    computeRenderedRowOffsets (session h) properties rowRange computeWithinViewportOnly in
  Some (assign state (set_rows (rowHeights properties) (rows properties))
          (mkHeap (objects h) sn)).

(** [computeRenderedRows(state, scrollAnchor)]: line 39 allocates
    [newState] with the properties of [state]; each callee is given the
    reference the code gives it, and [state.scrolling] and [state.scrollY]
    are read from the caller's object when the code reads them, after the
    callees ran. *)
Definition computeRenderedRows (h : Heap) (state : loc) (scrollAnchor : Anchor.t)
    : option (Heap * loc) :=
  properties ← objects h !! state;
  let newState := fresh (dom (objects h)) in
  let h := mkHeap (<[newState := properties]> (objects h)) (session h) in
  '(h, rowRange) ← calculateRenderedRowRange h newState scrollAnchor;
  read ← objects h !! newState;
  let scrollContentHeight := scrollContentHeight read in
  let rowsCount := rowsCount read in
  let bodyHeight := tableHeightsSelector read in
  let maxScrollY := scrollContentHeight - bodyHeight in
  '(h, rowRange) ←
    (if maxScrollY =? 0 then
       '(h, rowRange) ←
         (if firstViewportIdx rowRange >? 0
          then calculateRenderedRowRange h newState (bottomAnchor rowsCount)
          else Some (h, rowRange));
       Some (assign newState (set_firstRowOffset (Some 0)) h, rowRange)
     else Some (h, rowRange));
  caller ← objects h !! state;
  h ← computeRenderedRowOffsets h newState rowRange (scrolling caller);
  written ← objects h !! newState;
  caller ← objects h !! state;
  let stateScrollY := scrollY caller in
  let scrollY :=
    if rowsCount >? 0
    then Js.sub (Js.get (rowHeights written) (firstViewportIdx rowRange))
           (firstRowOffset written)
    else Some 0 in
  let scrollJumpedY := jumpRequested scrollAnchor && Js.strict_ne scrollY stateScrollY in
  let scrollY := Js.clamp scrollY 0 maxScrollY in
  Some (assign newState (set_scroll maxScrollY scrollY scrollJumpedY) h, newState).

End ComputeRenderedRows.
End ByReference.

(** The heap once a callee returns to [state]: the height cache is [hc] and
    the object at [state] holds [properties]. *)
Definition stored (h : Heap) (state : loc) (hc : HeightCache) (properties : State)
    : Heap :=
  mkHeap (<[state := properties]> (objects h)) (set_heights hc (session h)).

(** ** The earlier evolution of the module *)

Module Earlier.

(** lodash [intersection(array, other)]: the values of [array] found in
    [other], each once (holes left out, as in [carryOver]). *)
Definition intersection (array other : list (option Z)) : list Z :=
  remove_dups (list_intersection (Js.values array) (Js.values other)).

(** [addRowToBuffer(rowIdx, bufferSetStartIndex, bufferSetEndIndex, bufferSet, maxBufferSize)]. *)
Definition addRowToBuffer (rowIdx bufferSetStartIndex bufferSetEndIndex : Z)
    (bufferSet : BufferSet.t) (maxBufferSize : Z) : BufferSet.t * nat :=
  let rowPosition := BufferSet.getValuePosition bufferSet rowIdx in
  let '(bufferSet, rowPosition) :=
    match rowPosition with
    | None =>
        if BufferSet.getSize bufferSet >=? maxBufferSize
        then BufferSet.replaceFurthestValuePosition bufferSet bufferSetStartIndex
               (bufferSetEndIndex - 1) rowIdx
        else (bufferSet, None)
    | Some _ => (bufferSet, rowPosition)
    end in
  match rowPosition with
  | None => BufferSet.getNewPositionForValue bufferSet rowIdx
  | Some p => (bufferSet, p)
  end.

(** One turn of the loops of [computeRenderedRowOffsets] and of
    [computeViewPortRenderedRowOffsets]: the same body in both. *)
Definition offsetsTurn (storedHeights : gmap Z Z)
    (firstViewportIdx endViewportIdx renderedRowsCount : Z)
    (v : OffsetsLoop) (rowIdx : Z) : OffsetsLoop :=
  let rowOffsetsCache := <[rowIdx := runningOffset v]> (rowOffsetsCache v) in
  let runningOffset := Js.add (runningOffset v) (storedHeights !! rowIdx) in
  let '(bufferSet, rowPosition) :=
    addRowToBuffer rowIdx firstViewportIdx endViewportIdx (loopBufferSet v)
      renderedRowsCount in
  mkOffsetsLoop bufferSet (Js.array_set (bufferMapping v) rowPosition rowIdx)
    rowOffsetsCache runningOffset.

(** [computeRenderedRowOffsets(state, rowRange)]: always a full recompute. *)
Definition computeRenderedRowOffsets (sn : Session) (state : State) (rowRange : RowRange)
    : Session * State :=
  let renderedRowsCount := endBufferIdx rowRange - firstBufferIdx rowRange in
  if renderedRowsCount =? 0 then
    let rows' := fresh (dom (arrays sn)) in
    (set_arrays (<[rows' := []]> (arrays sn)) sn, set_rows ∅ rows' state)
  else
    let bufferMappingRef := fresh (dom (arrays sn)) in
    let v :=
      foldl (offsetsTurn (storedHeights (heights sn)) (firstViewportIdx rowRange)
               (endViewportIdx rowRange) renderedRowsCount)
        (mkOffsetsLoop (bufferSet sn) [] ∅
           (Some (sumUntil (rowOffsets (heights sn)) (firstBufferIdx rowRange))))
        (seqZ (firstBufferIdx rowRange) renderedRowsCount) in
    (mkSession (<[bufferMappingRef := bufferMapping v]> (arrays sn)) (loopBufferSet v)
       (heights sn),
     set_rows (rowOffsetsCache v) bufferMappingRef state).

(** [computeViewPortRenderedRowOffsets(state, rowRange)]: walks
    [firstViewportIdx <= rowIdx <= endViewportIdx] on [state.rows] itself and
    copies the previous offset of every row found in both the new and the
    old array. *)
Definition computeViewPortRenderedRowOffsets (sn : Session) (state : State)
    (rowRange : RowRange) : Session * State :=
  let renderedRowsCount := endBufferIdx rowRange - firstBufferIdx rowRange in
  if renderedRowsCount =? 0 then
    let rows' := fresh (dom (arrays sn)) in
    (set_arrays (<[rows' := []]> (arrays sn)) sn, set_rows ∅ rows' state)
  else
    let bufferMappingOld := default [] (arrays sn !! rows state) in
    let rowOffsetsCacheOld := rowHeights state in
    let v :=
      foldl (offsetsTurn (storedHeights (heights sn)) (firstViewportIdx rowRange)
               (endViewportIdx rowRange) renderedRowsCount)
        (mkOffsetsLoop (bufferSet sn) bufferMappingOld ∅
           (Some (sumUntil (rowOffsets (heights sn)) (firstBufferIdx rowRange))))
        (seqZ (firstViewportIdx rowRange)
           (endViewportIdx rowRange + 1 - firstViewportIdx rowRange)) in
    let unchangedRows := intersection (bufferMapping v) bufferMappingOld in
    let rowOffsetsCache :=
      foldl (λ cache rowIdx, <[rowIdx := Js.get rowOffsetsCacheOld rowIdx]> cache)
        (rowOffsetsCache v) unchangedRows in
    (mkSession (<[rows state := bufferMapping v]> (arrays sn)) (loopBufferSet v)
       (heights sn),
     set_rows rowOffsetsCache (rows state) state).

Section ComputeRenderedRows.

Variable roughHeightsSelector : State → RoughHeights.
Variable scrollbarsVisibleSelector : State → Z.
Variable tableHeightsSelector : State → Z.
Variable updateRowHeight : HeightCache → State → Z → HeightCache * Z * Z.

(** [computeRenderedRows(state, scrollAnchor)] of the earlier evolution;
    its [calculateRenderedRowRange] is the one above. *)
Definition computeRenderedRows (sn : Session) (state : State) (scrollAnchor : Anchor.t)
    : option (Session * State) :=
  let newState := state in
  '(hc, newState, rowRange) ←
    calculateRenderedRowRange roughHeightsSelector scrollbarsVisibleSelector
      updateRowHeight (heights sn) newState scrollAnchor;
  let scrollContentHeight := scrollContentHeight newState in
  let rowsCount := rowsCount newState in
  let bodyHeight := tableHeightsSelector newState in
  let maxScrollY := scrollContentHeight - bodyHeight in
  '(sn, newState, rowRange) ←
    (if scrolling state then
       let '(sn, newState) :=
         computeViewPortRenderedRowOffsets (set_heights hc sn) newState rowRange in
       Some (sn, newState, rowRange)
     else if maxScrollY =? 0 then
       '(hc, newState, rowRange) ←
         (if firstViewportIdx rowRange >? 0
          then calculateRenderedRowRange roughHeightsSelector scrollbarsVisibleSelector
                 updateRowHeight hc newState (bottomAnchor rowsCount)
          else Some (hc, newState, rowRange));
       Some (set_heights hc sn, set_firstRowOffset (Some 0) newState, rowRange)
     else Some (set_heights hc sn, newState, rowRange));
  let '(sn, newState) := computeRenderedRowOffsets sn newState rowRange in
  let stateScrollY := scrollY state in
  let scrollY :=
    if rowsCount >? 0
    then Js.sub (Js.get (rowHeights newState) (firstViewportIdx rowRange))
           (firstRowOffset newState)
    else stateScrollY in
  let scrollJumpedY := jumpRequested scrollAnchor && Js.strict_ne scrollY stateScrollY in
  let scrollY := Js.clamp scrollY 0 maxScrollY in
  Some (sn, set_scroll maxScrollY scrollY scrollJumpedY newState).

End ComputeRenderedRows.

End Earlier.

(** ** A height oracle and a table to run the module on *)

Module Oracle.

(** Modelled from the spec: [updateRowHeight] is not part of the sources.
    The oracle of sections 2 and 6 measures the row (deterministically),
    caches the height in [storedHeights], keeps the prefix sums up to date
    and returns the height; it leaves the properties of the state alone. *)
Definition updateRowHeight (rowHeightGetter : Z → Z) (hc : HeightCache) (state : State)
    (rowIdx : Z) : HeightCache * Z * Z :=
  let height := rowHeightGetter rowIdx in
  (mkHeightCache (<[rowIdx := height]> (storedHeights hc))
     (<[rowIdx := height]> (rowOffsets hc)),
   scrollContentHeight state, height).

(** Modelled from the spec: an oracle that estimates before it measures
    (section 2) and keeps the aggregate in step with the heights it stores.
    A row that is not stored counts for [estimate] in
    [state.scrollContentHeight]; measuring a row stores its height and adds
    to the aggregate the difference with the height it counted for.  A row
    whose measured height is stored is left alone. *)
Definition updateRowHeightAndContent (estimate : Z) (rowHeightGetter : Z → Z)
    (hc : HeightCache) (state : State) (rowIdx : Z) : HeightCache * Z * Z :=
  let height := rowHeightGetter rowIdx in
  let oldHeight := default estimate (storedHeights hc !! rowIdx) in
  if decide (storedHeights hc !! rowIdx = Some height
             ∧ rowOffsets hc !! rowIdx = Some height)
  then (hc, scrollContentHeight state, height)
  else (mkHeightCache (<[rowIdx := height]> (storedHeights hc))
          (<[rowIdx := height]> (rowOffsets hc)),
        scrollContentHeight state + (height - oldHeight), height).

End Oracle.

Module Sample.

(** Selectors of a table whose sizes do not depend on the state. *)
Definition rough (bufferRowCount maxAvailableHeight : Z) : State → RoughHeights :=
  λ _, mkRoughHeights bufferRowCount maxAvailableHeight.

Definition const (height : Z) : State → Z := λ _, height.

(** A session with one empty [rows] array, a given slot allocator and no
    height measured yet. *)
Definition session (slots : list Z) : Session :=
  mkSession {[1%positive := []]} slots (mkHeightCache ∅ ∅).

(** The state of a table at rest at the top. *)
Definition state (rowsCount scrollContentHeight : Z) (scrolling : bool) : State :=
  mkState rowsCount scrollContentHeight scrolling 0 (Some 0) 1%positive ∅ (Some 0) 0 false.

(** Anchors by first row and by last row. *)
Definition fromFirst (firstIndex firstOffset : Z) (jump : option bool) : Anchor.t :=
  Anchor.mk (Some firstIndex) firstOffset None jump.

Definition toLast (lastIndex : Z) : Anchor.t :=
  Anchor.mk (Some 0) 0 (Some lastIndex) None.

(** The cache once the rows [[0, rowsCount)] were measured at one height. *)
Definition measured (rowsCount height : Z) : HeightCache :=
  mkHeightCache (list_to_map ((λ i, (i, height)) <$> seqZ 0 rowsCount))
    (list_to_map ((λ i, (i, height)) <$> seqZ 0 rowsCount)).

(** A session whose [rows] array, at location 1, and allocator are given. *)
Definition sessionOf (array : list (option Z)) (slots : list Z) (hc : HeightCache)
    : Session :=
  mkSession {[1%positive := array]} slots hc.

(** A table of ten rows, the last one tall. *)
Definition tallLast (rowIdx : Z) : Z := if rowIdx =? 9 then 90 else 15.

End Sample.

(** ** Predicates of the statements *)

(** [s'] is [s] up to [firstRowIndex], [firstRowOffset] and
    [scrollContentHeight]. *)
Definition resolvedFrom (s s' : State) : Prop :=
  rowsCount s' = rowsCount s ∧ scrolling s' = scrolling s ∧ rows s' = rows s
  ∧ rowHeights s' = rowHeights s ∧ scrollY s' = scrollY s
  ∧ maxScrollY s' = maxScrollY s ∧ scrollJumpedY s' = scrollJumpedY s.

(** The two sides of a turn of the loop of [computeRenderedRowOffsets]: the
    slots (allocator and array) and the offsets (cache and running sum)
    do not depend on each other. *)
Definition slotsTurn (computeWithinViewportOnly : bool)
    (firstViewportIdx endViewportIdx renderedRowsCount : Z)
    (acc : BufferSet.t * list (option Z)) (rowIdx : Z) : BufferSet.t * list (option Z) :=
  if computeWithinViewportOnly
     && ((rowIdx <? firstViewportIdx) || (rowIdx >=? endViewportIdx))
  then acc
  else
    let '(bufferSet, rowPosition) :=
      addRowToBuffer rowIdx acc.1 firstViewportIdx endViewportIdx renderedRowsCount in
    (bufferSet, Js.array_set acc.2 rowPosition rowIdx).

Definition offsetsSide (storedHeights : gmap Z Z) (acc : gmap Z (option Z) * option Z)
    (rowIdx : Z) : gmap Z (option Z) * option Z :=
  (<[rowIdx := acc.2]> acc.1, Js.add acc.2 (storedHeights !! rowIdx)).

(** The three ways a row gets its slot. *)
Inductive SlotOf (rowIdx : Z) (b : BufferSet.t) (lo hi n : Z) (b' : BufferSet.t) (p : nat)
    : Prop :=
  | slot_kept :
      BufferSet.getValuePosition b rowIdx = Some p → b' = b →
      SlotOf rowIdx b lo hi n b' p
  | slot_evicted victim :
      rowIdx ∉ b → n <= BufferSet.getSize b →
      b !! p = Some victim → BufferSet.outside lo hi victim = true →
      (∀ x, x ∈ b → BufferSet.outside lo hi x = true →
         BufferSet.distance lo hi x <= BufferSet.distance lo hi victim) →
      b' = <[p := rowIdx]> b →
      SlotOf rowIdx b lo hi n b' p
  | slot_fresh :
      rowIdx ∉ b → p = length b → b' = b ++ [rowIdx] →
      SlotOf rowIdx b lo hi n b' p.

(** Every row the allocator holds outside the range lies further from the
    viewport than the rows of the range do. *)
Definition staleRowsAreFar (b : BufferSet.t) (r : RowRange) : Prop :=
  ∀ x, x ∈ b → ¬ (firstBufferIdx r <= x < endBufferIdx r) →
    Z.max (firstViewportIdx r - firstBufferIdx r) (endBufferIdx r - endViewportIdx r)
    < BufferSet.distance (firstViewportIdx r) (endViewportIdx r - 1) x.

(** The invariant of a full recompute once the rows [walked] are done: the
    allocator is a bijection, its stale rows are far, and the array holds
    the walked rows, each in the slot the allocator binds to it. *)
Definition FullInv (r : RowRange) (walked : list Z) (acc : BufferSet.t * list (option Z))
    : Prop :=
  NoDup acc.1
  ∧ staleRowsAreFar acc.1 r
  ∧ (∀ q k, acc.2 !! q = Some (Some k) → acc.1 !! q = Some k ∧ k ∈ walked)
  ∧ (∀ k, k ∈ walked → ∃ q, acc.2 !! q = Some (Some k)).

(** Two states of one table: the properties the module never writes agree. *)
Definition sameTable (s s' : State) : Prop :=
  rowsCount s = rowsCount s' ∧ scrollContentHeight s = scrollContentHeight s'
  ∧ scrolling s = scrolling s'.

(** The cache holds for the row the height the oracle measures. *)
Definition cachedAt (rowHeightGetter : Z → Z) (hc : HeightCache) (rowIdx : Z) : Prop :=
  storedHeights hc !! rowIdx = Some (rowHeightGetter rowIdx)
  ∧ rowOffsets hc !! rowIdx = Some (rowHeightGetter rowIdx).

(** Every row measured in [hc] is measured in [hc']. *)
Definition covers (rowHeightGetter : Z → Z) (hc hc' : HeightCache) : Prop :=
  ∀ rowIdx, cachedAt rowHeightGetter hc rowIdx → cachedAt rowHeightGetter hc' rowIdx.

(** An array as assignments build it: its last element is no hole. *)
Definition noTrailingHole (a : list (option Z)) : Prop :=
  ∀ n, length a = S n → ∃ v, a !! n = Some (Some v).

(** The cumulative height of the rows [[first, last)] whose heights are
    given by [height]. *)
Definition heightOfRows (height : Z → Z) (first last : Z) : Z :=
  foldr (λ rowIdx acc, height rowIdx + acc) 0 (seqZ first (last - first)).

(** [runningOffset] after [n] turns of the loop of
    [computeRenderedRowOffsets] that starts at row [first] with [start]. *)
Fixpoint offsetAfter (storedHeights : gmap Z Z) (start : option Z) (first : Z) (n : nat)
    : option Z :=
  match n with
  | O => start
  | S n' =>
      Js.add (offsetAfter storedHeights start first n')
        (storedHeights !! (first + Z.of_nat n'))
  end.

(** Every row held by the array sits in the slot the allocator binds to it. *)
Definition slotsAgree (b : BufferSet.t) (array : list (option Z)) : Prop :=
  ∀ q k, array !! q = Some (Some k) → b !! q = Some k.

(** * Properties *)

(** ** Arithmetic of JavaScript numbers *)

Lemma strict_ne_spec (a b : option Z) :
  Js.strict_ne a b = true ↔ (∀ x, a = Some x → b ≠ Some x).
Proof.
  destruct a as [x|], b as [y|]; simpl; split; try done.
  - intros H z [= <-] [= ->]. rewrite Z.eqb_refl in H. done.
  - intros H. destruct (Z.eqb_spec x y) as [->|]; [|done].
    exfalso. by apply (H y).
Qed.

Lemma clamp_in_range (n lower upper : Z) :
  lower <= n <= upper → Js.clamp (Some n) lower upper = Some n.
Proof.
  intros [H1 H2]. unfold Js.clamp.
  destruct (Z.leb_spec n upper); [|lia].
  destruct (Z.geb_spec n lower); [done|lia].
Qed.

(** ** Sparse arrays *)

Lemma elem_of_values (a : list (option Z)) (k : Z) :
  k ∈ Js.values a ↔ ∃ i, a !! i = Some (Some k).
Proof.
  unfold Js.values. rewrite list_elem_of_omap. split.
  - intros (x & [i Hi]%list_elem_of_lookup & Hx). simpl in Hx. subst x. eauto.
  - intros [i Hi]. exists (Some k). split; [|done]. by eapply list_elem_of_lookup_2.
Qed.

Lemma array_set_lookup_eq (a : list (option Z)) i v :
  Js.array_set a i v !! i = Some (Some v).
Proof.
  unfold Js.array_set. case_decide.
  - by apply list_lookup_insert_eq.
  - rewrite lookup_app_r by lia.
    rewrite lookup_app_r by (rewrite length_replicate; lia).
    rewrite length_replicate. by replace (i - length a - (i - length a))%nat with 0%nat by lia.
Qed.

Lemma array_set_lookup_ne (a : list (option Z)) i v j k :
  j ≠ i → Js.array_set a i v !! j = Some (Some k) ↔ a !! j = Some (Some k).
Proof.
  intros Hne. unfold Js.array_set. case_decide.
  - by rewrite list_lookup_insert_ne.
  - destruct (decide (j < length a)%nat).
    + by rewrite lookup_app_l.
    + rewrite (lookup_ge_None_2 a j) by lia. rewrite lookup_app_r by lia.
      split; [|done]. intros H'.
      apply lookup_app_Some in H' as [H'|[Hge H']].
      * by apply lookup_replicate in H' as [[=] _].
      * rewrite length_replicate in Hge, H'.
        apply list_lookup_singleton_Some in H' as [? _]. lia.
Qed.

Lemma array_set_same (a : list (option Z)) i v :
  a !! i = Some (Some v) → Js.array_set a i v = a.
Proof.
  intros H. unfold Js.array_set.
  rewrite decide_True by (by eapply lookup_lt_Some). by apply list_insert_id.
Qed.

Lemma array_set_values (a : list (option Z)) i v k :
  k ∈ Js.values (Js.array_set a i v) → k = v ∨ k ∈ Js.values a.
Proof.
  rewrite !elem_of_values. intros [j Hj]. destruct (decide (j = i)) as [->|Hne].
  - rewrite array_set_lookup_eq in Hj. left. congruence.
  - right. exists j. by apply (array_set_lookup_ne a i v j k).
Qed.

Lemma elem_of_seqZ (m n x : Z) : x ∈ seqZ m n ↔ m <= x < m + n.
Proof.
  rewrite list_elem_of_lookup. split.
  - intros [i [-> ?]%lookup_seqZ]. lia.
  - intros H. exists (Z.to_nat (x - m)). apply lookup_seqZ. lia.
Qed.

Lemma array_set_length (a : list (option Z)) i v :
  length (Js.array_set a i v) = Nat.max (length a) (S i).
Proof.
  unfold Js.array_set. case_decide.
  - rewrite length_insert. lia.
  - rewrite !length_app, length_replicate. simpl. lia.
Qed.

Lemma array_set_noTrailingHole a i v :
  noTrailingHole a → noTrailingHole (Js.array_set a i v).
Proof.
  intros Ha n Hn. rewrite array_set_length in Hn.
  destruct (decide (n = i)) as [->|Hne].
  - exists v. apply array_set_lookup_eq.
  - destruct (Ha n) as [w Hw]; [lia|]. exists w.
    by apply array_set_lookup_ne.
Qed.

(** Two arrays without trailing hole that hold the same rows in the same
    slots are the same array. *)
Lemma noTrailingHole_eq a b :
  noTrailingHole a → noTrailingHole b →
  (∀ q k, a !! q = Some (Some k) ↔ b !! q = Some (Some k)) →
  a = b.
Proof.
  intros Ha Hb Hab.
  assert (∀ a b, noTrailingHole a →
            (∀ q k, a !! q = Some (Some k) → b !! q = Some (Some k)) →
            (length a <= length b)%nat) as Hle.
  { intros a' b' Ha' Hsub. destruct (length a') as [|n] eqn:Hn; [lia|].
    destruct (Ha' n Hn) as [v Hv]. apply Hsub, lookup_lt_Some in Hv. lia. }
  assert (length a = length b) as Hlen.
  { apply Nat.le_antisymm; apply Hle; try done; intros q k; apply Hab. }
  apply list_eq. intros q.
  destruct (a !! q) as [[k|]|] eqn:Haq.
  - symmetry. by apply Hab.
  - destruct (b !! q) as [[k|]|] eqn:Hbq; [|done|].
    + apply Hab in Hbq. congruence.
    + apply lookup_lt_Some in Haq. apply lookup_ge_None in Hbq. lia.
  - destruct (b !! q) as [x|] eqn:Hbq; [|done].
    apply lookup_ge_None in Haq. apply lookup_lt_Some in Hbq. lia.
Qed.

(** ** Slots kept, evicted and allocated *)

Lemma getValuePosition_Some (b : BufferSet.t) rowIdx p :
  BufferSet.getValuePosition b rowIdx = Some p
  ↔ b !! p = Some rowIdx ∧ ∀ j, (j < p)%nat → b !! j ≠ Some rowIdx.
Proof.
  unfold BufferSet.getValuePosition. rewrite fmap_Some. split.
  - intros ([i x] & (Hi & -> & Hleast)%list_find_Some & ->). simpl.
    split; [done|]. intros j Hj Hb. by apply (Hleast j rowIdx).
  - intros [Hp Hleast]. exists (p, rowIdx). split; [|done].
    apply list_find_Some. split_and!; [done..|].
    intros j y Hy Hj ->. by apply (Hleast j).
Qed.

Lemma getValuePosition_None (b : BufferSet.t) rowIdx :
  BufferSet.getValuePosition b rowIdx = None ↔ rowIdx ∉ b.
Proof.
  unfold BufferSet.getValuePosition. rewrite fmap_None, list_find_None, Forall_forall.
  split.
  - intros H Hin. by apply (H rowIdx).
  - intros H x Hx ->. done.
Qed.

Lemma furthest_None lo hi b slot best :
  BufferSet.furthest lo hi b slot best = None →
  best = None ∧ ∀ x, x ∈ b → BufferSet.outside lo hi x = false.
Proof.
  revert slot best. induction b as [|idx rest IH]; intros slot best; simpl.
  - intros ->. split; [done|]. by intros x ?%elem_of_nil.
  - intros [Hbest Hrest]%IH.
    destruct (BufferSet.outside lo hi idx) eqn:Hout.
    + destruct best as [[s0 i0]|]; [|done].
      by destruct (BufferSet.better lo hi idx i0).
    + split; [done|]. intros x [->|?]%elem_of_cons; eauto.
Qed.

Lemma furthest_Some lo hi b slot best q v :
  BufferSet.furthest lo hi b slot best = Some (q, v) →
  (best = Some (q, v)
   ∨ ∃ j, q = (slot + j)%nat ∧ b !! j = Some v ∧ BufferSet.outside lo hi v = true)
  ∧ (∀ x, x ∈ b → BufferSet.outside lo hi x = true →
       BufferSet.distance lo hi x <= BufferSet.distance lo hi v)
  ∧ (∀ q0 v0, best = Some (q0, v0) →
       BufferSet.distance lo hi v0 <= BufferSet.distance lo hi v).
Proof.
  revert slot best. induction b as [|idx rest IH]; intros slot best; simpl.
  - intros ->. split; [by left|]. split.
    + by intros x ?%elem_of_nil.
    + by intros q0 v0 [= <- <-].
  - intros (Hwhere & Hrest & Hbest)%IH.
    assert (∀ j, rest !! j = Some v → (idx :: rest) !! S j = Some v) as Hshift by done.
    destruct (BufferSet.outside lo hi idx) eqn:Hout.
    + destruct best as [[s0 i0]|].
      * destruct (BufferSet.better lo hi idx i0) eqn:Hbetter.
        -- specialize (Hbest _ _ eq_refl). split; [|split].
           ++ right. destruct Hwhere as [[= <- <-]|(j & -> & Hj & Hv)].
              ** exists 0%nat. split; [lia|done].
              ** exists (S j). split; [lia|]. eauto.
           ++ intros x [->|Hx]%elem_of_cons Hx'; eauto.
           ++ intros q0 v0 [= <- <-]. unfold BufferSet.better in Hbetter. lia.
        -- specialize (Hbest _ _ eq_refl). split; [|split].
           ++ destruct Hwhere as [Hw|(j & -> & Hj & Hv)]; [by left|].
              right. exists (S j). split; [lia|]. eauto.
           ++ intros x [->|Hx]%elem_of_cons Hx'; eauto.
              unfold BufferSet.better in Hbetter. lia.
           ++ by intros q0 v0 [= <- <-].
      * specialize (Hbest _ _ eq_refl). split; [|split].
        -- right. destruct Hwhere as [[= <- <-]|(j & -> & Hj & Hv)].
           ++ exists 0%nat. split; [lia|done].
           ++ exists (S j). split; [lia|]. eauto.
        -- intros x [->|Hx]%elem_of_cons Hx'; eauto.
        -- done.
    + split; [|split].
      * destruct Hwhere as [Hw|(j & -> & Hj & Hv)]; [by left|].
        right. exists (S j). split; [lia|]. eauto.
      * intros x [->|Hx]%elem_of_cons Hx'; [congruence|eauto].
      * done.
Qed.

Lemma addRowToBuffer_cases rowIdx b startRange endRange n b' p :
  addRowToBuffer rowIdx b startRange endRange n = (b', p) →
  SlotOf rowIdx b startRange (endRange - 1) n b' p.
Proof.
  unfold addRowToBuffer.
  destruct (BufferSet.getValuePosition b rowIdx) as [p0|] eqn:Hpos.
  - intros [= <- <-]. by apply slot_kept.
  - apply getValuePosition_None in Hpos.
    destruct (Z.geb_spec (BufferSet.getSize b) n) as [Hfull|Hroom].
    + unfold BufferSet.replaceFurthestValuePosition.
      destruct (BufferSet.furthest _ _ b 0 None) as [[q v]|] eqn:Hfar.
      * intros [= <- <-].
        apply furthest_Some in Hfar as ([[=]|(j & -> & Hj & Hv)] & Hmax & _).
        by eapply slot_evicted.
      * intros [= <- <-]. by apply slot_fresh.
    + intros [= <- <-]. by apply slot_fresh.
Qed.

Lemma slot_new rowIdx b lo hi n b' p :
  SlotOf rowIdx b lo hi n b' p → BufferSet.getValuePosition b' rowIdx = Some p.
Proof.
  intros [Hpos -> | victim Hnew _ Hvictim _ _ -> | Hnew -> ->]; [done| |].
  - apply getValuePosition_Some. split.
    + apply list_lookup_insert_eq. by eapply lookup_lt_Some.
    + intros j Hj Hb. rewrite list_lookup_insert_ne in Hb by lia.
      apply Hnew. by eapply list_elem_of_lookup_2.
  - apply getValuePosition_Some. split.
    + rewrite lookup_app_r by lia. by rewrite Nat.sub_diag.
    + intros j Hj Hb. rewrite lookup_app_l in Hb by lia.
      apply Hnew. by eapply list_elem_of_lookup_2.
Qed.

Lemma slot_other rowIdx b lo hi n b' p k q :
  SlotOf rowIdx b lo hi n b' p →
  BufferSet.getValuePosition b k = Some q → q ≠ p → k ≠ rowIdx →
  BufferSet.getValuePosition b' k = Some q.
Proof.
  intros [Hpos -> | victim Hnew _ Hvictim _ _ -> | Hnew -> ->] Hk Hq Hne; [done| |].
  - apply getValuePosition_Some in Hk as [Hk Hleast].
    apply getValuePosition_Some. split.
    + by rewrite list_lookup_insert_ne.
    + intros j Hj Hb. destruct (decide (j = p)) as [->|].
      * rewrite list_lookup_insert_eq in Hb by (by eapply lookup_lt_Some). congruence.
      * rewrite list_lookup_insert_ne in Hb by done. by apply (Hleast j).
  - apply getValuePosition_Some in Hk as [Hk Hleast].
    apply getValuePosition_Some. split.
    + by apply lookup_app_l_Some.
    + intros j Hj Hb. apply lookup_lt_Some in Hk.
      rewrite lookup_app_l in Hb by lia. by apply (Hleast j).
Qed.

(** ** The loop of the offsets pass, side by side *)

Lemma turn_split sh vo fv ev n v k :
  offsetsTurn sh vo fv ev n v k
  = mkOffsetsLoop
      (slotsTurn vo fv ev n (loopBufferSet v, bufferMapping v) k).1
      (slotsTurn vo fv ev n (loopBufferSet v, bufferMapping v) k).2
      (offsetsSide sh (rowOffsetsCache v, runningOffset v) k).1
      (offsetsSide sh (rowOffsetsCache v, runningOffset v) k).2.
Proof.
  unfold offsetsTurn, slotsTurn, offsetsSide. simpl.
  destruct (vo && _); [done|].
  by destruct (addRowToBuffer k (loopBufferSet v) fv ev n).
Qed.

Lemma loop_split sh vo fv ev n l v :
  foldl (offsetsTurn sh vo fv ev n) v l
  = mkOffsetsLoop
      (foldl (slotsTurn vo fv ev n) (loopBufferSet v, bufferMapping v) l).1
      (foldl (slotsTurn vo fv ev n) (loopBufferSet v, bufferMapping v) l).2
      (foldl (offsetsSide sh) (rowOffsetsCache v, runningOffset v) l).1
      (foldl (offsetsSide sh) (rowOffsetsCache v, runningOffset v) l).2.
Proof.
  revert v. induction l as [|k l IH]; intros v; simpl; [by destruct v|].
  rewrite IH, turn_split. simpl. by rewrite <- !surjective_pairing.
Qed.

Lemma offsetsSide_other sh l c ro k :
  k ∉ l → (foldl (offsetsSide sh) (c, ro) l).1 !! k = c !! k.
Proof.
  revert c ro. induction l as [|x l IH]; intros c ro Hk; simpl; [done|].
  apply not_elem_of_cons in Hk as [Hne Hk]. unfold offsetsSide at 2. simpl.
  rewrite IH by done. by rewrite lookup_insert_ne.
Qed.

Lemma offsetsSide_walked sh l c ro k :
  k ∈ l → is_Some ((foldl (offsetsSide sh) (c, ro) l).1 !! k).
Proof.
  revert c ro. induction l as [|x l IH]; intros c ro Hk; simpl.
  - by apply elem_of_nil in Hk.
  - unfold offsetsSide at 2. simpl. destruct (decide (k ∈ l)) as [Hin|Hout].
    + by apply IH.
    + apply elem_of_cons in Hk as [->|]; [|done].
      rewrite offsetsSide_other by done. rewrite lookup_insert_eq. eauto.
Qed.

(** The array only gains rows of the walk (of the viewport, in
    viewport-only mode). *)
Lemma slots_values vo fv ev n l acc k :
  k ∈ Js.values (foldl (slotsTurn vo fv ev n) acc l).2 →
  k ∈ Js.values acc.2 ∨ (k ∈ l ∧ (vo = true → fv <= k < ev)).
Proof.
  revert acc. induction l as [|x l IH]; intros acc; simpl; [by left|].
  intros [H|[H Hv]]%IH; [|right; split; [by right|done]].
  unfold slotsTurn in H.
  destruct (vo && _) eqn:Hskip; [by left|].
  destruct (addRowToBuffer x acc.1 fv ev n) as [bs p]. simpl in H.
  apply array_set_values in H as [->|H]; [|by left].
  right. split; [by left|]. intros ->. simpl in Hskip. lia.
Qed.

Lemma foldl_insert_lookup (f : Z → option Z) l (c : gmap Z (option Z)) k :
  foldl (λ cache rowIdx, <[rowIdx := f rowIdx]> cache) c l !! k
  = if decide (k ∈ l) then Some (f k) else c !! k.
Proof.
  revert c. induction l as [|x l IH]; intros c; simpl.
  - done.
  - rewrite IH. destruct (decide (k ∈ l)) as [Hin|Hout].
    + rewrite decide_True; [done|]. by right.
    + destruct (decide (k = x)) as [->|Hne].
      * rewrite decide_True by (by left). by rewrite lookup_insert_eq.
      * rewrite decide_False by (by intros [?|?]%elem_of_cons).
        by rewrite lookup_insert_ne.
Qed.

Lemma carryOver_lookup bm fb eb old cache k :
  carryOver bm fb eb old cache !! k
  = if decide (k ∈ Js.values bm ∧ Js.inRange k fb eb = false)
    then Some (Js.get old k) else cache !! k.
Proof.
  unfold carryOver. rewrite foldl_insert_lookup.
  destruct (decide (k ∈ filter _ _)) as [Hin|Hout].
  - apply list_elem_of_filter in Hin as [? ?]. by rewrite decide_True.
  - rewrite decide_False; [done|]. intros [? ?]. apply Hout.
    by apply list_elem_of_filter.
Qed.

Lemma inRange_spec k fb eb : fb <= eb → Js.inRange k fb eb = true ↔ fb <= k < eb.
Proof. unfold Js.inRange. lia. Qed.

(** ** The offsets pass only writes [rows] and [rowHeights] *)

Lemma offsets_frame sn st r viewportOnly sn' st' :
  computeRenderedRowOffsets sn st r viewportOnly = (sn', st') →
  st' = set_rows (rowHeights st') (rows st') st ∧ heights sn' = heights sn.
Proof.
  unfold computeRenderedRowOffsets.
  destruct (_ =? 0); intros [= <- <-]; done.
Qed.

Lemma foldl_pointwise {A B} (f g : A → B → A) (l : list B) (a : A) :
  (∀ x y, f x y = g x y) → foldl f a l = foldl g a l.
Proof.
  intros Hfg. revert a. induction l as [|y l IH]; intros a; simpl; [done|].
  by rewrite Hfg, IH.
Qed.

(** The full recompute of the unified version is the recompute of the
    earlier one: [addRowToBuffer] only changed the order of its arguments. *)
Lemma earlier_offsets sn st r :
  Earlier.computeRenderedRowOffsets sn st r = computeRenderedRowOffsets sn st r false.
Proof.
  unfold Earlier.computeRenderedRowOffsets, computeRenderedRowOffsets.
  destruct (_ =? 0); [done|].
  rewrite (foldl_pointwise
    (Earlier.offsetsTurn (storedHeights (heights sn)) (firstViewportIdx r)
       (endViewportIdx r) (endBufferIdx r - firstBufferIdx r))
    (offsetsTurn (storedHeights (heights sn)) false (firstViewportIdx r)
       (endViewportIdx r) (endBufferIdx r - firstBufferIdx r))); done.
Qed.

(** ** The slots of a full recompute *)

Lemma elem_of_list_insert_inv (l : list Z) i x y : y ∈ <[i := x]> l → y = x ∨ y ∈ l.
Proof.
  intros [j Hj]%list_elem_of_lookup.
  apply list_lookup_insert_Some in Hj as [(-> & -> & _)|[_ Hj]]; [by left|].
  right. by eapply list_elem_of_lookup_2.
Qed.

Lemma NoDup_insert_fresh (l : list Z) i x : NoDup l → x ∉ l → NoDup (<[i := x]> l).
Proof.
  rewrite !NoDup_alt. intros Hl Hx j1 j2 y H1 H2.
  apply list_lookup_insert_Some in H1 as [(-> & -> & _)|[Hne1 H1]];
    apply list_lookup_insert_Some in H2 as [(-> & ? & _)|[Hne2 H2]]; subst; try done.
  - exfalso. apply Hx. by eapply list_elem_of_lookup_2.
  - exfalso. apply Hx. by eapply list_elem_of_lookup_2.
  - by eapply Hl.
Qed.

(** A bijective allocator that only holds rows of the range and misses one
    of them has a slot to spare. *)
Lemma allocator_has_room (b : BufferSet.t) fb eb x :
  NoDup b → x ∉ b → fb <= x < eb → (∀ y, y ∈ b → fb <= y < eb) →
  BufferSet.getSize b < eb - fb.
Proof.
  intros Hb Hx Hin Hall.
  assert (x :: b ⊆+ seqZ fb (eb - fb)) as Hsub.
  { apply NoDup_submseteq; [by apply NoDup_cons|].
    intros y [->|Hy]%elem_of_cons; apply elem_of_seqZ; [lia|].
    specialize (Hall y Hy). lia. }
  apply submseteq_length in Hsub. rewrite length_seqZ in Hsub. simpl in Hsub.
  unfold BufferSet.getSize. lia.
Qed.

Lemma distance_in_range r x :
  firstBufferIdx r <= firstViewportIdx r →
  firstBufferIdx r <= x < endBufferIdx r →
  BufferSet.distance (firstViewportIdx r) (endViewportIdx r - 1) x
  <= Z.max (firstViewportIdx r - firstBufferIdx r) (endBufferIdx r - endViewportIdx r).
Proof. unfold BufferSet.distance. lia. Qed.

Lemma full_turn r walked acc x :
  firstBufferIdx r <= firstViewportIdx r →
  endViewportIdx r <= endBufferIdx r →
  (∀ k, k ∈ walked → firstBufferIdx r <= k < endBufferIdx r) →
  x ∉ walked → firstBufferIdx r <= x < endBufferIdx r →
  FullInv r walked acc →
  FullInv r (walked ++ [x])
    (slotsTurn false (firstViewportIdx r) (endViewportIdx r)
       (endBufferIdx r - firstBufferIdx r) acc x).
Proof.
  intros Hlead Htrail Hwalked Hx Hin (Hnd & Hfar & Harr & Hall).
  destruct acc as [b a]. unfold slotsTurn. simpl in *.
  destruct (addRowToBuffer x b _ _ _) as [b' p] eqn:Hadd.
  apply addRowToBuffer_cases in Hadd
    as [Hpos -> | victim Hnew Hfull Hvictim Hout Hmax -> | Hnew -> ->].
  - apply getValuePosition_Some in Hpos as [Hp _].
    split_and!; simpl; [done|done| |].
    + intros q k Hq. destruct (decide (q = p)) as [->|Hne].
      * rewrite array_set_lookup_eq in Hq. injection Hq as <-.
        split; [done|]. apply elem_of_app. right. by left.
      * apply array_set_lookup_ne in Hq; [|done].
        destruct (Harr q k Hq). split; [done|]. apply elem_of_app. by left.
    + intros k [Hk| ->%list_elem_of_singleton]%elem_of_app.
      * destruct (Hall k Hk) as [q Hq]. exists q.
        apply array_set_lookup_ne; [|done]. intros ->.
        destruct (Harr p k Hq) as [Hb _]. congruence.
      * exists p. apply array_set_lookup_eq.
  - assert (¬ (firstBufferIdx r <= victim < endBufferIdx r)) as Hstale.
    { intros Hv. pose proof (distance_in_range r victim Hlead Hv) as Hd.
      assert (BufferSet.getSize b < endBufferIdx r - firstBufferIdx r); [|lia].
      apply (allocator_has_room b _ _ x); try done.
      intros y Hy.
      destruct (decide (firstBufferIdx r <= y < endBufferIdx r)) as [|Hy']; [done|].
      exfalso. specialize (Hfar y Hy Hy').
      assert (BufferSet.outside (firstViewportIdx r) (endViewportIdx r - 1) y = true)
        as Hyout by (unfold BufferSet.outside; lia).
      specialize (Hmax y Hy Hyout). lia. }
    pose proof (lookup_lt_Some _ _ _ Hvictim) as Hlen.
    split_and!; simpl.
    + by apply NoDup_insert_fresh.
    + intros y [->|Hy]%elem_of_list_insert_inv Hy'; [done|]. by apply Hfar.
    + intros q k Hq. destruct (decide (q = p)) as [->|Hne].
      * rewrite array_set_lookup_eq in Hq. injection Hq as <-.
        split; [by apply list_lookup_insert_eq|]. apply elem_of_app. right. by left.
      * apply array_set_lookup_ne in Hq; [|done].
        destruct (Harr q k Hq). split; [by rewrite list_lookup_insert_ne|].
        apply elem_of_app. by left.
    + intros k [Hk| ->%list_elem_of_singleton]%elem_of_app.
      * destruct (Hall k Hk) as [q Hq]. exists q.
        apply array_set_lookup_ne; [|done]. intros ->.
        destruct (Harr p k Hq) as [Hb _]. apply Hstale.
        assert (victim = k) as -> by congruence. by apply Hwalked.
      * exists p. apply array_set_lookup_eq.
  - split_and!; simpl.
    + apply NoDup_app. split_and!; [done| |apply NoDup_singleton].
      intros y Hy ->%list_elem_of_singleton. done.
    + intros y [Hy| ->%list_elem_of_singleton]%elem_of_app Hy'; [|done]. by apply Hfar.
    + intros q k Hq. destruct (decide (q = length b)) as [->|Hne].
      * rewrite array_set_lookup_eq in Hq. injection Hq as <-.
        split; [|apply elem_of_app; right; by left].
        rewrite lookup_app_r by lia. by rewrite Nat.sub_diag.
      * apply array_set_lookup_ne in Hq; [|done].
        destruct (Harr q k Hq). split; [by apply lookup_app_l_Some|].
        apply elem_of_app. by left.
    + intros k [Hk| ->%list_elem_of_singleton]%elem_of_app.
      * destruct (Hall k Hk) as [q Hq]. exists q.
        apply array_set_lookup_ne; [|done]. intros ->.
        destruct (Harr _ k Hq) as [Hb%lookup_lt_Some _]. lia.
      * exists (length b). apply array_set_lookup_eq.
Qed.

Lemma full_loop r l walked acc :
  firstBufferIdx r <= firstViewportIdx r →
  endViewportIdx r <= endBufferIdx r →
  NoDup (walked ++ l) →
  (∀ k, k ∈ walked ++ l → firstBufferIdx r <= k < endBufferIdx r) →
  FullInv r walked acc →
  FullInv r (walked ++ l)
    (foldl (slotsTurn false (firstViewportIdx r) (endViewportIdx r)
              (endBufferIdx r - firstBufferIdx r)) acc l).
Proof.
  intros Hlead Htrail. revert walked acc.
  induction l as [|x l IH]; intros walked acc Hnd Hin Hinv; simpl.
  - by rewrite app_nil_r.
  - rewrite cons_middle, app_assoc in Hnd, Hin |- *.
    apply IH; [done..|].
    apply NoDup_app in Hnd as [Hnd _]. apply NoDup_app in Hnd as (_ & Hx & _).
    apply full_turn; try done.
    + intros k Hk. apply Hin. apply elem_of_app. left. apply elem_of_app. by left.
    + intros Hx'. apply (Hx x Hx'). by left.
    + apply Hin. apply elem_of_app. left. apply elem_of_app. right. by left.
Qed.

(** C4, amended with a condition on the allocator: a full recompute over
    a non-empty range builds [rows] in a new array (the arrays of before are
    left as they were) that only holds rows of [[firstBufferIdx,
    endBufferIdx)]; it holds all of them when the allocator is a bijection
    whose rows outside the range all lie further from the viewport than the
    rows of the range.  Short of that, a row of the range may lose its slot
    to a later one within the call. *)
Theorem C4_full_recompute_fills_rows sn st r sn' st' :
  firstBufferIdx r < endBufferIdx r →
  computeRenderedRowOffsets sn st r false = (sn', st') →
  ∃ resulting,
    arrays sn' !! rows st' = Some resulting
    ∧ (rows st' ∉ dom (arrays sn))
    ∧ (∀ other, other ≠ rows st' → arrays sn' !! other = arrays sn !! other)
    ∧ (∀ rowIdx,
         rowIdx ∈ Js.values resulting → firstBufferIdx r <= rowIdx < endBufferIdx r)
    ∧ (firstBufferIdx r <= firstViewportIdx r →
       endViewportIdx r <= endBufferIdx r →
       NoDup (bufferSet sn) →
       staleRowsAreFar (bufferSet sn) r →
       ∀ rowIdx,
         firstBufferIdx r <= rowIdx < endBufferIdx r → rowIdx ∈ Js.values resulting).
Proof.
  intros Hne. unfold computeRenderedRowOffsets.
  destruct (Z.eqb_spec (endBufferIdx r - firstBufferIdx r) 0) as [|_]; [lia|].
  rewrite loop_split. cbn [loopBufferSet bufferMapping rowOffsetsCache runningOffset].
  set (sl := foldl (slotsTurn false _ _ _) _ _).
  intros [= <- <-]. exists sl.2. cbn [rows rowHeights arrays set_rows].
  assert (∀ k, k ∈ seqZ (firstBufferIdx r) (endBufferIdx r - firstBufferIdx r)
               ↔ firstBufferIdx r <= k < endBufferIdx r) as Hseq.
  { intros k. rewrite elem_of_seqZ. lia. }
  split_and!.
  - by rewrite lookup_insert_eq.
  - apply is_fresh.
  - intros other Hother. by rewrite lookup_insert_ne.
  - intros k [Hk|[Hk _]]%slots_values; [|by apply Hseq].
    simpl in Hk. by apply elem_of_nil in Hk.
  - intros Hlead Htrail Hnd Hfar k Hk.
    destruct (full_loop r (seqZ (firstBufferIdx r) (endBufferIdx r - firstBufferIdx r))
                [] (bufferSet sn, []) Hlead Htrail) as (_ & _ & _ & Hall).
    + apply NoDup_seqZ.
    + intros x Hx. by apply Hseq.
    + split_and!; simpl; [done|done| |].
      * intros q x Hq. by rewrite lookup_nil in Hq.
      * by intros x ?%elem_of_nil.
    + apply elem_of_values. apply Hall. by apply Hseq.
Qed.

(** ** Slots that stay: what a second pass finds *)

Lemma slots_noTrailingHole vo fv ev n l acc :
  noTrailingHole acc.2 → noTrailingHole (foldl (slotsTurn vo fv ev n) acc l).2.
Proof.
  revert acc. induction l as [|x l IH]; intros acc Hacc; simpl; [done|].
  apply IH. unfold slotsTurn. destruct (vo && _); [done|].
  destruct (addRowToBuffer x acc.1 fv ev n) as [b p]. simpl.
  by apply array_set_noTrailingHole.
Qed.

(** In viewport-only mode a row of the viewport, once given its slot,
    keeps it to the end of the pass: only rows outside the viewport are
    evicted. *)
Lemma viewport_turn fv ev n walked acc x :
  x ∉ walked →
  (∀ k, k ∈ walked → fv <= k < ev →
     ∃ q, BufferSet.getValuePosition acc.1 k = Some q ∧ acc.2 !! q = Some (Some k)) →
  ∀ k, k ∈ walked ++ [x] → fv <= k < ev →
    ∃ q, BufferSet.getValuePosition (slotsTurn true fv ev n acc x).1 k = Some q
         ∧ (slotsTurn true fv ev n acc x).2 !! q = Some (Some k).
Proof.
  intros Hx Hinv k Hk Hview. unfold slotsTurn.
  destruct (true && _) eqn:Hskip.
  { apply elem_of_app in Hk as [Hk| ->%list_elem_of_singleton]; [by apply Hinv|].
    simpl in Hskip. lia. }
  destruct (addRowToBuffer x acc.1 fv ev n) as [b' p] eqn:Hadd. simpl.
  apply addRowToBuffer_cases in Hadd.
  apply elem_of_app in Hk as [Hk| ->%list_elem_of_singleton].
  - destruct (Hinv k Hk Hview) as (q & Hq & Harr). exists q.
    assert (k ≠ x) as Hne by (by intros ->).
    pose proof Hq as [Hbq _]%getValuePosition_Some.
    assert (q ≠ p) as Hqp.
    { intros ->.
      destruct Hadd as [[Hpos _]%getValuePosition_Some _
                       | victim _ _ Hvictim Hout _ _ | _ -> _].
      - congruence.
      - assert (victim = k) as -> by congruence.
        unfold BufferSet.outside in Hout. lia.
      - apply lookup_lt_Some in Hbq. lia. }
    split; [by eapply slot_other|]. by apply array_set_lookup_ne.
  - exists p. split; [by eapply slot_new|]. apply array_set_lookup_eq.
Qed.

Lemma viewport_loop fv ev n l walked acc :
  NoDup (walked ++ l) →
  (∀ k, k ∈ walked → fv <= k < ev →
     ∃ q, BufferSet.getValuePosition acc.1 k = Some q ∧ acc.2 !! q = Some (Some k)) →
  ∀ k, k ∈ walked ++ l → fv <= k < ev →
    ∃ q, BufferSet.getValuePosition (foldl (slotsTurn true fv ev n) acc l).1 k = Some q
         ∧ (foldl (slotsTurn true fv ev n) acc l).2 !! q = Some (Some k).
Proof.
  revert walked acc. induction l as [|x l IH]; intros walked acc Hnd Hinv; simpl.
  - by rewrite app_nil_r.
  - rewrite cons_middle, app_assoc in Hnd |- *. apply IH; [done|].
    apply viewport_turn; [|done].
    apply NoDup_app in Hnd as [Hnd _]. apply NoDup_app in Hnd as (_ & Hx & _).
    intros Hx'. apply (Hx x Hx'). by left.
Qed.

(** In a full recompute, a row found in the array is bound to its slot in
    the allocator. *)
Lemma full_entries_turn fv ev n walked acc x :
  (∀ q k, acc.2 !! q = Some (Some k) →
     BufferSet.getValuePosition acc.1 k = Some q ∧ k ∈ walked) →
  ∀ q k, (slotsTurn false fv ev n acc x).2 !! q = Some (Some k) →
    BufferSet.getValuePosition (slotsTurn false fv ev n acc x).1 k = Some q
    ∧ k ∈ walked ++ [x].
Proof.
  intros Hinv q k. unfold slotsTurn. simpl.
  destruct (addRowToBuffer x acc.1 fv ev n) as [b' p] eqn:Hadd. simpl.
  apply addRowToBuffer_cases in Hadd. intros Hq.
  destruct (decide (q = p)) as [->|Hqp].
  - rewrite array_set_lookup_eq in Hq. injection Hq as <-.
    split; [by eapply slot_new|]. apply elem_of_app. right. by left.
  - apply array_set_lookup_ne in Hq; [|done].
    destruct (Hinv q k Hq) as [Hpos Hk]. split; [|apply elem_of_app; by left].
    destruct (decide (k = x)) as [->|Hne]; [|by eapply slot_other].
    destruct Hadd as [Hpos' -> | victim Hnew _ _ _ _ _ | Hnew _ _]; [done| |].
    + exfalso. apply Hnew. apply getValuePosition_Some in Hpos as [Hb _].
      by eapply list_elem_of_lookup_2.
    + exfalso. apply Hnew. apply getValuePosition_Some in Hpos as [Hb _].
      by eapply list_elem_of_lookup_2.
Qed.

Lemma full_entries fv ev n l walked acc :
  (∀ q k, acc.2 !! q = Some (Some k) →
     BufferSet.getValuePosition acc.1 k = Some q ∧ k ∈ walked) →
  ∀ q k, (foldl (slotsTurn false fv ev n) acc l).2 !! q = Some (Some k) →
    BufferSet.getValuePosition (foldl (slotsTurn false fv ev n) acc l).1 k = Some q
    ∧ k ∈ walked ++ l.
Proof.
  revert walked acc. induction l as [|x l IH]; intros walked acc Hinv; simpl.
  - by rewrite app_nil_r.
  - rewrite cons_middle, app_assoc. apply IH. by apply full_entries_turn.
Qed.

(** A pass over rows that all have their slot, and are in the array there,
    changes nothing. *)
Lemma rerun_viewport fv ev n l b a :
  (∀ k, k ∈ l → fv <= k < ev →
     ∃ q, BufferSet.getValuePosition b k = Some q ∧ a !! q = Some (Some k)) →
  foldl (slotsTurn true fv ev n) (b, a) l = (b, a).
Proof.
  induction l as [|x l IH]; intros Hl; simpl; [done|].
  assert (slotsTurn true fv ev n (b, a) x = (b, a)) as ->.
  { unfold slotsTurn. destruct (true && _) eqn:Hskip; [done|].
    destruct (Hl x) as (q & Hq & Ha); [by left|simpl in Hskip; lia|].
    unfold addRowToBuffer. simpl. rewrite Hq. by rewrite array_set_same. }
  apply IH. intros k Hk. apply Hl. by right.
Qed.

(** A full pass over rows that all have their slot leaves the allocator as
    it is and builds the array of these slots. *)
Lemma rerun_full fv ev n l b :
  (∀ k, k ∈ l → is_Some (BufferSet.getValuePosition b k)) →
  (foldl (slotsTurn false fv ev n) (b, []) l).1 = b
  ∧ ∀ q k, (foldl (slotsTurn false fv ev n) (b, []) l).2 !! q = Some (Some k)
           ↔ k ∈ l ∧ BufferSet.getValuePosition b k = Some q.
Proof.
  induction l as [|x l IH] using rev_ind; intros Hl.
  - simpl. split; [done|]. intros q k. rewrite lookup_nil. split; [done|].
    by intros [?%elem_of_nil _].
  - rewrite foldl_app. simpl.
    destruct IH as [Hb Ha]. { intros k Hk. apply Hl. apply elem_of_app. by left. }
    destruct (foldl (slotsTurn false fv ev n) (b, []) l) as [b0 a0]. simpl in Hb, Ha.
    subst b0. destruct (Hl x) as [p Hp]. { apply elem_of_app. right. by left. }
    unfold slotsTurn, addRowToBuffer. simpl. rewrite Hp. simpl. split; [done|].
    intros q k. destruct (decide (q = p)) as [->|Hqp].
    + rewrite array_set_lookup_eq. split.
      * intros [= <-]. split; [|done]. apply elem_of_app. right. by left.
      * intros [_ Hk]. apply getValuePosition_Some in Hk as [Hk _].
        apply getValuePosition_Some in Hp as [Hp _]. congruence.
    + rewrite array_set_lookup_ne by done. rewrite Ha. split.
      * intros [Hk Hq]. split; [|done]. apply elem_of_app. by left.
      * intros [[Hk| ->%list_elem_of_singleton]%elem_of_app Hq]; [done|]. congruence.
Qed.

(** The offsets pass run again, from the session and the [rows] and
    [rowHeights] it produced: in a full recompute it must have given a slot
    to every row it computed an offset for. *)
Lemma offsets_rerun snA nsA r vo sn1 ns3 nsX :
  computeRenderedRowOffsets snA nsA r vo = (sn1, ns3) →
  rows nsX = rows ns3 → rowHeights nsX = rowHeights ns3 →
  (vo = false → ∀ k, is_Some (rowHeights ns3 !! k) →
     ∃ array, arrays sn1 !! rows ns3 = Some array ∧ k ∈ Js.values array) →
  ∃ sn2 nsX',
    computeRenderedRowOffsets sn1 nsX r vo = (sn2, nsX')
    ∧ arrays sn2 !! rows nsX' = arrays sn1 !! rows ns3
    ∧ rowHeights nsX' = rowHeights ns3
    ∧ bufferSet sn2 = bufferSet sn1 ∧ heights sn2 = heights sn1.
Proof.
  unfold computeRenderedRowOffsets.
  destruct (endBufferIdx r - firstBufferIdx r =? 0).
  { intros [= <- <-] _ _ _. eexists _, _. split; [reflexivity|]. simpl.
    by rewrite !lookup_insert_eq. }
  rewrite !loop_split.
  cbn [loopBufferSet bufferMapping rowOffsetsCache runningOffset].
  set (l := seqZ (firstBufferIdx r) (endBufferIdx r - firstBufferIdx r)).
  set (os := foldl (offsetsSide (storedHeights (heights snA)))
               (∅, Some (sumUntil (rowOffsets (heights snA)) (firstBufferIdx r))) l).
  destruct vo.
  - set (a0 := default [] (arrays snA !! rows nsA)).
    set (sl := foldl (slotsTurn true _ _ _) (bufferSet snA, a0) l).
    intros [= <- <-] Hrows Hheights _.
    cbn [rows rowHeights arrays bufferSet heights set_rows] in *.
    rewrite Hrows, lookup_insert_eq. cbn [default from_option id].
    assert (foldl (slotsTurn true (firstViewportIdx r) (endViewportIdx r)
                     (endBufferIdx r - firstBufferIdx r)) (sl.1, sl.2) l = (sl.1, sl.2))
      as ->.
    { apply rerun_viewport. intros k Hk Hview.
      apply (viewport_loop _ _ _ l [] (bufferSet snA, a0)); [apply NoDup_seqZ| |done..].
      by intros k' ?%elem_of_nil. }
    eexists _, _. split; [reflexivity|]. cbn [rows rowHeights arrays bufferSet heights set_rows].
    split; [by rewrite !lookup_insert_eq|]. split; [|done].
    apply map_eq. intros k. rewrite Hheights, !carryOver_lookup. cbn [fst snd].
    destruct (decide (k ∈ Js.values sl.2 ∧ _)) as [Hk|Hk]; [|done].
    unfold Js.get at 1. rewrite carryOver_lookup. by rewrite decide_True.
  - set (sl := foldl (slotsTurn false _ _ _) (bufferSet snA, []) l).
    intros [= <- <-] Hrows Hheights Hslots.
    cbn [rows rowHeights arrays bufferSet heights set_rows] in *.
    specialize (Hslots eq_refl). rewrite lookup_insert_eq in Hslots.
    assert (∀ q k, sl.2 !! q = Some (Some k) →
              BufferSet.getValuePosition sl.1 k = Some q ∧ k ∈ l) as Hentries.
    { intros q k Hq.
      apply (full_entries _ _ _ l [] (bufferSet snA, [])); [|done].
      intros q' k' Hq'. simpl in Hq'. by rewrite lookup_nil in Hq'. }
    assert (∀ k, k ∈ l → ∃ q, sl.2 !! q = Some (Some k)) as Hall.
    { intros k Hk. destruct (Hslots k) as (array & [= <-] & Harr).
      - by apply offsetsSide_walked.
      - by apply elem_of_values. }
    destruct (rerun_full (firstViewportIdx r) (endViewportIdx r)
                (endBufferIdx r - firstBufferIdx r) l sl.1) as [Hb Ha].
    { intros k Hk. destruct (Hall k Hk) as [q Hq].
      destruct (Hentries q k Hq) as [Hpos _]. eauto. }
    eexists _, _. split; [reflexivity|].
    cbn [rows rowHeights arrays bufferSet heights set_rows].
    rewrite !lookup_insert_eq. split; [|by rewrite Hb].
    f_equal. apply noTrailingHole_eq.
    + apply slots_noTrailingHole. by intros n.
    + apply slots_noTrailingHole. by intros n.
    + intros q k. rewrite Ha. split.
      * intros [Hk Hpos]. destruct (Hall k Hk) as [q' Hq'].
        destruct (Hentries q' k Hq') as [Hpos' _]. congruence.
      * intros Hq. destruct (Hentries q k Hq). done.
Qed.

(** ** The offsets carried over in viewport-only mode *)

(** C2, amended in its last part: in viewport-only mode over a non-empty
    range, a row index found in both the previous and the resulting [rows]
    array and outside [[firstBufferIdx, endBufferIdx)] keeps in [rowHeights]
    the value it had in the previous [rowHeights]; a row index outside the
    range that is not in the resulting array (so, one in neither array) does
    not appear in [rowHeights]; and every row index of the range does appear,
    in an array or not.  Outside the range the resulting array only holds
    rows of the previous one. *)
Theorem C2_viewport_only_carries_offsets_over sn st r sn' st' :
  firstBufferIdx r < endBufferIdx r →
  computeRenderedRowOffsets sn st r true = (sn', st') →
  ∃ resulting,
    rows st' = rows st
    ∧ arrays sn' !! rows st' = Some resulting
    ∧ (∀ rowIdx,
         rowIdx ∈ Js.values (default [] (arrays sn !! rows st)) →
         rowIdx ∈ Js.values resulting →
         ¬ (firstBufferIdx r <= rowIdx < endBufferIdx r) →
         rowHeights st' !! rowIdx = Some (Js.get (rowHeights st) rowIdx))
    ∧ (∀ rowIdx,
         rowIdx ∉ Js.values resulting →
         ¬ (firstBufferIdx r <= rowIdx < endBufferIdx r) →
         rowHeights st' !! rowIdx = None)
    ∧ (∀ rowIdx,
         firstBufferIdx r <= rowIdx < endBufferIdx r →
         is_Some (rowHeights st' !! rowIdx))
    ∧ (∀ rowIdx,
         rowIdx ∈ Js.values resulting →
         ¬ (firstBufferIdx r <= rowIdx < endBufferIdx r) →
         rowIdx ∈ Js.values (default [] (arrays sn !! rows st))).
Proof.
  intros Hne. unfold computeRenderedRowOffsets.
  destruct (Z.eqb_spec (endBufferIdx r - firstBufferIdx r) 0) as [|_]; [lia|].
  rewrite loop_split. cbn [loopBufferSet bufferMapping rowOffsetsCache runningOffset].
  set (sl := foldl (slotsTurn true _ _ _) _ _).
  set (os := foldl (offsetsSide _) _ _).
  intros [= <- <-]. exists sl.2. cbn [rows rowHeights arrays set_rows].
  split; [done|]. split; [by rewrite lookup_insert_eq|].
  assert (∀ k, k ∈ seqZ (firstBufferIdx r) (endBufferIdx r - firstBufferIdx r)
               ↔ firstBufferIdx r <= k < endBufferIdx r) as Hseq.
  { intros k. rewrite elem_of_seqZ. lia. }
  assert (∀ k, Js.inRange k (firstBufferIdx r) (endBufferIdx r) = false
               ↔ ¬ (firstBufferIdx r <= k < endBufferIdx r)) as Hrange.
  { intros k. rewrite <- (inRange_spec k) by lia. by destruct (Js.inRange _ _ _). }
  repeat split.
  - intros k _ Hin Hout. rewrite carryOver_lookup.
    rewrite decide_True; [done|]. split; [done|]. by apply Hrange.
  - intros k Hin Hout. rewrite carryOver_lookup.
    rewrite decide_False by (by intros [? _]).
    unfold os. rewrite offsetsSide_other; [done|]. by rewrite Hseq.
  - intros k Hin. rewrite carryOver_lookup.
    rewrite decide_False by (intros [_ ?%Hrange]; done).
    apply offsetsSide_walked. by apply Hseq.
  - intros k Hin Hout. apply slots_values in Hin as [Hin|[Hin _]]; [done|].
    by apply Hseq in Hin.
Qed.

(** ** One call, step by step *)

Lemma resolvedFrom_refl s : resolvedFrom s s.
Proof. by repeat split. Qed.

Lemma resolvedFrom_trans s1 s2 s3 :
  resolvedFrom s1 s2 → resolvedFrom s2 s3 → resolvedFrom s1 s3.
Proof. unfold resolvedFrom. intuition congruence. Qed.


Section Run.

Variable roughHeightsSelector : State → RoughHeights.
Variable scrollbarsVisibleSelector : State → Z.
Variable tableHeightsSelector : State → Z.
Variable updateRowHeight : HeightCache → State → Z → HeightCache * Z * Z.

Local Abbreviation calc :=
  (calculateRenderedRowRange roughHeightsSelector scrollbarsVisibleSelector updateRowHeight).
Local Abbreviation run :=
  (computeRenderedRows roughHeightsSelector scrollbarsVisibleSelector
     tableHeightsSelector updateRowHeight).
Local Abbreviation Steps' :=
  (Steps roughHeightsSelector scrollbarsVisibleSelector tableHeightsSelector
     updateRowHeight).

Lemma run_steps sn state scrollAnchor sn' state' :
  run sn state scrollAnchor = Some (sn', state') ↔ Steps' sn state scrollAnchor sn' state'.
Proof.
  unfold computeRenderedRows. split.
  - intros H.
    destruct (calc (heights sn) state scrollAnchor) as [[[hc1 ns1] r1]|] eqn:Hfirst;
      simpl in H; [|done].
    destruct (scrollContentHeight ns1 - tableHeightsSelector ns1 =? 0) eqn:Hmax.
    + destruct (if firstViewportIdx r1 >? 0
                then calc hc1 ns1 (bottomAnchor (rowsCount ns1))
                else Some (hc1, ns1, r1)) as [[[hc2 ns2] r2]|] eqn:Hsecond;
        simpl in H; [|done].
      destruct (computeRenderedRowOffsets (set_heights hc2 sn)
                  (set_firstRowOffset (Some 0) ns2) r2 (scrolling state))
        as [sn3 ns3] eqn:Hoff.
      injection H as <- <-.
      eapply steps; [exact Hfirst| |exact Hoff|reflexivity|reflexivity].
      rewrite Hmax. eauto.
    + simpl in H.
      destruct (computeRenderedRowOffsets (set_heights hc1 sn) ns1 r1 (scrolling state))
        as [sn3 ns3] eqn:Hoff.
      injection H as <- <-.
      eapply steps; [exact Hfirst| |exact Hoff|reflexivity|reflexivity].
      rewrite Hmax. done.
  - intros [hc1 hc ns1 ns ns3 r1 r resolved Hfirst Hcorrect Hoff -> ->].
    rewrite Hfirst. simpl.
    destruct (scrollContentHeight ns1 - tableHeightsSelector ns1 =? 0) eqn:Hmax.
    + destruct Hcorrect as (ns2 & -> & ->). simpl. rewrite Hoff. done.
    + injection Hcorrect as -> -> ->. simpl. rewrite Hoff. done.
Qed.

(** *** The resolution only writes the first row and the aggregate height *)

Lemma walkViewport_frame fuel rc M step hc st idx e tot hc' st' e' tot' :
  walkViewport updateRowHeight fuel rc M step hc st idx e tot = Some (hc', st', e', tot') →
  resolvedFrom st st'.
Proof.
  revert hc st idx e tot.
  induction fuel as [|fuel IH]; intros hc st idx e tot; simpl.
  - case_match; [done|]. intros [= <- <- <- <-]. apply resolvedFrom_refl.
  - case_match; [|intros [= <- <- <- <-]; apply resolvedFrom_refl].
    destruct (updateRowHeight hc st idx) as [[hc1 c] h].
    intros Hw%IH. eapply resolvedFrom_trans; [|exact Hw]. by repeat split.
Qed.

Lemma touchRows_frame hc st first last hc' st' :
  touchRows updateRowHeight hc st first last = (hc', st') → resolvedFrom st st'.
Proof.
  unfold touchRows. generalize (seqZ first (last - first)) as l.
  intros l. revert hc st. induction l as [|i l IH]; intros hc st; simpl.
  - intros [= <- <-]. apply resolvedFrom_refl.
  - destruct (updateRowHeight hc st i) as [[hc1 c] h]. intros H%IH.
    eapply resolvedFrom_trans; [|exact H]. by repeat split.
Qed.

(** *** The resolution, step by step *)

Lemma calc_zero hc s a :
  rowsCount s = 0 → calc hc s a = Some (hc, s, mkRowRange 0 0 0 0).
Proof. intros H. unfold calculateRenderedRowRange. by rewrite H. Qed.

Lemma calc_inv hc s a hc' s' r :
  calc hc s a = Some (hc', s', r) →
  rowsCount s ≠ 0 →
  let rc := rowsCount s in
  let buf := bufferRowCount (roughHeightsSelector s) in
  let lastIndex :=
    if Js.geb (Anchor.firstIndex a) (Some rc) || Js.geb (Anchor.lastIndex a) (Some rc)
    then Some (rc - 1) else Anchor.lastIndex a in
  ∃ step startIdx tot0 hc1 s1 endIdx tot hc2 s2 s3,
    match lastIndex, Anchor.firstIndex a with
    | Some li, _ => Some (-1, li, 0)
    | None, Some fi => Some (1, fi, Anchor.firstOffset a)
    | None, None => None
    end = Some (step, startIdx, tot0)
    ∧ walkViewport updateRowHeight (Z.to_nat rc) rc
        (maxAvailableHeight (roughHeightsSelector s)) step hc s startIdx startIdx tot0
      = Some (hc1, s1, endIdx, tot)
    ∧ touchRows updateRowHeight hc1 s1
        (Z.max (Z.min startIdx endIdx - buf) 0) (Z.min startIdx endIdx) = (hc2, s2)
    ∧ touchRows updateRowHeight hc2 s2
        (Z.max startIdx endIdx + 1) (Z.min (Z.max startIdx endIdx + 1 + buf) rc) = (hc', s3)
    ∧ firstBufferIdx r = Z.max (Z.min startIdx endIdx - buf) 0
    ∧ endViewportIdx r = Z.max startIdx endIdx + 1
    ∧ endBufferIdx r = Z.min (Z.max startIdx endIdx + 1 + buf) rc
    ∧ s' = set_firstRow (firstViewportIdx r) (firstRowOffset s') s3
    ∧ (firstViewportIdx r, firstRowOffset s') =
        match lastIndex with
        | Some _ =>
            let firstOffset := Z.min (scrollbarsVisibleSelector s3 - tot) 0 in
            if Js.geb (Some (-1 * firstOffset)) (storedHeights hc' !! Z.min startIdx endIdx)
            then (Z.min startIdx endIdx + 1,
                  Js.add (Some firstOffset) (storedHeights hc' !! (Z.min startIdx endIdx + 1)))
            else (Z.min startIdx endIdx, Some firstOffset)
        | None => (Z.min startIdx endIdx, Some (Anchor.firstOffset a))
        end.
Proof.
  intros H Hrc. unfold calculateRenderedRowRange in H.
  destruct (Z.eqb_spec (rowsCount s) 0) as [|_]; [done|].
  cbv zeta.
  destruct (if Js.geb (Anchor.firstIndex a) (Some (rowsCount s))
               || Js.geb (Anchor.lastIndex a) (Some (rowsCount s))
            then Some (rowsCount s - 1) else Anchor.lastIndex a) as [li|] eqn:Hli.
  - cbn [mbind option_bind] in H.
    destruct (walkViewport _ _ _ _ _ _ _ _ _ _) as [[[[hc1 s1] endIdx] tot]|] eqn:Hwalk;
      [|done].
    cbn [mbind option_bind] in H.
    destruct (touchRows updateRowHeight hc1 s1 _ _) as [hc2 s2] eqn:Ht1.
    destruct (touchRows updateRowHeight hc2 s2 _ _) as [hc3 s3] eqn:Ht2.
    exists (-1), li, 0, hc1, s1, endIdx, tot, hc2, s2, s3.
    destruct (Js.geb _ (storedHeights hc3 !! Z.min li endIdx)) eqn:Hadv;
      injection H as <- <- <-; cbn [firstViewportIdx firstBufferIdx endViewportIdx endBufferIdx firstRowOffset set_firstRow]; rewrite ?Hadv; by repeat split.
  - destruct (Anchor.firstIndex a) as [fi|] eqn:Hfi; [|done].
    cbn [mbind option_bind] in H.
    destruct (walkViewport _ _ _ _ _ _ _ _ _ _) as [[[[hc1 s1] endIdx] tot]|] eqn:Hwalk;
      [|done].
    cbn [mbind option_bind] in H.
    destruct (touchRows updateRowHeight hc1 s1 _ _) as [hc2 s2] eqn:Ht1.
    destruct (touchRows updateRowHeight hc2 s2 _ _) as [hc3 s3] eqn:Ht2.
    exists 1, fi, (Anchor.firstOffset a), hc1, s1, endIdx, tot, hc2, s2, s3.
    injection H as <- <- <-; by repeat split.
Qed.

Lemma calc_intro hc s a step startIdx tot0 hc1 s1 endIdx tot hc2 s2 hc3 s3 :
  rowsCount s ≠ 0 →
  let rc := rowsCount s in
  let buf := bufferRowCount (roughHeightsSelector s) in
  let lastIndex :=
    if Js.geb (Anchor.firstIndex a) (Some rc) || Js.geb (Anchor.lastIndex a) (Some rc)
    then Some (rc - 1) else Anchor.lastIndex a in
  match lastIndex, Anchor.firstIndex a with
  | Some li, _ => Some (-1, li, 0)
  | None, Some fi => Some (1, fi, Anchor.firstOffset a)
  | None, None => None
  end = Some (step, startIdx, tot0) →
  walkViewport updateRowHeight (Z.to_nat rc) rc
    (maxAvailableHeight (roughHeightsSelector s)) step hc s startIdx startIdx tot0
  = Some (hc1, s1, endIdx, tot) →
  touchRows updateRowHeight hc1 s1
    (Z.max (Z.min startIdx endIdx - buf) 0) (Z.min startIdx endIdx) = (hc2, s2) →
  touchRows updateRowHeight hc2 s2
    (Z.max startIdx endIdx + 1) (Z.min (Z.max startIdx endIdx + 1 + buf) rc) = (hc3, s3) →
  calc hc s a =
    let first :=
      match lastIndex with
      | Some _ =>
          let firstOffset := Z.min (scrollbarsVisibleSelector s3 - tot) 0 in
          if Js.geb (Some (-1 * firstOffset)) (storedHeights hc3 !! Z.min startIdx endIdx)
          then (Z.min startIdx endIdx + 1,
                Js.add (Some firstOffset) (storedHeights hc3 !! (Z.min startIdx endIdx + 1)))
          else (Z.min startIdx endIdx, Some firstOffset)
      | None => (Z.min startIdx endIdx, Some (Anchor.firstOffset a))
      end in
    Some (hc3, set_firstRow first.1 first.2 s3,
          mkRowRange (Z.min (Z.max startIdx endIdx + 1 + buf) rc)
            (Z.max startIdx endIdx + 1) (Z.max (Z.min startIdx endIdx - buf) 0) first.1).
Proof.
  intros Hrc. cbv zeta. intros Hstart Hw Ht1 Ht2. unfold calculateRenderedRowRange.
  destruct (Z.eqb_spec (rowsCount s) 0) as [|_]; [done|].
  cbv zeta.
  destruct (if Js.geb (Anchor.firstIndex a) (Some (rowsCount s))
               || Js.geb (Anchor.lastIndex a) (Some (rowsCount s))
            then Some (rowsCount s - 1) else Anchor.lastIndex a) as [li|] eqn:Hli.
  - injection Hstart as <- <- <-. cbn [mbind option_bind]. rewrite Hw.
    cbn [mbind option_bind]. rewrite Ht1, Ht2.
    by destruct (Js.geb (Some _) (storedHeights hc3 !! _)).
  - destruct (Anchor.firstIndex a) as [fi|]; [|done].
    injection Hstart as <- <- <-. cbn [mbind option_bind]. rewrite Hw.
    cbn [mbind option_bind]. by rewrite Ht1, Ht2.
Qed.

(** *** The walk ends, inside the table *)

Lemma walkViewport_total fuel rc M step hc st idx e tot :
  step = 1 ∨ step = -1 →
  (step = 1 → 0 <= idx → rc - idx <= Z.of_nat fuel) →
  (step = -1 → idx < rc → idx + 1 <= Z.of_nat fuel) →
  is_Some (walkViewport updateRowHeight fuel rc M step hc st idx e tot).
Proof.
  intros Hstep. revert hc st idx e tot.
  induction fuel as [|fuel IH]; intros hc st idx e tot Hup Hdown; simpl.
  - destruct (Z.ltb_spec idx rc), (Z.geb_spec idx 0); simpl; eauto.
    destruct (tot <? M); eauto. exfalso. destruct Hstep; lia.
  - destruct (Z.ltb_spec idx rc), (Z.geb_spec idx 0); simpl; eauto.
    destruct (tot <? M); eauto.
    destruct (updateRowHeight hc st idx) as [[hc1 c] h].
    apply IH; lia.
Qed.

Lemma walkViewport_endIdx fuel rc M step hc st idx e tot hc' st' e' tot' :
  walkViewport updateRowHeight fuel rc M step hc st idx e tot = Some (hc', st', e', tot') →
  step = 1 ∨ step = -1 →
  e' = e ∨ (0 <= e' < rc ∧ (step = 1 → idx <= e') ∧ (step = -1 → e' <= idx)).
Proof.
  intros H Hstep. revert hc st idx e tot H.
  induction fuel as [|fuel IH]; intros hc st idx e tot; simpl.
  - case_match; [done|]. intros [= <- <- <- <-]. by left.
  - destruct (Z.ltb_spec idx rc), (Z.geb_spec idx 0); simpl;
      try (intros [= <- <- <- <-]; by left).
    destruct (tot <? M); [|intros [= <- <- <- <-]; by left].
    destruct (updateRowHeight hc st idx) as [[hc1 c] h].
    intros Hw%IH. right. destruct Hstep; lia.
Qed.

(** The anchor names a row to start from. *)
Lemma calc_total hc s a :
  is_Some (Anchor.firstIndex a) ∨ is_Some (Anchor.lastIndex a) →
  is_Some (calc hc s a).
Proof.
  intros Ha. unfold calculateRenderedRowRange.
  destruct (Z.eqb_spec (rowsCount s) 0) as [|Hrc]; [eauto|].
  cbv zeta.
  destruct (if Js.geb (Anchor.firstIndex a) (Some (rowsCount s))
               || Js.geb (Anchor.lastIndex a) (Some (rowsCount s))
            then Some (rowsCount s - 1) else Anchor.lastIndex a) as [li|] eqn:Hli.
  - cbn [mbind option_bind].
    assert (is_Some (walkViewport updateRowHeight (Z.to_nat (rowsCount s)) (rowsCount s)
                (maxAvailableHeight (roughHeightsSelector s)) (-1) hc s li li 0))
      as [[[[hc1 s1] endIdx] tot] ->].
    { apply walkViewport_total; [by right|lia|]. intros _ Hlt. lia. }
    cbn [mbind option_bind].
    destruct (touchRows updateRowHeight hc1 s1 _ _) as [hc2 s2].
    destruct (touchRows updateRowHeight hc2 s2 _ _) as [hc3 s3].
    destruct (Js.geb (Some _) (storedHeights hc3 !! _)); eauto.
  - destruct (Anchor.firstIndex a) as [fi|] eqn:Hfi.
    + cbn [mbind option_bind].
      assert (is_Some (walkViewport updateRowHeight (Z.to_nat (rowsCount s))
                  (rowsCount s) (maxAvailableHeight (roughHeightsSelector s)) 1 hc s
                  fi fi (Anchor.firstOffset a)))
        as [[[[hc1 s1] endIdx] tot] ->].
      { apply walkViewport_total; [by left| |lia]. intros _ Hfi0. lia. }
      cbn [mbind option_bind].
      destruct (touchRows updateRowHeight hc1 s1 _ _) as [hc2 s2].
      destruct (touchRows updateRowHeight hc2 s2 _ _) as [hc3 s3].
      eauto.
    + exfalso. destruct (Js.geb None _ || _); [done|].
      destruct Ha as [[? ?]|[? Hl]]; [done|]. rewrite Hli in Hl. done.
Qed.

Lemma calc_frame hc s a hc' s' r :
  calc hc s a = Some (hc', s', r) →
  resolvedFrom s s' ∧ (rowsCount s ≠ 0 → firstRowIndex s' = firstViewportIdx r).
Proof.
  intros H. destruct (Z.eq_dec (rowsCount s) 0) as [Hz|Hnz].
  - rewrite calc_zero in H by done. injection H as <- <- <-.
    split; [apply resolvedFrom_refl|done].
  - destruct (calc_inv _ _ _ _ _ _ H Hnz)
      as (step & startIdx & tot0 & hc1 & s1 & endIdx & tot & hc2 & s2 & s3
          & _ & Hw & Ht1 & Ht2 & _ & _ & _ & -> & _).
    split; [|done].
    apply walkViewport_frame in Hw. apply touchRows_frame in Ht1, Ht2.
    eapply resolvedFrom_trans; [exact Hw|].
    eapply resolvedFrom_trans; [exact Ht1|].
    eapply resolvedFrom_trans; [exact Ht2|]. by repeat split.
Qed.

Lemma calc_bounds hc s a hc' s' r :
  calc hc s a = Some (hc', s', r) →
  0 < rowsCount s →
  (∀ i, Anchor.firstIndex a = Some i → 0 <= i) →
  (∀ j, Anchor.lastIndex a = Some j → 0 <= j) →
  ∃ fv0,
    0 <= fv0 < endViewportIdx r ∧ endViewportIdx r <= rowsCount s
    ∧ firstBufferIdx r = Z.max (fv0 - bufferRowCount (roughHeightsSelector s)) 0
    ∧ endBufferIdx r
      = Z.min (endViewportIdx r + bufferRowCount (roughHeightsSelector s)) (rowsCount s)
    ∧ (firstViewportIdx r = fv0 ∨ firstViewportIdx r = fv0 + 1).
Proof.
  intros H Hrc Hfirst Hlast.
  destruct (calc_inv _ _ _ _ _ _ H ltac:(lia))
    as (step & startIdx & tot0 & hc1 & s1 & endIdx & tot & hc2 & s2 & s3
        & Hstart & Hw & _ & _ & Hfb & Hev & Heb & _ & Hfv).
  assert ((step = 1 ∨ step = -1) ∧ 0 <= startIdx < rowsCount s) as [Hstep Hin].
  { destruct (Anchor.firstIndex a) as [fi|] eqn:Hfi,
      (Anchor.lastIndex a) as [li|] eqn:Hli; simpl in Hstart;
      repeat match type of Hstart with
        | context [Z.geb ?x ?y] => destruct (Z.geb_spec x y); simpl in Hstart
        end;
      try discriminate; injection Hstart as <- <- <-;
      try specialize (Hfirst _ eq_refl); try specialize (Hlast _ eq_refl);
      split; (eauto || lia). }
  apply walkViewport_endIdx in Hw; [|done].
  exists (Z.min startIdx endIdx). rewrite Hfb, Heb, Hev.
  repeat split; try lia.
  destruct (if Js.geb (Anchor.firstIndex a) (Some (rowsCount s)) || _ then _ else _)
    as [li|]; [|injection Hfv as ->; by left].
  cbv zeta in Hfv.
  destruct (Js.geb (Some _) (storedHeights hc' !! _)); injection Hfv as -> _; eauto.
Qed.

(** C3: for a state with [rowsCount >= 0], an anchor with
    [firstIndex >= 0] and [lastIndex] absent or [>= 0], and
    [bufferRowCount >= 0], [calculateRenderedRowRange] returns a range with
    [0 <= firstBufferIdx <= firstViewportIdx <= endViewportIdx <=
    endBufferIdx <= rowsCount], the advance of [firstViewportIdx] on the
    backward path included. *)
Theorem C3_row_range_is_ordered hc s a i :
  0 <= rowsCount s →
  Anchor.firstIndex a = Some i → 0 <= i →
  (∀ j, Anchor.lastIndex a = Some j → 0 <= j) →
  0 <= bufferRowCount (roughHeightsSelector s) →
  ∃ hc' s' r,
    calculateRenderedRowRange roughHeightsSelector scrollbarsVisibleSelector
      updateRowHeight hc s a = Some (hc', s', r)
    ∧ 0 <= firstBufferIdx r ∧ firstBufferIdx r <= firstViewportIdx r
    ∧ firstViewportIdx r <= endViewportIdx r ∧ endViewportIdx r <= endBufferIdx r
    ∧ endBufferIdx r <= rowsCount s.
Proof.
  intros Hrc Hfi Hi Hlast Hbuf.
  destruct (calc_total hc s a) as [[[hc' s'] r] H]; [left; rewrite Hfi; eauto|].
  exists hc', s', r. split; [done|].
  destruct (Z.eq_dec (rowsCount s) 0) as [Hz|Hnz].
  - rewrite calc_zero in H by done. injection H as <- <- <-. simpl. lia.
  - destruct (calc_bounds _ _ _ _ _ _ H) as (fv0 & ? & ? & ? & ? & ?); try lia.
    { intros i' Hi'. rewrite Hfi in Hi'. by injection Hi' as <-. }
    { done. }
Qed.

(** C9, amended with [bufferRowCount >= 0]: for a state with
    [rowsCount > 0], an anchor with [firstIndex >= 0] and [lastIndex] absent
    or [>= 0], and a buffer count that is not negative, the range returned
    by [calculateRenderedRowRange] holds at least one row, so that
    [computeRenderedRowOffsets] does not take its reset branch
    ([renderedRowsCount === 0]). *)
Theorem C9_row_range_is_not_empty hc s a i :
  0 < rowsCount s →
  Anchor.firstIndex a = Some i → 0 <= i →
  (∀ j, Anchor.lastIndex a = Some j → 0 <= j) →
  0 <= bufferRowCount (roughHeightsSelector s) →
  ∃ hc' s' r,
    calculateRenderedRowRange roughHeightsSelector scrollbarsVisibleSelector
      updateRowHeight hc s a = Some (hc', s', r)
    ∧ 1 <= endBufferIdx r - firstBufferIdx r
    ∧ (endBufferIdx r - firstBufferIdx r =? 0) = false.
Proof.
  intros Hrc Hfi Hi Hlast Hbuf.
  destruct (calc_total hc s a) as [[[hc' s'] r] H]; [left; rewrite Hfi; eauto|].
  exists hc', s', r. split; [done|].
  destruct (calc_bounds _ _ _ _ _ _ H) as (fv0 & ? & ? & ? & ? & ?); try done.
  { intros i' Hi'. rewrite Hfi in Hi'. by injection Hi' as <-. }
  split; [lia|]. apply Z.eqb_neq. lia.
Qed.

(** *** The scroll position and the corrected resolution *)

(** The scroll position before the clamp, read off the returned state. *)
Lemma run_scroll sn s a sn' s' :
  run sn s a = Some (sn', s') →
  let resolved :=
    if rowsCount s >? 0
    then Js.sub (Js.get (rowHeights s') (firstRowIndex s')) (firstRowOffset s')
    else Some 0 in
  scrollY s' = Js.clamp resolved 0 (maxScrollY s')
  ∧ scrollJumpedY s' = jumpRequested a && Js.strict_ne resolved (scrollY s).
Proof.
  intros [hc1 hc ns1 ns ns3 r1 r resolved Hfirst Hcorrect Hoff Hres ->]%run_steps.
  destruct (calc_frame _ _ _ _ _ _ Hfirst) as [Hfr1 Hidx1].
  destruct (offsets_frame _ _ _ _ _ _ Hoff) as [Hns3 _].
  assert (resolved =
    if rowsCount s >? 0
    then Js.sub (Js.get (rowHeights ns3) (firstRowIndex ns3)) (firstRowOffset ns3)
    else Some 0) as Hres'.
  { rewrite Hres. destruct Hfr1 as (-> & _).
    destruct (Z.gtb_spec (rowsCount s) 0) as [Hpos|]; [|done].
    assert (firstRowIndex ns = firstViewportIdx r) as Hidx.
    { destruct (_ =? 0).
      - destruct Hcorrect as (ns2 & Hsecond & ->). simpl.
        destruct (firstViewportIdx r1 >? 0).
        + apply calc_frame in Hsecond as [_ Hidx2]. apply Hidx2.
          destruct (calc_frame _ _ _ _ _ _ Hfirst) as [(-> & _) _]. lia.
        + injection Hsecond as _ <- <-. apply Hidx1. lia.
      - injection Hcorrect as _ -> ->. apply Hidx1. lia. }
    rewrite Hns3. simpl. by rewrite Hidx. }
  simpl. by rewrite <- Hres'.
Qed.

(** C7: the returned [scrollJumpedY] is true exactly when the anchor has
    [scrollJumpedY === true] and the resolved [scrollY], before the clamp,
    differs ([!==]) from the [scrollY] of the input state; it is false as
    soon as the anchor does not request a jump. *)
Theorem C7_jump_flag sn s a sn' s' :
  computeRenderedRows roughHeightsSelector scrollbarsVisibleSelector
      tableHeightsSelector updateRowHeight sn s a = Some (sn', s') →
  let resolved :=
    if rowsCount s >? 0
    then Js.sub (Js.get (rowHeights s') (firstRowIndex s')) (firstRowOffset s')
    else Some 0 in
  scrollY s' = Js.clamp resolved 0 (maxScrollY s')
  ∧ (scrollJumpedY s' = true
     ↔ Anchor.scrollJumpedY a = Some true ∧ Js.strict_ne resolved (scrollY s) = true)
  ∧ (Anchor.scrollJumpedY a ≠ Some true → scrollJumpedY s' = false).
Proof.
  intros Hrun. destruct (run_scroll _ _ _ _ _ Hrun) as [Hclamp Hjump].
  cbv zeta. split; [done|]. rewrite Hjump. unfold jumpRequested.
  destruct (Anchor.scrollJumpedY a) as [[|]|]; simpl; split; try done;
    try (split; [by intros ?|by intros [? ?]]);
    try (split; [by intros ?|by intros [[=] ?]]).
Qed.

(** C6: when [maxScrollY = scrollContentHeight - bodyHeight] is [0] and
    the first resolution yields [firstViewportIdx > 0], the window is
    resolved again with the anchor [{firstOffset: 0, lastIndex: rowsCount - 1}],
    the offsets are computed over that second range, and the returned state
    has [firstRowOffset = 0]. *)
Theorem C6_fitting_content_is_resolved_again sn s a hc1 ns1 r1 :
  calculateRenderedRowRange roughHeightsSelector scrollbarsVisibleSelector
      updateRowHeight (heights sn) s a = Some (hc1, ns1, r1) →
  scrollContentHeight ns1 - tableHeightsSelector ns1 = 0 →
  0 < firstViewportIdx r1 →
  ∃ hc2 ns2 r2 sn' ns3 s',
    calculateRenderedRowRange roughHeightsSelector scrollbarsVisibleSelector
      updateRowHeight hc1 ns1 (bottomAnchor (rowsCount s)) = Some (hc2, ns2, r2)
    ∧ computeRenderedRowOffsets (set_heights hc2 sn) (set_firstRowOffset (Some 0) ns2)
        r2 (scrolling s) = (sn', ns3)
    ∧ computeRenderedRows roughHeightsSelector scrollbarsVisibleSelector
      tableHeightsSelector updateRowHeight sn s a = Some (sn', s')
    ∧ firstRowOffset s' = Some 0
    ∧ firstRowIndex s' = firstViewportIdx r2
    ∧ rows s' = rows ns3 ∧ rowHeights s' = rowHeights ns3
    ∧ maxScrollY s' = 0.
Proof.
  intros Hfirst Hmax Hfv.
  destruct (calc_frame _ _ _ _ _ _ Hfirst) as [Hfr1 _].
  assert (rowsCount s ≠ 0) as Hnz.
  { intros Hz. rewrite calc_zero in Hfirst by done.
    injection Hfirst as _ _ <-. simpl in Hfv. lia. }
  destruct (calc_total hc1 ns1 (bottomAnchor (rowsCount s)))
    as [[[hc2 ns2] r2] Hsecond]; [right; simpl; eauto|].
  destruct (computeRenderedRowOffsets (set_heights hc2 sn)
              (set_firstRowOffset (Some 0) ns2) r2 (scrolling s))
    as [sn' ns3] eqn:Hoff.
  eexists hc2, ns2, r2, sn', ns3, _.
  split; [done|]. split; [done|]. split.
  - apply run_steps.
    eapply (steps _ _ _ _ _ _ _ _ _ hc1 hc2 ns1 _ ns3 r1 r2);
      [exact Hfirst| |exact Hoff|reflexivity|reflexivity].
    rewrite Hmax. simpl. exists ns2.
    destruct (Z.gtb_spec (firstViewportIdx r1) 0); [|lia].
    destruct Hfr1 as (-> & _). done.
  - destruct (offsets_frame _ _ _ _ _ _ Hoff) as [-> _]. simpl.
    repeat split; try done.
    apply calc_frame in Hsecond as [_ Hidx]. apply Hidx.
    destruct Hfr1 as (-> & _). done.
Qed.

(** C8: for an input state with [scrolling == false] and [rowsCount > 0]
    the earlier evolution of [computeRenderedRows] and the unified one
    return the same state (and leave the session in the same condition),
    over the same collaborators. *)
Theorem C8_earlier_evolution_agrees_at_rest sn s a :
  scrolling s = false →
  0 < rowsCount s →
  Earlier.computeRenderedRows roughHeightsSelector scrollbarsVisibleSelector
    tableHeightsSelector updateRowHeight sn s a
  = computeRenderedRows roughHeightsSelector scrollbarsVisibleSelector
      tableHeightsSelector updateRowHeight sn s a.
Proof.
  intros Hscr Hrc.
  unfold Earlier.computeRenderedRows, computeRenderedRows. rewrite Hscr.
  destruct (calc (heights sn) s a) as [[[hc1 ns1] r1]|] eqn:Hfirst; [|done].
  cbn [mbind option_bind].
  destruct (calc_frame _ _ _ _ _ _ Hfirst) as [(Hrc1 & _) _].
  destruct (_ =? 0).
  - destruct (if firstViewportIdx r1 >? 0 then _ else _) as [[[hc2 ns2] r2]|];
      [|done].
    cbn [mbind option_bind]. rewrite earlier_offsets.
    destruct (computeRenderedRowOffsets _ _ _ _) as [sn3 ns3].
    rewrite Hrc1. destruct (Z.gtb_spec (rowsCount s) 0); [done|lia].
  - cbn [mbind option_bind]. rewrite earlier_offsets.
    destruct (computeRenderedRowOffsets _ _ _ _) as [sn3 ns3].
    rewrite Hrc1. destruct (Z.gtb_spec (rowsCount s) 0); [done|lia].
Qed.

(** *** The calls on references *)

(** The embedding by value is what the functions compute on the object they
    are given; the other objects of the heap are left as they are. *)
Lemma stored_same h state properties :
  objects h !! state = Some properties →
  stored h state (heights (session h)) properties = h.
Proof.
  intros Hp. destruct h as [o [ar bs hc]]. unfold stored. simpl in *.
  by rewrite insert_id.
Qed.

Lemma stored_stored h state hc1 p1 hc2 p2 :
  stored (stored h state hc1 p1) state hc2 p2 = stored h state hc2 p2.
Proof. unfold stored. simpl. by rewrite insert_insert_eq. Qed.

Lemma stored_lookup h state hc properties :
  objects (stored h state hc properties) !! state = Some properties.
Proof. apply lookup_insert_eq. Qed.

Lemma stored_heights h state hc properties :
  heights (session (stored h state hc properties)) = hc.
Proof. done. Qed.

Lemma assign_stored h state hc properties f :
  ByReference.assign state f (stored h state hc properties)
  = stored h state hc (f properties).
Proof. unfold ByReference.assign, stored. simpl. by rewrite alter_insert_eq. Qed.

Lemma measure_by_value h state properties rowIdx :
  objects h !! state = Some properties →
  ByReference.updateRowHeightAt updateRowHeight h state rowIdx
  = Some (stored h state (updateRowHeight (heights (session h)) properties rowIdx).1.1
            (set_scrollContentHeight
               (updateRowHeight (heights (session h)) properties rowIdx).1.2 properties),
          (updateRowHeight (heights (session h)) properties rowIdx).2).
Proof.
  intros Hp. unfold ByReference.updateRowHeightAt, ByReference.assign, stored.
  rewrite Hp. simpl.
  destruct (updateRowHeight _ _ _) as [[hc c] height]. simpl.
  by rewrite (alter_alt_Some _ _ _ _ Hp).
Qed.

Lemma walk_by_value fuel rc M step h state properties idx e tot :
  objects h !! state = Some properties →
  ByReference.walkViewport updateRowHeight fuel rc M step h state idx e tot
  = '(hc, properties', e', tot') ←
      walkViewport updateRowHeight fuel rc M step (heights (session h)) properties
        idx e tot;
    Some (stored h state hc properties', e', tot').
Proof.
  revert h properties idx e tot.
  induction fuel as [|fuel IH]; intros h properties idx e tot Hp; simpl.
  - case_match; [done|]. simpl. by rewrite stored_same.
  - case_match; [|simpl; by rewrite stored_same].
    rewrite (measure_by_value _ _ _ _ Hp). cbn [mbind option_bind].
    destruct (updateRowHeight _ _ _) as [[hc c] height]. cbn [fst snd].
    rewrite (IH _ _ _ _ _ (stored_lookup _ _ _ _)). simpl.
    destruct (walkViewport _ _ _ _ _ _ _ _ _ _) as [[[[hc' p'] e'] tot']|]; [|done].
    cbn [mbind option_bind]. by rewrite stored_stored.
Qed.

Lemma touch_by_value h state properties first last :
  objects h !! state = Some properties →
  ByReference.touchRows updateRowHeight h state first last
  = Some (stored h state
            (touchRows updateRowHeight (heights (session h)) properties first last).1
            (touchRows updateRowHeight (heights (session h)) properties first last).2).
Proof.
  unfold ByReference.touchRows, touchRows.
  generalize (seqZ first (last - first)) as l. intros l. revert h properties.
  induction l as [|rowIdx l IH]; intros h properties Hp; simpl.
  - by rewrite stored_same.
  - rewrite (measure_by_value _ _ _ _ Hp). cbn [fmap option_fmap option_map fst].
    destruct (updateRowHeight _ _ _) as [[hc c] height]. cbn [fst snd].
    rewrite (IH _ _ (stored_lookup _ _ _ _)). by rewrite stored_stored.
Qed.

Lemma calc_by_value h state properties a :
  objects h !! state = Some properties →
  ByReference.calculateRenderedRowRange roughHeightsSelector scrollbarsVisibleSelector
    updateRowHeight h state a
  = '(hc, properties', rowRange) ← calc (heights (session h)) properties a;
    Some (stored h state hc properties', rowRange).
Proof.
  intros Hp. unfold ByReference.calculateRenderedRowRange, calculateRenderedRowRange.
  rewrite Hp. cbn [mbind option_bind].
  case_match; [simpl; by rewrite stored_same|].
  set (lastIndex := if Js.geb _ _ || Js.geb _ _ then _ else _).
  clearbody lastIndex.
  destruct lastIndex as [lastIndex|]; [|destruct (Anchor.firstIndex a); [|done]].
  all: cbn [mbind option_bind].
  all: rewrite (walk_by_value _ _ _ _ _ _ _ _ _ _ Hp).
  all: destruct (walkViewport _ _ _ _ _ _ _ _ _ _) as [[[[hc p] e] tot]|]; [|done].
  all: cbn [mbind option_bind].
  all: rewrite (touch_by_value _ _ _ _ _ (stored_lookup _ _ _ _)).
  all: cbn [mbind option_bind].
  all: rewrite (touch_by_value _ _ _ _ _ (stored_lookup _ _ _ _)).
  all: cbn [mbind option_bind]; rewrite stored_lookup; cbn [mbind option_bind].
  all: rewrite !stored_stored, !stored_heights.
  all: destruct (touchRows updateRowHeight hc p _ _) as [hc0 p0]; cbn [fst snd].
  all: destruct (touchRows updateRowHeight hc0 p0 _ _) as [hc1 p1]; cbn [fst snd].
  - destruct (Js.geb _ _); cbn [mbind option_bind]; by rewrite assign_stored.
  - cbn [mbind option_bind]. by rewrite assign_stored.
Qed.

Lemma offsets_assign sn properties rowRange vo :
  (computeRenderedRowOffsets sn properties rowRange vo).2
  = set_rows (rowHeights (computeRenderedRowOffsets sn properties rowRange vo).2)
      (rows (computeRenderedRowOffsets sn properties rowRange vo).2) properties.
Proof. unfold computeRenderedRowOffsets. by case_match. Qed.

Lemma offsets_by_value h state properties rowRange vo :
  objects h !! state = Some properties →
  ByReference.computeRenderedRowOffsets h state rowRange vo
  = Some (mkHeap
            (<[state := (computeRenderedRowOffsets (session h) properties rowRange vo).2]>
               (objects h))
            (computeRenderedRowOffsets (session h) properties rowRange vo).1).
Proof.
  intros Hp. unfold ByReference.computeRenderedRowOffsets, ByReference.assign.
  rewrite Hp. cbn [mbind option_bind].
  pose proof (offsets_assign (session h) properties rowRange vo) as Hset.
  destruct (computeRenderedRowOffsets _ _ _ _) as [sn p]. cbn [fst snd objects session] in *.
  by rewrite (alter_alt_Some _ _ _ _ Hp), <- Hset.
Qed.

Lemma stored_other h state hc properties other :
  other ≠ state → objects (stored h state hc properties) !! other = objects h !! other.
Proof. intros Hne. unfold stored. simpl. by rewrite lookup_insert_ne. Qed.

Lemma computeRenderedRows_by_value h state a :
  ByReference.computeRenderedRows roughHeightsSelector scrollbarsVisibleSelector
    tableHeightsSelector updateRowHeight h state a
  = properties ← objects h !! state;
    '(sn, properties') ← run (session h) properties a;
    Some (mkHeap (<[fresh (dom (objects h)) := properties']> (objects h)) sn,
          fresh (dom (objects h))).
Proof.
  unfold ByReference.computeRenderedRows, computeRenderedRows.
  destruct (objects h !! state) as [properties|] eqn:Hp; [|done].
  cbn [mbind option_bind].
  set (newState := fresh (dom (objects h))).
  assert (state ≠ newState) as Hne.
  { intros Heq. apply (is_fresh (dom (objects h))). fold newState. rewrite <- Heq.
    apply elem_of_dom. eauto. }
  replace (mkHeap (<[newState := properties]> (objects h)) (session h))
    with (stored h newState (heights (session h)) properties)
    by (by destruct h as [o []]).
  rewrite (calc_by_value _ _ _ _ (stored_lookup _ _ _ _)), stored_heights.
  destruct (calc _ _ _) as [[[hc1 p1] r1]|]; [|done]. cbn [mbind option_bind].
  rewrite stored_stored, stored_lookup. cbn [mbind option_bind].
  assert (∀ hc p2 r,
    (objects (stored h newState hc p2) !! state
     ≫= λ caller,
       ByReference.computeRenderedRowOffsets (stored h newState hc p2) newState r
         (scrolling caller)
       ≫= λ h1, objects h1 !! newState
       ≫= λ written, objects h1 !! state
       ≫= λ caller0,
         Some (ByReference.assign newState
                 (set_scroll (scrollContentHeight p1 - tableHeightsSelector p1)
                    (Js.clamp
                       (if rowsCount p1 >? 0
                        then Js.sub (Js.get (rowHeights written) (firstViewportIdx r))
                               (firstRowOffset written)
                        else Some 0)
                       0 (scrollContentHeight p1 - tableHeightsSelector p1))
                    (jumpRequested a &&
                     Js.strict_ne
                       (if rowsCount p1 >? 0
                        then Js.sub (Js.get (rowHeights written) (firstViewportIdx r))
                               (firstRowOffset written)
                        else Some 0)
                       (scrollY caller0))) h1, newState))
    = Some (mkHeap
              (<[newState :=
                   set_scroll (scrollContentHeight p1 - tableHeightsSelector p1)
                     (Js.clamp
                        (if rowsCount p1 >? 0
                         then Js.sub
                                (Js.get
                                   (rowHeights
                                      (computeRenderedRowOffsets
                                         (set_heights hc (session h)) p2 r
                                         (scrolling properties)).2)
                                   (firstViewportIdx r))
                                (firstRowOffset
                                   (computeRenderedRowOffsets
                                      (set_heights hc (session h)) p2 r
                                      (scrolling properties)).2)
                         else Some 0)
                        0 (scrollContentHeight p1 - tableHeightsSelector p1))
                     (jumpRequested a &&
                      Js.strict_ne
                        (if rowsCount p1 >? 0
                         then Js.sub
                                (Js.get
                                   (rowHeights
                                      (computeRenderedRowOffsets
                                         (set_heights hc (session h)) p2 r
                                         (scrolling properties)).2)
                                   (firstViewportIdx r))
                                (firstRowOffset
                                   (computeRenderedRowOffsets
                                      (set_heights hc (session h)) p2 r
                                      (scrolling properties)).2)
                         else Some 0)
                        (scrollY properties))
                     (computeRenderedRowOffsets (set_heights hc (session h)) p2 r
                        (scrolling properties)).2]> (objects h))
              (computeRenderedRowOffsets (set_heights hc (session h)) p2 r
                 (scrolling properties)).1, newState)) as Htail.
  { intros hc p2 r. rewrite (stored_other _ _ _ _ _ Hne), Hp. cbn [mbind option_bind].
    rewrite (offsets_by_value _ _ _ _ _ (stored_lookup _ _ _ _)). cbn [mbind option_bind].
    cbn [objects session stored]. rewrite lookup_insert_eq. cbn [mbind option_bind].
    rewrite !lookup_insert_ne, Hp by done. cbn [mbind option_bind].
    unfold ByReference.assign. cbn [objects session].
    by rewrite alter_insert_eq, !insert_insert_eq. }
  destruct (scrollContentHeight p1 - tableHeightsSelector p1 =? 0);
    [destruct (firstViewportIdx r1 >? 0)|]; cbn [mbind option_bind].
  - rewrite (calc_by_value _ _ _ _ (stored_lookup _ _ _ _)), stored_heights.
    destruct (calc _ _ _) as [[[hc2 p2] r2]|]; [|done]. cbn [mbind option_bind].
    rewrite stored_stored, assign_stored, Htail.
    by destruct (computeRenderedRowOffsets _ _ _ _).
  - rewrite assign_stored, Htail. by destruct (computeRenderedRowOffsets _ _ _ _).
  - rewrite Htail. by destruct (computeRenderedRowOffsets _ _ _ _).
Qed.

(** C10: [computeRenderedRows] assigns to no property of the state object
    it is given: the object returned is a new one, and after the call the
    caller's object, like every object allocated before, holds the
    properties it held (the session they refer to may have changed). *)
Theorem C10_input_state_object_is_not_assigned h state a h' newState :
  ByReference.computeRenderedRows roughHeightsSelector scrollbarsVisibleSelector
    tableHeightsSelector updateRowHeight h state a = Some (h', newState) →
  newState ≠ state
  ∧ (newState ∉ dom (objects h))
  ∧ objects h' !! state = objects h !! state
  ∧ (∀ other, other ≠ newState → objects h' !! other = objects h !! other).
Proof.
  rewrite computeRenderedRows_by_value. intros H.
  destruct (objects h !! state) as [properties|] eqn:Hstate; [|done].
  cbn [mbind option_bind] in H.
  destruct (run (session h) properties a) as [[sn properties']|]; [|done].
  injection H as <- <-. simpl.
  pose proof (is_fresh (dom (objects h))) as Hfresh.
  assert (fresh (dom (objects h)) ≠ state) as Hne.
  { intros Heq. apply Hfresh. rewrite Heq. apply elem_of_dom. eauto. }
  repeat split; try done.
  - rewrite lookup_insert_ne; done.
  - intros other Hother. rewrite lookup_insert_ne; done.
Qed.

End Run.

(** ** Calling twice *)

Lemma state_eta s : set_scrollContentHeight (scrollContentHeight s) s = s.
Proof. by destruct s. Qed.

Lemma covers_refl rowHeightGetter hc : covers rowHeightGetter hc hc.
Proof. by intros k. Qed.

Lemma covers_trans rowHeightGetter hc1 hc2 hc3 :
  covers rowHeightGetter hc1 hc2 → covers rowHeightGetter hc2 hc3 →
  covers rowHeightGetter hc1 hc3.
Proof. intros H12 H23 k Hk. by apply H23, H12. Qed.

(** The oracle that measures with [rowHeightGetter] and leaves
    [scrollContentHeight] alone: it stores the height of the row, keeps the
    heights stored before, and changes nothing for a row already stored. *)
Lemma touch_cached rowHeightGetter hc st k :
  cachedAt rowHeightGetter (Oracle.updateRowHeight rowHeightGetter hc st k).1.1 k.
Proof. split; simpl; apply lookup_insert_eq. Qed.

Lemma touch_keeps rowHeightGetter hc st k j :
  cachedAt rowHeightGetter hc j →
  cachedAt rowHeightGetter (Oracle.updateRowHeight rowHeightGetter hc st k).1.1 j.
Proof.
  intros [Hs Ho]. destruct (decide (j = k)) as [->|Hne].
  - apply touch_cached.
  - split; simpl; by rewrite lookup_insert_ne.
Qed.

Lemma touch_noop rowHeightGetter hc st k :
  cachedAt rowHeightGetter hc k →
  (Oracle.updateRowHeight rowHeightGetter hc st k).1.1 = hc.
Proof.
  intros [Hs Ho]. destruct hc as [sh ro]. simpl in *. by rewrite !insert_id.
Qed.

Section Twice.

Variable roughHeightsSelector : State → RoughHeights.
Variable scrollbarsVisibleSelector : State → Z.
Variable tableHeightsSelector : State → Z.
Variable updateRowHeight : HeightCache → State → Z → HeightCache * Z * Z.
Variable rowHeightGetter : Z → Z.

(** The selectors only read what the module does not write. *)
Hypothesis rough_of_table :
  ∀ s s', sameTable s s' → roughHeightsSelector s = roughHeightsSelector s'.
Hypothesis scrollbars_of_table :
  ∀ s s', sameTable s s' → scrollbarsVisibleSelector s = scrollbarsVisibleSelector s'.
Hypothesis heights_of_table :
  ∀ s s', sameTable s s' → tableHeightsSelector s = tableHeightsSelector s'.

Local Abbreviation oracle := updateRowHeight.
Local Abbreviation calc :=
  (calculateRenderedRowRange roughHeightsSelector scrollbarsVisibleSelector oracle).
Local Abbreviation cached := (cachedAt rowHeightGetter).

(** The height oracle measures and caches.  It returns the height
    [rowHeightGetter] gives the row, whatever the cache holds; it leaves
    [scrollContentHeight] as it is; once it returns, the height is stored in
    [storedHeights] and in [rowOffsets], with the heights stored before; and
    it changes nothing in the cache for a row whose height is stored. *)
Hypothesis oracle_height :
  ∀ hc st k, (updateRowHeight hc st k).2 = rowHeightGetter k.
Hypothesis oracle_aggregate :
  ∀ hc st k, (updateRowHeight hc st k).1.2 = scrollContentHeight st.
Hypothesis oracle_caches :
  ∀ hc st k, cached (updateRowHeight hc st k).1.1 k.
Hypothesis oracle_keeps :
  ∀ hc st k j, cached hc j → cached (updateRowHeight hc st k).1.1 j.
Hypothesis oracle_cached :
  ∀ hc st k, cached hc k → (updateRowHeight hc st k).1.1 = hc.

Lemma oracle_call hc st k :
  ∃ hc1,
    updateRowHeight hc st k = (hc1, scrollContentHeight st, rowHeightGetter k)
    ∧ cached hc1 k
    ∧ (∀ j, cached hc j → cached hc1 j)
    ∧ (cached hc k → hc1 = hc).
Proof.
  pose proof (oracle_height hc st k) as Hh.
  pose proof (oracle_aggregate hc st k) as Ha.
  pose proof (oracle_caches hc st k) as Hc.
  pose proof (oracle_keeps hc st k) as Hk.
  pose proof (oracle_cached hc st k) as Hn.
  destruct (updateRowHeight hc st k) as [[hc1 c] height]. simpl in *. subst.
  by exists hc1.
Qed.

Lemma walk_oracle fuel rc M step hc st idx e tot hc' st' e' tot' :
  walkViewport oracle fuel rc M step hc st idx e tot = Some (hc', st', e', tot') →
  st' = st ∧ covers rowHeightGetter hc hc'.
Proof.
  revert hc idx e tot. induction fuel as [|fuel IH]; intros hc idx e tot; simpl.
  - case_match; [done|]. intros [= <- <- <- <-]. split; [done|apply covers_refl].
  - case_match; [|intros [= <- <- <- <-]; split; [done|apply covers_refl]].
    destruct (oracle_call hc st idx) as (hc1 & -> & _ & Hkeep & _).
    rewrite state_eta. intros [-> Hcov]%IH. split; [done|].
    intros k Hk. apply Hcov. by apply Hkeep.
Qed.

Lemma walk_rerun fuel rc M step hc st idx e tot hc' st' e' tot' hcX stX :
  walkViewport oracle fuel rc M step hc st idx e tot = Some (hc', st', e', tot') →
  covers rowHeightGetter hc' hcX →
  walkViewport oracle fuel rc M step hcX stX idx e tot = Some (hcX, stX, e', tot').
Proof.
  revert hc idx e tot. induction fuel as [|fuel IH]; intros hc idx e tot; simpl.
  - case_match; [done|]. by intros [= <- <- <- <-].
  - case_match; [|by intros [= <- <- <- <-]].
    destruct (oracle_call hc st idx) as (hc1 & -> & Hc1 & _ & _).
    rewrite state_eta. intros Hw Hcov.
    assert (cached hcX idx) as Hidx.
    { apply Hcov. apply walk_oracle in Hw as [_ Hkeep]. by apply Hkeep. }
    destruct (oracle_call hcX stX idx) as (hcX1 & -> & _ & _ & Hsame).
    rewrite (Hsame Hidx), state_eta. by eapply IH.
Qed.

Lemma walk_backward_touched fuel rc M hc st idx e tot hc' st' e' tot' :
  walkViewport oracle fuel rc M (-1) hc st idx e tot = Some (hc', st', e', tot') →
  0 <= idx < rc → tot < M →
  e' <= idx ∧ (∀ k, e' <= k <= idx → cached hc' k)
  ∧ (e' = idx → tot' = tot + rowHeightGetter idx).
Proof.
  revert hc idx e tot. induction fuel as [|fuel IH]; intros hc idx e tot; simpl.
  - case_match; [done|]. intros _ ? ?. lia.
  - intros Hw Hidx Htot.
    destruct (Z.ltb_spec idx rc); [|lia]. destruct (Z.geb_spec idx 0); [|lia].
    destruct (Z.ltb_spec tot M); [|lia]. simpl in Hw.
    destruct (oracle_call hc st idx) as (hc1 & Hcall & Hc1 & _ & _).
    rewrite Hcall, state_eta in Hw. clear Hcall.
    pose proof (walk_oracle _ _ _ _ _ _ _ _ _ _ _ _ _ Hw) as [_ Hkeep].
    assert (cached hc' idx) as Hc by (by apply Hkeep).
    destruct (decide (0 <= idx + -1 < rc ∧ tot + rowHeightGetter idx < M)) as [[? ?]|Hstop].
    + apply IH in Hw as (Hle & Hall & _); [|lia|lia].
      split; [lia|]. split; [|lia].
      intros k Hk. destruct (decide (k = idx)) as [->|]; [done|]. apply Hall. lia.
    + assert (e' = idx ∧ tot' = tot + rowHeightGetter idx) as [-> ->].
      { destruct fuel; simpl in Hw;
          destruct (Z.ltb_spec (idx + -1) rc), (Z.geb_spec (idx + -1) 0),
            (Z.ltb_spec (tot + rowHeightGetter idx) M); simpl in Hw;
          try lia; by injection Hw as _ _ <- <-. }
      split; [lia|]. split; [|done]. intros k Hk. by replace k with idx by lia.
Qed.

Lemma touchRows_oracle hc st first last hc' st' :
  touchRows oracle hc st first last = (hc', st') →
  st' = st ∧ covers rowHeightGetter hc hc'
  ∧ ∀ k, first <= k < last → cached hc' k.
Proof.
  unfold touchRows.
  assert (∀ l hc0, foldl (λ acc rowIdx,
            let '(hc1, contentHeight, _) := oracle acc.1 acc.2 rowIdx in
            (hc1, set_scrollContentHeight contentHeight acc.2)) (hc0, st) l = (hc', st') →
          st' = st ∧ covers rowHeightGetter hc0 hc' ∧ ∀ k, k ∈ l → cached hc' k) as Hl.
  { induction l as [|x l IH]; intros hc0; simpl.
    - intros [= <- <-]. split; [done|]. split; [apply covers_refl|].
      by intros k ?%elem_of_nil.
    - destruct (oracle_call hc0 st x) as (hc1 & -> & Hc1 & Hkeep & _).
      rewrite state_eta. intros (-> & Hcov & Hall)%IH. split; [done|]. split.
      + intros k Hk. apply Hcov. by apply Hkeep.
      + intros k [->|Hk]%elem_of_cons; [|by apply Hall].
        by apply Hcov. }
  intros (-> & Hcov & Hall)%Hl. split; [done|]. split; [done|].
  intros k Hk. apply Hall. apply elem_of_seqZ. lia.
Qed.

Lemma touchRows_rerun hc st first last hc' st' hcX stX :
  touchRows oracle hc st first last = (hc', st') →
  covers rowHeightGetter hc' hcX →
  touchRows oracle hcX stX first last = (hcX, stX).
Proof.
  intros Ht Hcov. apply touchRows_oracle in Ht as (_ & _ & Hall).
  unfold touchRows.
  assert (∀ l, (∀ k, k ∈ l → cached hcX k) →
          foldl (λ acc rowIdx,
            let '(hc1, contentHeight, _) := oracle acc.1 acc.2 rowIdx in
            (hc1, set_scrollContentHeight contentHeight acc.2)) (hcX, stX) l = (hcX, stX))
    as Hl.
  { induction l as [|x l IH]; intros Hc; simpl; [done|].
    destruct (oracle_call hcX stX x) as (hcX1 & -> & _ & _ & Hsame).
    rewrite Hsame by (apply Hc; by left). rewrite state_eta.
    apply IH. intros k Hk. apply Hc. by right. }
  apply Hl. intros k Hk%elem_of_seqZ. apply Hcov, Hall. lia.
Qed.

Lemma calc_oracle hc s a hc1 s1 r1 :
  calc hc s a = Some (hc1, s1, r1) →
  covers rowHeightGetter hc hc1 ∧ sameTable s s1.
Proof.
  intros H. destruct (Z.eq_dec (rowsCount s) 0) as [Hz|Hnz].
  - rewrite calc_zero in H by done. injection H as <- <- <-.
    split; [apply covers_refl|done].
  - destruct (calc_inv _ _ _ _ _ _ _ _ _ H Hnz)
      as (step & startIdx & tot0 & hcw & sw & endIdx & tot & hc2 & s2 & s3
          & _ & Hw & Ht1 & Ht2 & _ & _ & _ & -> & _).
    apply walk_oracle in Hw as [-> Hc1].
    apply touchRows_oracle in Ht1 as (-> & Hc2 & _).
    apply touchRows_oracle in Ht2 as (-> & Hc3 & _).
    split; [|done]. eauto using covers_trans.
Qed.

(** A resolution run again on the cache it left, on a state of the same
    table, measures nothing new and resolves the same range, first row and
    offset. *)
Lemma calc_rerun hc s a hc1 s1 r1 sX :
  calc hc s a = Some (hc1, s1, r1) →
  sameTable s sX →
  ∃ sX',
    calc hc1 sX a = Some (hc1, sX', r1)
    ∧ (rowsCount s = 0 → sX' = sX)
    ∧ (rowsCount s ≠ 0 →
       sX' = set_firstRow (firstRowIndex s1) (firstRowOffset s1) sX).
Proof.
  intros H Htable.
  pose proof (rough_of_table _ _ Htable) as Hrough.
  pose proof Htable as (Hrows & _ & _).
  destruct (Z.eq_dec (rowsCount s) 0) as [Hz|Hnz].
  { rewrite calc_zero in H by done. injection H as <- <- <-.
    exists sX. rewrite calc_zero by congruence. done. }
  destruct (calc_inv _ _ _ _ _ _ _ _ _ H Hnz)
    as (step & startIdx & tot0 & hcw & sw & endIdx & tot & hc2 & s2 & s3
        & Hstart & Hw & Ht1 & Ht2 & Hfb & Hev & Heb & Hs1 & Hfv).
  pose proof (walk_oracle _ _ _ _ _ _ _ _ _ _ _ _ _ Hw) as [-> Hc1].
  pose proof (touchRows_oracle _ _ _ _ _ _ Ht1) as (-> & Hc2 & _).
  pose proof (touchRows_oracle _ _ _ _ _ _ Ht2) as (-> & Hc3 & _).
  exists (set_firstRow (firstRowIndex s1) (firstRowOffset s1) sX).
  split; [|split; [intros ?; lia|done]].
  rewrite (calc_intro roughHeightsSelector scrollbarsVisibleSelector oracle hc1 sX a
             step startIdx tot0 hc1 sX endIdx tot hc1 sX hc1 sX);
    rewrite <- ?Hrough, <- ?Hrows; try done.
  2: { eapply walk_rerun; eauto using covers_trans. }
  2: { eapply touchRows_rerun; eauto using covers_trans. }
  2: { eapply touchRows_rerun; eauto using covers_refl. }
  rewrite <- (scrollbars_of_table _ _ Htable). cbv zeta in Hfv |- *.
  rewrite <- Hfv. cbn [fst snd].
  replace (firstRowIndex s1) with (firstViewportIdx r1) by (by rewrite Hs1).
  destruct r1 as [eb ev fb fv]. simpl in *. congruence.
Qed.

(** Run again on a cache that measured more rows, the resolution still
    resolves the same range: the walk measures the row it compares the
    overshoot with.  The offset may differ. *)
Lemma calc_rerun_range hc s a hc1 s1 r1 hcX sX :
  0 <= rowsCount s →
  0 < maxAvailableHeight (roughHeightsSelector s) →
  (∀ j, Anchor.lastIndex a = Some j → 0 <= j) →
  calc hc s a = Some (hc1, s1, r1) →
  sameTable s sX → covers rowHeightGetter hc1 hcX →
  ∃ sX', calc hcX sX a = Some (hcX, sX', r1).
Proof.
  intros Hrc HM Hlast H Htable Hcov.
  pose proof (rough_of_table _ _ Htable) as Hrough.
  pose proof Htable as (Hrows & _ & _).
  destruct (Z.eq_dec (rowsCount s) 0) as [Hz|Hnz].
  { rewrite calc_zero in H by done. injection H as <- <- <-.
    exists sX. rewrite calc_zero by congruence. done. }
  destruct (calc_inv _ _ _ _ _ _ _ _ _ H Hnz)
    as (step & startIdx & tot0 & hcw & sw & endIdx & tot & hc2 & s2 & s3
        & Hstart & Hw & Ht1 & Ht2 & Hfb & Hev & Heb & Hs1 & Hfv).
  pose proof (walk_oracle _ _ _ _ _ _ _ _ _ _ _ _ _ Hw) as [-> Hc1].
  pose proof (touchRows_oracle _ _ _ _ _ _ Ht1) as (-> & Hc2 & _).
  pose proof (touchRows_oracle _ _ _ _ _ _ Ht2) as (-> & Hc3 & _).
  assert (covers rowHeightGetter hc2 hcX) as Hcov2 by eauto using covers_trans.
  assert (covers rowHeightGetter hcw hcX) as Hcovw by eauto using covers_trans.
  assert (∀ k, cached hcw k → storedHeights hcX !! k = storedHeights hc1 !! k) as Hread.
  { intros k Hk. destruct (Hcovw k Hk) as [-> _].
    destruct (Hc3 k (Hc2 k Hk)) as [-> _]. done. }
  pose proof (calc_intro roughHeightsSelector scrollbarsVisibleSelector oracle hcX sX a
                step startIdx tot0 hcX sX endIdx tot hcX sX hcX sX) as HX.
  rewrite <- ?Hrough, <- ?Hrows, <- (scrollbars_of_table _ _ Htable) in HX.
  cbv zeta in HX, Hfv.
  rewrite HX; try done; [|by eapply walk_rerun|by eapply touchRows_rerun..].
  clear HX. eexists. do 2 f_equal.
  destruct r1 as [eb ev fb fv].
  cbn [endBufferIdx endViewportIdx firstBufferIdx firstViewportIdx] in *. subst eb ev fb.
  f_equal.
  destruct (if Js.geb (Anchor.firstIndex a) (Some (rowsCount s)) || _ then _ else _)
    as [li'|] eqn:Hli.
  - injection Hstart as <- <- <-.
    assert (0 <= li' < rowsCount s) as Hin.
    { destruct (Js.geb (Anchor.firstIndex a) _ || Js.geb (Anchor.lastIndex a) _) eqn:Hge.
      - injection Hli as <-. lia.
      - apply orb_false_elim in Hge as [_ Hge]. rewrite Hli in Hge. simpl in Hge.
        specialize (Hlast _ Hli). lia. }
    destruct (walk_backward_touched _ _ _ _ _ _ _ _ _ _ _ _ Hw Hin HM)
      as (Hle & Htouched & Hone).
    rewrite (Z.min_r li' endIdx) in Hfv |- * by lia.
    rewrite (Hread endIdx) by (apply Htouched; lia).
    by destruct (Js.geb (Some (-1 * Z.min (scrollbarsVisibleSelector s - tot) 0))
                   (storedHeights hc1 !! endIdx)) eqn:Hadv;
      injection Hfv as -> _.
  - by injection Hfv as -> _.
Qed.

Lemma set_heights_same sn : set_heights (heights sn) sn = sn.
Proof. by destruct sn. Qed.

(** The corrected resolution of a call, and the same resolution run again
    on what the call left. *)
Lemma resolution_rerun sn s a hc1 ns1 r1 hc ns r sX :
  0 <= rowsCount s →
  0 < maxAvailableHeight (roughHeightsSelector s) →
  (∀ j, Anchor.lastIndex a = Some j → 0 <= j) →
  calc (heights sn) s a = Some (hc1, ns1, r1) →
  (if scrollContentHeight ns1 - tableHeightsSelector ns1 =? 0 then
     ∃ ns2,
       (if firstViewportIdx r1 >? 0
        then calc hc1 ns1 (bottomAnchor (rowsCount ns1))
        else Some (hc1, ns1, r1)) = Some (hc, ns2, r)
       ∧ ns = set_firstRowOffset (Some 0) ns2
   else (hc, ns, r) = (hc1, ns1, r1)) →
  sameTable s sX →
  firstRowIndex sX = firstRowIndex ns → firstRowOffset sX = firstRowOffset ns →
  ∃ sX1 nsX,
    calc hc sX a = Some (hc, sX1, r1)
    ∧ scrollContentHeight sX1 - tableHeightsSelector sX1
      = scrollContentHeight ns1 - tableHeightsSelector ns1
    ∧ rowsCount sX1 = rowsCount ns1
    ∧ (if scrollContentHeight sX1 - tableHeightsSelector sX1 =? 0 then
         ∃ sX2,
           (if firstViewportIdx r1 >? 0
            then calc hc sX1 (bottomAnchor (rowsCount sX1))
            else Some (hc, sX1, r1)) = Some (hc, sX2, r)
           ∧ nsX = set_firstRowOffset (Some 0) sX2
       else (hc, nsX, r) = (hc, sX1, r1))
    ∧ resolvedFrom sX nsX
    ∧ firstRowIndex nsX = firstRowIndex ns ∧ firstRowOffset nsX = firstRowOffset ns.
Proof.
  intros Hrc HM Hlast Hfirst Hcorrect Htable Hidx Hoff.
  destruct (calc_oracle _ _ _ _ _ _ Hfirst) as [Hcov1 Htable1].
  assert (∀ hcX sX1 rX, calc hcX sX a = Some (hcX, sX1, rX) →
            sameTable ns1 sX1
            ∧ scrollContentHeight sX1 - tableHeightsSelector sX1
              = scrollContentHeight ns1 - tableHeightsSelector ns1
            ∧ rowsCount sX1 = rowsCount ns1
            ∧ resolvedFrom sX sX1) as Hsame.
  { intros hcX sX1 rX HfirstX.
    pose proof HfirstX as [HframeX _]%calc_frame.
    destruct (calc_oracle _ _ _ _ _ _ HfirstX) as [_ HtableX].
    assert (sameTable ns1 sX1) as Htable1X.
    { destruct Htable as (? & ? & ?), Htable1 as (? & ? & ?), HtableX as (? & ? & ?).
      split_and!; congruence. }
    split; [done|]. rewrite (heights_of_table _ _ Htable1X).
    by destruct Htable1X as (-> & -> & _). }
  destruct (scrollContentHeight ns1 - tableHeightsSelector ns1 =? 0) eqn:Hfits.
  - destruct Hcorrect as (ns2 & Hsecond & ->).
    destruct (Z.gtb_spec (firstViewportIdx r1) 0) as [Hpos|Hnot].
    + assert (rowsCount s ≠ 0) as Hnz.
      { intros Hz. rewrite calc_zero in Hfirst by done.
        injection Hfirst as _ _ <-. simpl in Hpos. lia. }
      pose proof Hsecond as [Hcov _]%calc_oracle.
      destruct (calc_rerun_range _ _ _ _ _ _ hc sX Hrc HM Hlast Hfirst Htable Hcov)
        as (sX1 & HfirstX).
      destruct (Hsame _ _ _ HfirstX) as (Htable1X & Hmax & Hrows & HframeX).
      destruct (calc_rerun _ _ _ _ _ _ sX1 Hsecond Htable1X) as (sX2 & HsecondX & _ & HsX2).
      destruct Htable1 as (Hrc1 & _).
      exists sX1, (set_firstRowOffset (Some 0) sX2).
      split; [done|]. split; [done|]. split; [done|]. rewrite Hmax, Hfits. split.
      { exists sX2. destruct (Z.gtb_spec (firstViewportIdx r1) 0); [|lia].
        by rewrite Hrows. }
      rewrite HsX2 by lia. split; [|done].
      eapply resolvedFrom_trans; [exact HframeX|]. by repeat split.
    + injection Hsecond as <- <- <-.
      destruct (calc_rerun _ _ _ _ _ _ sX Hfirst Htable) as (sX1 & HfirstX & Hzero & Hnonzero).
      destruct (Hsame _ _ _ HfirstX) as (Htable1X & Hmax & Hrows & HframeX).
      exists sX1, (set_firstRowOffset (Some 0) sX1).
      split; [done|]. split; [done|]. split; [done|]. rewrite Hmax, Hfits. split.
      { exists sX1. by destruct (Z.gtb_spec (firstViewportIdx r1) 0); [lia|]. }
      split; [eapply resolvedFrom_trans; [exact HframeX|]; by repeat split|].
      simpl. split; [|done].
      destruct (Z.eq_dec (rowsCount s) 0) as [Hz|Hnz].
      * rewrite (Hzero Hz). simpl in Hidx. done.
      * by rewrite (Hnonzero Hnz).
  - injection Hcorrect as <- <- <-.
    destruct (calc_rerun _ _ _ _ _ _ sX Hfirst Htable) as (sX1 & HfirstX & Hzero & Hnonzero).
    destruct (Hsame _ _ _ HfirstX) as (Htable1X & Hmax & Hrows & HframeX).
    exists sX1, sX1. split; [done|]. split; [done|]. split; [done|].
    rewrite Hmax, Hfits. split; [done|]. split; [done|].
    destruct (Z.eq_dec (rowsCount s) 0) as [Hz|Hnz].
    + by rewrite (Hzero Hz).
    + by rewrite (Hnonzero Hnz).
Qed.


End Twice.

(** ** The module on concrete tables *)

(** C1: on the backward path the code advances [firstViewportIdx] and then
    adds [storedHeights[firstViewportIdx]], the height of the row it
    advanced to, not of the row it advanced past.  Ten rows, the last one 90
    high and the others 15, [maxAvailableHeight = 100], [availableHeight =
    83], anchor [{lastIndex: 9}]: rows 9 and 8 are walked ([totalHeight =
    105]), [firstOffset = min(83 - 105, 0) = -22] pushes row 8 (15 high)
    off screen, and the code returns [firstRowOffset = -22 + 90 = 68] where
    the height of the skipped row gives [-22 + 15 = -7]. *)
Theorem C1_advance_adds_the_height_of_the_next_row :
  ∃ hc' s' r,
    calculateRenderedRowRange (Sample.rough 2 100) (Sample.const 83)
      (Oracle.updateRowHeight Sample.tallLast) (mkHeightCache ∅ ∅)
      (Sample.state 10 225 false) (Sample.toLast 9) = Some (hc', s', r)
    ∧ firstViewportIdx r = 9 ∧ firstRowIndex s' = 9
    ∧ storedHeights hc' !! 8 = Some 15 ∧ storedHeights hc' !! 9 = Some 90
    ∧ firstRowOffset s' = Some (-22 + 90)
    ∧ firstRowOffset s' ≠ Some (-22 + 15).
Proof.
  eexists _, _, _. split; [vm_compute; reflexivity|].
  vm_compute. repeat split; congruence.
Qed.

Lemma C3_witness :
  ∃ hc' s' r,
    calculateRenderedRowRange (Sample.rough 2 100) (Sample.const 83)
      (Oracle.updateRowHeight Sample.tallLast) (mkHeightCache ∅ ∅)
      (Sample.state 10 225 false) (Sample.toLast 9) = Some (hc', s', r)
    ∧ 0 <= firstBufferIdx r ∧ firstBufferIdx r <= firstViewportIdx r
    ∧ firstViewportIdx r <= endViewportIdx r ∧ endViewportIdx r <= endBufferIdx r
    ∧ endBufferIdx r <= 10.
Proof.
  apply (C3_row_range_is_ordered (Sample.rough 2 100) (Sample.const 83)
           (Oracle.updateRowHeight Sample.tallLast) (mkHeightCache ∅ ∅)
           (Sample.state 10 225 false) (Sample.toLast 9) 0).
  - simpl. lia.
  - reflexivity.
  - lia.
  - simpl. intros j [= <-]. lia.
  - simpl. lia.
Defined.

(** C9 as stated, without a bound on [bufferRowCount]: two rows, both in
    the viewport, and [bufferRowCount = -1] give [firstBufferIdx = 1] and
    [endBufferIdx = 1], an empty range for [rowsCount = 2], and the reset
    branch is taken. *)
Lemma C9_counterexample :
  ∃ hc' s' r,
    0 < rowsCount (Sample.state 2 40 false)
    ∧ Anchor.firstIndex (Sample.fromFirst 0 0 None) = Some 0
    ∧ Anchor.lastIndex (Sample.fromFirst 0 0 None) = None
    ∧ calculateRenderedRowRange (Sample.rough (-1) 100) (Sample.const 100)
        (Oracle.updateRowHeight (λ _, 20)) (mkHeightCache ∅ ∅)
        (Sample.state 2 40 false) (Sample.fromFirst 0 0 None) = Some (hc', s', r)
    ∧ ¬ (1 <= endBufferIdx r - firstBufferIdx r)
    ∧ (endBufferIdx r - firstBufferIdx r =? 0) = true.
Proof.
  eexists _, _, _. split; [done|]. split; [done|]. split; [done|].
  split; [vm_compute; reflexivity|]. vm_compute. split; [|done].
  intros H. by apply H.
Qed.

Lemma C9_witness :
  ∃ hc' s' r,
    calculateRenderedRowRange (Sample.rough 5 200) (Sample.const 200)
      (Oracle.updateRowHeight (λ _, 20)) (mkHeightCache ∅ ∅)
      (Sample.state 100 2000 false) (Sample.fromFirst 0 0 None) = Some (hc', s', r)
    ∧ 1 <= endBufferIdx r - firstBufferIdx r
    ∧ (endBufferIdx r - firstBufferIdx r =? 0) = false.
Proof.
  apply (C9_row_range_is_not_empty (Sample.rough 5 200) (Sample.const 200)
           (Oracle.updateRowHeight (λ _, 20)) (mkHeightCache ∅ ∅)
           (Sample.state 100 2000 false) (Sample.fromFirst 0 0 None) 0).
  - simpl. lia.
  - reflexivity.
  - lia.
  - simpl. intros j [=].
  - simpl. lia.
Defined.

(** Three rows of height 20 in a body of height 60: the content fits, and
    an anchor on row 1 is corrected. *)
Lemma C6_witness :
  ∃ sn' s',
    computeRenderedRows (Sample.rough 1 60) (Sample.const 60) (Sample.const 60)
      (Oracle.updateRowHeight (λ _, 20)) (Sample.session []) (Sample.state 3 60 false)
      (Sample.fromFirst 1 0 None) = Some (sn', s')
    ∧ firstRowOffset s' = Some 0 ∧ firstRowIndex s' = 0.
Proof.
  edestruct (C6_fitting_content_is_resolved_again (Sample.rough 1 60) (Sample.const 60)
               (Sample.const 60) (Oracle.updateRowHeight (λ _, 20)) (Sample.session [])
               (Sample.state 3 60 false) (Sample.fromFirst 1 0 None))
    as (hc2 & ns2 & r2 & sn' & ns3 & s' & Hsecond & _ & Hrun & Hoff & Hidx & _).
  - vm_compute. reflexivity.
  - vm_compute. reflexivity.
  - vm_compute. reflexivity.
  - exists sn', s'. split; [exact Hrun|]. split; [exact Hoff|].
    rewrite Hidx. vm_compute in Hsecond. by injection Hsecond as _ _ <-.
Defined.

Lemma C7_witness :
  ∃ sn' s',
    computeRenderedRows (Sample.rough 5 200) (Sample.const 200) (Sample.const 200)
      (Oracle.updateRowHeight (λ _, 20)) (Sample.session []) (Sample.state 100 2000 false)
      (Sample.fromFirst 5 0 (Some true)) = Some (sn', s')
    ∧ scrollY s' = Some 100 ∧ scrollJumpedY s' = true.
Proof.
  destruct (computeRenderedRows (Sample.rough 5 200) (Sample.const 200) (Sample.const 200)
      (Oracle.updateRowHeight (λ _, 20)) (Sample.session []) (Sample.state 100 2000 false)
      (Sample.fromFirst 5 0 (Some true))) as [[sn' s']|] eqn:Hrun;
    [|vm_compute in Hrun; discriminate].
  exists sn', s'. split; [reflexivity|].
  destruct (C7_jump_flag _ _ _ _ _ _ _ _ _ Hrun) as (Hclamp & Hjump & _).
  vm_compute in Hrun. injection Hrun as <- <-.
  split; [reflexivity|]. apply Hjump. split; reflexivity.
Defined.

Lemma C8_witness :
  Earlier.computeRenderedRows (Sample.rough 5 200) (Sample.const 200) (Sample.const 200)
    (Oracle.updateRowHeight (λ _, 20)) (Sample.session []) (Sample.state 100 2000 false)
    (Sample.fromFirst 5 0 (Some true))
  = computeRenderedRows (Sample.rough 5 200) (Sample.const 200) (Sample.const 200)
      (Oracle.updateRowHeight (λ _, 20)) (Sample.session []) (Sample.state 100 2000 false)
      (Sample.fromFirst 5 0 (Some true)).
Proof.
  apply C8_earlier_evolution_agrees_at_rest.
  - reflexivity.
  - simpl. lia.
Defined.

(** A caller holding one state object, at location 1, while scrolling. *)
Lemma C10_witness :
  ∃ h' newState,
    ByReference.computeRenderedRows (Sample.rough 5 200) (Sample.const 200)
      (Sample.const 200) (Oracle.updateRowHeight (λ _, 20))
      (mkHeap {[1%positive := Sample.state 100 2000 true]} (Sample.session []))
      1%positive (Sample.fromFirst 5 0 None) = Some (h', newState)
    ∧ newState ≠ 1%positive
    ∧ objects h' !! 1%positive = Some (Sample.state 100 2000 true).
Proof.
  destruct (ByReference.computeRenderedRows (Sample.rough 5 200) (Sample.const 200)
      (Sample.const 200) (Oracle.updateRowHeight (λ _, 20))
      (mkHeap {[1%positive := Sample.state 100 2000 true]} (Sample.session []))
      1%positive (Sample.fromFirst 5 0 None)) as [[h' newState]|] eqn:Hcall;
    [|vm_compute in Hcall; discriminate].
  exists h', newState. split; [reflexivity|].
  destruct (C10_input_state_object_is_not_assigned _ _ _ _ _ _ _ _ _ Hcall)
    as (Hne & _ & Hsame & _).
  split; [exact Hne|]. exact (eq_trans Hsame eq_refl).
Defined.

(** While scrolling, the array the caller's object refers to is altered in
    place: the reference is kept, its content is not. *)
Example rows_array_is_shared_while_scrolling :
  ∃ h' newState properties',
    ByReference.computeRenderedRows (Sample.rough 5 200) (Sample.const 200)
      (Sample.const 200) (Oracle.updateRowHeight (λ _, 20))
      (mkHeap {[1%positive := Sample.state 100 2000 true]} (Sample.session []))
      1%positive (Sample.fromFirst 5 0 None) = Some (h', newState)
    ∧ objects h' !! newState = Some properties'
    ∧ rows properties' = rows (Sample.state 100 2000 true)
    ∧ arrays (Sample.session []) !! 1%positive = Some []
    ∧ arrays (session h') !! 1%positive
      = Some (Some <$> [5; 6; 7; 8; 9; 10; 11; 12; 13; 14]).
Proof.
  eexists _, _, _. split; [vm_compute; reflexivity|].
  vm_compute. repeat split; reflexivity.
Qed.

(** C2 as stated: a buffer row before the viewport is in neither array and
    yet has its offset.  Range [[0, 3)] with viewport [[1, 2)], rows of
    height 20, [state.rows] empty: the resulting array only holds row 1,
    and [rowHeights[0] = 0]. *)
Lemma C2_counterexample :
  ∃ sn' st' resulting,
    computeRenderedRowOffsets (Sample.sessionOf [] [] (Sample.measured 3 20))
      (Sample.state 3 60 true) (mkRowRange 3 2 0 1) true = (sn', st')
    ∧ arrays sn' !! rows st' = Some resulting
    ∧ resulting = [Some 1]
    ∧ (0 ∉ Js.values ([] : list (option Z)))
    ∧ (0 ∉ Js.values resulting)
    ∧ rowHeights st' !! 0 = Some (Some 0).
Proof.
  eexists _, _, _. split; [vm_compute; reflexivity|].
  split; [vm_compute; reflexivity|]. split; [reflexivity|].
  split; [apply not_elem_of_nil|]. split; [|vm_compute; reflexivity].
  simpl. intros [[=]|[]%elem_of_nil]%elem_of_cons.
Qed.

(** Rows 7, 2 and 9 hold the three slots; the viewport [[1, 2)] of the
    range [[0, 3)] takes the slot of row 9, the furthest: row 7 keeps the
    offset it had and row 9 has none any more. *)
Lemma C2_witness :
  ∃ sn' st' resulting,
    computeRenderedRowOffsets (Sample.sessionOf [Some 7; Some 2; Some 9] [7; 2; 9]
        (Sample.measured 10 20))
      (set_rows {[7 := Some 140; 9 := Some 180]} 1%positive (Sample.state 10 200 true))
      (mkRowRange 3 2 0 1) true = (sn', st')
    ∧ arrays sn' !! rows st' = Some resulting
    ∧ rowHeights st' !! 7 = Some (Some 140)
    ∧ rowHeights st' !! 9 = None.
Proof.
  destruct (computeRenderedRowOffsets (Sample.sessionOf [Some 7; Some 2; Some 9] [7; 2; 9]
        (Sample.measured 10 20))
      (set_rows {[7 := Some 140; 9 := Some 180]} 1%positive (Sample.state 10 200 true))
      (mkRowRange 3 2 0 1) true) as [sn' st'] eqn:Hrun.
  assert (firstBufferIdx (mkRowRange 3 2 0 1) < endBufferIdx (mkRowRange 3 2 0 1))
    as Hrange by (simpl; lia).
  destruct (C2_viewport_only_carries_offsets_over _ _ _ _ _ Hrange Hrun)
    as (resulting & _ & Harr & Hkept & Hdropped & _).
  exists sn', st', resulting. split; [reflexivity|]. split; [exact Harr|].
  vm_compute in Hrun. injection Hrun as <- <-.
  vm_compute in Harr. injection Harr as <-. split.
  - rewrite (Hkept 7); [reflexivity| | |simpl; lia].
    + simpl. left.
    + simpl. left.
  - apply Hdropped; [|simpl; lia].
    simpl. intros H. repeat (apply elem_of_cons in H as [[=]|H]). by apply elem_of_nil in H.
Defined.

(** C4 as stated: a table cut down to five rows, its last row in the
    viewport (range [[0, 5)], viewport [[4, 5)]), and an allocator still
    holding rows 5, 6, 7, 20 and 21.  Rows 0 and 1 take the slots of rows
    21 and 20; row 2 then finds row 0 the furthest from the viewport and
    takes its slot, and row 3 takes the slot of row 1: rows 0 and 1 are not
    in the array. *)
Lemma C4_counterexample :
  ∃ sn' st' resulting,
    computeRenderedRowOffsets (Sample.sessionOf [] [5; 6; 7; 20; 21] (Sample.measured 5 20))
      (Sample.state 5 100 false) (mkRowRange 5 5 0 4) false = (sn', st')
    ∧ arrays sn' !! rows st' = Some resulting
    ∧ resulting = [None; None; Some 4; Some 3; Some 2]
    ∧ 0 <= 0 < 5
    ∧ (0 ∉ Js.values resulting).
Proof.
  eexists _, _, _. split; [vm_compute; reflexivity|].
  split; [vm_compute; reflexivity|]. split; [reflexivity|]. split; [lia|].
  simpl. intros H. repeat (apply elem_of_cons in H as [[=]|H]). by apply elem_of_nil in H.
Qed.

(** The same table with an allocator holding rows 3, 20 and 21: the slots
    of rows 21 and 20 go to rows 0 and 1, and rows 2 and 4 get new ones. *)
Lemma C4_witness :
  ∃ sn' st' resulting,
    computeRenderedRowOffsets (Sample.sessionOf [] [3; 20; 21] (Sample.measured 5 20))
      (Sample.state 5 100 false) (mkRowRange 5 5 0 4) false = (sn', st')
    ∧ arrays sn' !! rows st' = Some resulting
    ∧ ∀ rowIdx, 0 <= rowIdx < 5 → rowIdx ∈ Js.values resulting.
Proof.
  destruct (computeRenderedRowOffsets (Sample.sessionOf [] [3; 20; 21]
              (Sample.measured 5 20)) (Sample.state 5 100 false) (mkRowRange 5 5 0 4) false)
    as [sn' st'] eqn:Hrun.
  assert (firstBufferIdx (mkRowRange 5 5 0 4) < endBufferIdx (mkRowRange 5 5 0 4))
    as Hrange by (simpl; lia).
  destruct (C4_full_recompute_fills_rows _ _ _ _ _ Hrange Hrun)
    as (resulting & Harr & _ & _ & _ & Hall).
  exists sn', st', resulting. split; [reflexivity|]. split; [exact Harr|].
  apply Hall; simpl; [lia|lia| |].
  - repeat (apply NoDup_cons; split;
      [intros H; repeat (apply elem_of_cons in H as [[=]|H]); by apply elem_of_nil in H|]).
    apply NoDup_nil_2.
  - intros x Hx Hout. simpl in Hout. unfold BufferSet.distance. simpl.
    repeat (apply elem_of_cons in Hx as [->|Hx]); try lia. by apply elem_of_nil in Hx.
Defined.




(** What the second call needs.  A full recompute that evicted a row of its
    own buffer leaves it without a slot; the second call gives it one. *)
Example unslotted_row_is_slotted_by_the_second_call :
  ∃ sn1 s1 sn2 s2,
    computeRenderedRows (Sample.rough 2 40) (Sample.const 40) (Sample.const 60)
      (Oracle.updateRowHeight (λ _, 20)) (Sample.session [8; 5]) (Sample.state 5 100 false)
      (Sample.fromFirst 2 0 None) = Some (sn1, s1)
    ∧ computeRenderedRows (Sample.rough 2 40) (Sample.const 40) (Sample.const 60)
        (Oracle.updateRowHeight (λ _, 20)) sn1 s1 (Sample.fromFirst 2 0 None)
      = Some (sn2, s2)
    ∧ arrays sn1 !! rows s1 = Some [Some 3; None; Some 4; Some 1; Some 2]
    ∧ arrays sn2 !! rows s2 = Some [Some 3; Some 0; Some 4; Some 1; Some 2].
Proof.
  eexists _, _, _, _. split; [vm_compute; reflexivity|].
  split; [vm_compute; reflexivity|]. split; vm_compute; reflexivity.
Qed.

(** With no height to fill, the walk from the last row measures nothing and
    the overshoot is compared with the height the cache held before: once
    the corrected resolution has measured the row, the second call resolves
    another first row. *)
Example without_height_to_fill_the_first_row_moves :
  ∃ sn1 s1 sn2 s2,
    computeRenderedRows (Sample.rough 1 0) (Sample.const 0) (Sample.const 100)
      (Oracle.updateRowHeight (λ _, 20))
      (Sample.sessionOf [] [] (mkHeightCache {[0 := 0]} {[0 := 0]}))
      (Sample.state 2 100 true) (Sample.toLast 0) = Some (sn1, s1)
    ∧ computeRenderedRows (Sample.rough 1 0) (Sample.const 0) (Sample.const 100)
        (Oracle.updateRowHeight (λ _, 20)) sn1 s1 (Sample.toLast 0) = Some (sn2, s2)
    ∧ firstRowIndex s1 = 1 ∧ firstRowIndex s2 = 0.
Proof.
  eexists _, _, _, _. split; [vm_compute; reflexivity|].
  split; [vm_compute; reflexivity|]. split; reflexivity.
Qed.

(** An oracle that keeps [scrollContentHeight] in step measures and caches
    like the one that leaves it alone. *)
Lemma updateRowHeightAndContent_measures estimate rowHeightGetter hc st k :
  (Oracle.updateRowHeightAndContent estimate rowHeightGetter hc st k).2 = rowHeightGetter k
  ∧ cachedAt rowHeightGetter
      (Oracle.updateRowHeightAndContent estimate rowHeightGetter hc st k).1.1 k
  ∧ (∀ j, cachedAt rowHeightGetter hc j →
       cachedAt rowHeightGetter
         (Oracle.updateRowHeightAndContent estimate rowHeightGetter hc st k).1.1 j)
  ∧ (cachedAt rowHeightGetter hc k →
       Oracle.updateRowHeightAndContent estimate rowHeightGetter hc st k
       = (hc, scrollContentHeight st, rowHeightGetter k)).
Proof.
  unfold Oracle.updateRowHeightAndContent, cachedAt.
  destruct (decide _) as [Hstored|Hnew]; simpl.
  - done.
  - split; [done|]. split; [by rewrite !lookup_insert_eq|]. split; [|done].
    intros j [Hs Ho]. destruct (decide (j = k)) as [->|Hne].
    + by rewrite !lookup_insert_eq.
    + by rewrite !lookup_insert_ne.
Qed.

(** With that oracle the second call is another one.  Three rows of height
    20 counted for 10 each, in a body of height 40, anchored at row 2: the
    first call measures row 2, finds [maxScrollY = 0], resolves again from
    the bottom and measures the rows 1 and 0, which brings
    [scrollContentHeight] to 60; the second call finds [maxScrollY = 20] and
    keeps the anchor. *)
Example second_call_after_the_aggregate_changed :
  ∃ sn1 s1 sn2 s2,
    computeRenderedRows (Sample.rough 0 60) (Sample.const 60) (Sample.const 40)
      (Oracle.updateRowHeightAndContent 10 (λ _, 20)) (Sample.session [])
      (Sample.state 3 30 false) (Sample.fromFirst 2 0 None) = Some (sn1, s1)
    ∧ computeRenderedRows (Sample.rough 0 60) (Sample.const 60) (Sample.const 40)
        (Oracle.updateRowHeightAndContent 10 (λ _, 20)) sn1 s1 (Sample.fromFirst 2 0 None)
      = Some (sn2, s2)
    ∧ scrollContentHeight s1 = 60
    ∧ firstRowIndex s1 = 0 ∧ firstRowIndex s2 = 2
    ∧ scrollY s1 = Some 0 ∧ scrollY s2 = Some 20
    ∧ maxScrollY s1 = 0 ∧ maxScrollY s2 = 20.
Proof.
  eexists _, _, _, _. split; [vm_compute; reflexivity|].
  split; [vm_compute; reflexivity|]. repeat split.
Qed.

(** [calculateRenderedRowRange] assigns to the object it is given: called on
    the caller's own reference it would alter the caller's object, which is
    why [computeRenderedRows] hands it [newState]. *)
Example calculateRenderedRowRange_assigns_to_its_argument :
  ∃ h' rowRange properties',
    ByReference.calculateRenderedRowRange (Sample.rough 5 200) (Sample.const 200)
      (Oracle.updateRowHeight (λ _, 20))
      (mkHeap {[1%positive := Sample.state 100 2000 true]} (Sample.session []))
      1%positive (Sample.fromFirst 5 0 None) = Some (h', rowRange)
    ∧ objects h' !! 1%positive = Some properties'
    ∧ firstRowIndex (Sample.state 100 2000 true) = 0
    ∧ firstRowIndex properties' = 5.
Proof.
  eexists _, _, _. split; [vm_compute; reflexivity|].
  vm_compute. repeat split; reflexivity.
Qed.

(** * Further properties of the module *)

(** ** The offsets of the rows of the range *)

Lemma seqZ_snoc (m : Z) (n : nat) :
  seqZ m (Z.of_nat (S n)) = seqZ m (Z.of_nat n) ++ [m + Z.of_nat n].
Proof.
  replace (Z.of_nat (S n)) with (Z.of_nat n + 1) by lia.
  rewrite seqZ_app by lia. f_equal.
Qed.

Lemma offsetsSide_seq sh c ro first (n : nat) :
  (foldl (offsetsSide sh) (c, ro) (seqZ first (Z.of_nat n))).2 = offsetAfter sh ro first n
  ∧ ∀ i, (i < n)%nat →
      (foldl (offsetsSide sh) (c, ro) (seqZ first (Z.of_nat n))).1 !! (first + Z.of_nat i)
      = Some (offsetAfter sh ro first i).
Proof.
  induction n as [|n [IHr IHc]].
  - split; [done|]. intros i ?. lia.
  - rewrite seqZ_snoc, foldl_app.
    set (res := foldl (offsetsSide sh) (c, ro) (seqZ first (Z.of_nat n))) in *.
    cbn [foldl]. unfold offsetsSide. cbn [fst snd offsetAfter].
    rewrite IHr. split; [done|]. intros i Hi.
    destruct (decide (i = n)) as [->|Hne].
    + by rewrite lookup_insert_eq.
    + rewrite lookup_insert_ne by lia. apply IHc. lia.
Qed.

(** What the pass stores for a row of the range depends on the height cache
    and on the range only: not on the mode, the slots or the previous
    offsets. *)
Lemma offsets_lookup sn st r vo k :
  firstBufferIdx r <= k < endBufferIdx r →
  rowHeights (computeRenderedRowOffsets sn st r vo).2 !! k
  = Some (offsetAfter (storedHeights (heights sn))
            (Some (sumUntil (rowOffsets (heights sn)) (firstBufferIdx r)))
            (firstBufferIdx r) (Z.to_nat (k - firstBufferIdx r))).
Proof.
  intros Hk. unfold computeRenderedRowOffsets.
  destruct (Z.eqb_spec (endBufferIdx r - firstBufferIdx r) 0) as [|_]; [lia|].
  cbv zeta. rewrite loop_split.
  cbn [loopBufferSet bufferMapping rowOffsetsCache runningOffset rowHeights set_rows snd].
  set (os := foldl (offsetsSide _) _ _).
  assert (os.1 !! k
          = Some (offsetAfter (storedHeights (heights sn))
                    (Some (sumUntil (rowOffsets (heights sn)) (firstBufferIdx r)))
                    (firstBufferIdx r) (Z.to_nat (k - firstBufferIdx r)))) as Hos.
  { unfold os.
    replace (endBufferIdx r - firstBufferIdx r)
      with (Z.of_nat (Z.to_nat (endBufferIdx r - firstBufferIdx r))) by lia.
    destruct (offsetsSide_seq (storedHeights (heights sn)) ∅
                (Some (sumUntil (rowOffsets (heights sn)) (firstBufferIdx r)))
                (firstBufferIdx r) (Z.to_nat (endBufferIdx r - firstBufferIdx r)))
      as [_ Hc].
    specialize (Hc (Z.to_nat (k - firstBufferIdx r)) ltac:(lia)).
    by replace (firstBufferIdx r + Z.of_nat (Z.to_nat (k - firstBufferIdx r)))
      with k in Hc by lia. }
  destruct vo; [|done].
  rewrite carryOver_lookup, decide_False; [done|].
  intros [_ Hout]. rewrite <- Bool.not_true_iff_false, inRange_spec in Hout; lia.
Qed.

(** X1: in both modes the offsets of the rows of the range are stacked.
    The first row of the range gets [rowOffsets.sumUntil(firstBufferIdx)],
    and each next row the offset of the row before it plus the stored height
    of that row ([NaN] once a stored height is missing). *)
Theorem offsets_of_the_range_are_stacked sn st r computeWithinViewportOnly :
  firstBufferIdx r < endBufferIdx r →
  let state' := (computeRenderedRowOffsets sn st r computeWithinViewportOnly).2 in
  rowHeights state' !! firstBufferIdx r
  = Some (Some (sumUntil (rowOffsets (heights sn)) (firstBufferIdx r)))
  ∧ ∀ rowIdx,
      firstBufferIdx r <= rowIdx → rowIdx + 1 < endBufferIdx r →
      rowHeights state' !! (rowIdx + 1)
      = Some (Js.add (Js.get (rowHeights state') rowIdx)
                (storedHeights (heights sn) !! rowIdx)).
Proof.
  intros Hne. cbv zeta. split.
  - rewrite offsets_lookup by lia. by rewrite Z.sub_diag.
  - intros k Hlo Hhi. unfold Js.get. rewrite !offsets_lookup by lia.
    replace (Z.to_nat (k + 1 - firstBufferIdx r))
      with (S (Z.to_nat (k - firstBufferIdx r))) by lia.
    cbn [offsetAfter]. do 3 f_equal. lia.
Qed.

Lemma offsets_full_keys sn st r rowIdx :
  is_Some (rowHeights (computeRenderedRowOffsets sn st r false).2 !! rowIdx) →
  firstBufferIdx r <= rowIdx < endBufferIdx r.
Proof.
  unfold computeRenderedRowOffsets.
  destruct (Z.eqb_spec (endBufferIdx r - firstBufferIdx r) 0) as [Hz|_].
  - cbn. rewrite lookup_empty. by intros [? ?].
  - cbv zeta. rewrite loop_split.
    cbn [loopBufferSet bufferMapping rowOffsetsCache runningOffset rowHeights set_rows snd].
    intros Hsome.
    destruct (decide (rowIdx ∈ seqZ (firstBufferIdx r)
                               (endBufferIdx r - firstBufferIdx r))) as [Hin|Hout].
    + apply elem_of_seqZ in Hin. lia.
    + rewrite offsetsSide_other in Hsome by done. rewrite lookup_empty in Hsome.
      by destruct Hsome.
Qed.

(** X2: after a full recompute [rowHeights] has exactly the keys
    [[firstBufferIdx, endBufferIdx)], whatever the range (none when it is
    empty or reversed). *)
Theorem full_recompute_keys_are_the_range sn st r rowIdx :
  is_Some (rowHeights (computeRenderedRowOffsets sn st r false).2 !! rowIdx)
  ↔ firstBufferIdx r <= rowIdx < endBufferIdx r.
Proof.
  split.
  - apply offsets_full_keys.
  - intros Hk. rewrite offsets_lookup by done. eauto.
Qed.

Lemma sumUntil_succ (ro : gmap Z Z) (k : Z) :
  0 <= k → sumUntil ro (k + 1) = sumUntil ro k + default 0 (ro !! k).
Proof.
  intros Hk. unfold sumUntil.
  rewrite seqZ_app by lia. rewrite foldr_app. simpl.
  replace (Z.of_nat 0 + (0 + k)) with k by lia.
  generalize (seqZ 0 k). intros l.
  induction l as [|x l IH]; simpl; lia.
Qed.

(** X3: when the two height records agree on the rows of the range, the
    offset computed incrementally for a row is the prefix sum
    [rowOffsets.sumUntil(rowIdx)]. *)
Theorem incremental_offsets_are_the_prefix_sums sn st r computeWithinViewportOnly :
  0 <= firstBufferIdx r →
  (∀ rowIdx, firstBufferIdx r <= rowIdx < endBufferIdx r →
     ∃ height, storedHeights (heights sn) !! rowIdx = Some height
               ∧ rowOffsets (heights sn) !! rowIdx = Some height) →
  ∀ rowIdx, firstBufferIdx r <= rowIdx < endBufferIdx r →
    rowHeights (computeRenderedRowOffsets sn st r computeWithinViewportOnly).2 !! rowIdx
    = Some (Some (sumUntil (rowOffsets (heights sn)) rowIdx)).
Proof.
  intros Hfb Hagree k Hk. rewrite offsets_lookup by done. f_equal.
  assert (∀ n : nat, firstBufferIdx r + Z.of_nat n < endBufferIdx r + 1 →
            offsetAfter (storedHeights (heights sn))
              (Some (sumUntil (rowOffsets (heights sn)) (firstBufferIdx r)))
              (firstBufferIdx r) n
            = Some (sumUntil (rowOffsets (heights sn)) (firstBufferIdx r + Z.of_nat n)))
    as Hn.
  { induction n as [|n IH]; intros Hlt.
    - simpl. by rewrite Z.add_0_r.
    - cbn [offsetAfter]. rewrite IH by lia.
      destruct (Hagree (firstBufferIdx r + Z.of_nat n) ltac:(lia)) as (h & -> & Hro).
      simpl. f_equal.
      replace (firstBufferIdx r + Z.of_nat (S n))
        with (firstBufferIdx r + Z.of_nat n + 1) by lia.
      rewrite sumUntil_succ by lia. by rewrite Hro. }
  rewrite Hn by lia. do 2 f_equal. lia.
Qed.

(** ** The slots of the rows of the viewport *)

(** A turn of the loop leaves a row of the viewport in its slot, and writes
    the row it walks into the array. *)
Lemma slot_turn_keeps vo fv ev n acc x k q :
  fv <= k < ev →
  BufferSet.getValuePosition acc.1 k = Some q →
  BufferSet.getValuePosition (slotsTurn vo fv ev n acc x).1 k = Some q
  ∧ (acc.2 !! q = Some (Some k) ∨ x = k →
     (slotsTurn vo fv ev n acc x).2 !! q = Some (Some k)).
Proof.
  intros Hview Hq. unfold slotsTurn.
  destruct (vo && _) eqn:Hskip.
  { split; [done|]. intros [?| ->]; [done|].
    apply andb_true_iff in Hskip as [_ Hskip]. lia. }
  destruct (addRowToBuffer x acc.1 fv ev n) as [b' p] eqn:Hadd. simpl.
  apply addRowToBuffer_cases in Hadd.
  destruct (decide (x = k)) as [->|Hne].
  - assert (p = q ∧ b' = acc.1) as [-> ->].
    { destruct Hadd as [Hpos -> | victim Hnew _ _ _ _ _ | Hnew _ _].
      - split; congruence.
      - exfalso. apply Hnew. apply getValuePosition_Some in Hq as [Hb _].
        by eapply list_elem_of_lookup_2.
      - exfalso. apply Hnew. apply getValuePosition_Some in Hq as [Hb _].
        by eapply list_elem_of_lookup_2. }
    split; [done|]. intros _. apply array_set_lookup_eq.
  - pose proof Hq as [Hbq _]%getValuePosition_Some.
    assert (q ≠ p) as Hqp.
    { intros ->.
      destruct Hadd as [[Hpos _]%getValuePosition_Some _
                       | victim _ _ Hvictim Hout _ _ | _ -> _].
      - congruence.
      - assert (victim = k) as -> by congruence.
        unfold BufferSet.outside in Hout. lia.
      - apply lookup_lt_Some in Hbq. lia. }
    split; [eapply slot_other; eauto|].
    intros [Harr|?]; [|done]. by apply array_set_lookup_ne.
Qed.

Lemma slot_turn_gives vo fv ev n acc x :
  fv <= x < ev →
  ∃ q, BufferSet.getValuePosition (slotsTurn vo fv ev n acc x).1 x = Some q
       ∧ (slotsTurn vo fv ev n acc x).2 !! q = Some (Some x).
Proof.
  intros Hview. unfold slotsTurn.
  destruct (vo && _) eqn:Hskip.
  { apply andb_true_iff in Hskip as [_ Hskip]. lia. }
  destruct (addRowToBuffer x acc.1 fv ev n) as [b' p] eqn:Hadd. simpl.
  apply addRowToBuffer_cases in Hadd. exists p.
  split; [by eapply slot_new|]. apply array_set_lookup_eq.
Qed.

Lemma slots_loop_keeps vo fv ev n l acc k q :
  fv <= k < ev →
  BufferSet.getValuePosition acc.1 k = Some q →
  BufferSet.getValuePosition (foldl (slotsTurn vo fv ev n) acc l).1 k = Some q
  ∧ (acc.2 !! q = Some (Some k) ∨ k ∈ l →
     (foldl (slotsTurn vo fv ev n) acc l).2 !! q = Some (Some k)).
Proof.
  intros Hview. revert acc. induction l as [|x l IH]; intros acc Hq; simpl.
  - split; [done|]. intros [?|?%elem_of_nil]; done.
  - destruct (slot_turn_keeps vo fv ev n acc x k q Hview Hq) as [Hq' Harr'].
    destruct (IH _ Hq') as [Hq'' Harr'']. split; [done|].
    intros [Harr|[->|Hin]%elem_of_cons].
    + apply Harr''. left. apply Harr'. by left.
    + apply Harr''. left. apply Harr'. by right.
    + apply Harr''. by right.
Qed.

Lemma slots_loop_gives vo fv ev n l acc k :
  fv <= k < ev → k ∈ l →
  ∃ q, BufferSet.getValuePosition (foldl (slotsTurn vo fv ev n) acc l).1 k = Some q
       ∧ (foldl (slotsTurn vo fv ev n) acc l).2 !! q = Some (Some k).
Proof.
  intros Hview. revert acc. induction l as [|x l IH]; intros acc Hk; simpl.
  - by apply elem_of_nil in Hk.
  - destruct (decide (k = x)) as [->|Hne].
    + destruct (slot_turn_gives vo fv ev n acc x Hview) as (q & Hq & Harr).
      exists q. destruct (slots_loop_keeps vo fv ev n l _ x q Hview Hq) as [? Hkeep].
      split; [done|]. apply Hkeep. by left.
    + apply IH. by apply elem_of_cons in Hk as [?|?].
Qed.

(** The slots and the array a pass over a non-empty range leaves. *)
Lemma offsets_slots sn st r vo :
  endBufferIdx r - firstBufferIdx r ≠ 0 →
  let slots :=
    foldl (slotsTurn vo (firstViewportIdx r) (endViewportIdx r)
             (endBufferIdx r - firstBufferIdx r))
      (bufferSet sn, if vo then default [] (arrays sn !! rows st) else [])
      (seqZ (firstBufferIdx r) (endBufferIdx r - firstBufferIdx r)) in
  bufferSet (computeRenderedRowOffsets sn st r vo).1 = slots.1
  ∧ arrays (computeRenderedRowOffsets sn st r vo).1
      !! rows (computeRenderedRowOffsets sn st r vo).2 = Some slots.2.
Proof.
  intros Hne. cbv zeta. unfold computeRenderedRowOffsets.
  destruct (Z.eqb_spec (endBufferIdx r - firstBufferIdx r) 0) as [|_]; [done|].
  cbv zeta. rewrite loop_split.
  cbn [loopBufferSet bufferMapping rowOffsetsCache runningOffset rows set_rows
       arrays bufferSet fst snd].
  by rewrite lookup_insert_eq.
Qed.

(** X4: in both modes every row of the viewport that the pass walks ends
    with a slot: the array returned in [rows] holds it at the position the
    allocator binds to it. *)
Theorem every_viewport_row_gets_a_slot sn st r computeWithinViewportOnly rowIdx :
  firstBufferIdx r <= rowIdx < endBufferIdx r →
  firstViewportIdx r <= rowIdx < endViewportIdx r →
  let result := computeRenderedRowOffsets sn st r computeWithinViewportOnly in
  ∃ resulting rowPosition,
    arrays result.1 !! rows result.2 = Some resulting
    ∧ resulting !! rowPosition = Some (Some rowIdx)
    ∧ BufferSet.getValuePosition (bufferSet result.1) rowIdx = Some rowPosition.
Proof.
  intros Hrange Hview. cbv zeta.
  destruct (offsets_slots sn st r computeWithinViewportOnly ltac:(lia)) as [-> ->].
  destruct (slots_loop_gives computeWithinViewportOnly (firstViewportIdx r)
              (endViewportIdx r) (endBufferIdx r - firstBufferIdx r)
              (seqZ (firstBufferIdx r) (endBufferIdx r - firstBufferIdx r))
              (bufferSet sn,
               if computeWithinViewportOnly then default [] (arrays sn !! rows st) else [])
              rowIdx Hview) as (q & Hq & Harr).
  { apply elem_of_seqZ. lia. }
  eauto.
Qed.

(** X5: a row of the viewport that already had a slot keeps it: after the
    pass the allocator binds it to the same position, and the array holds it
    there. *)
Theorem a_viewport_row_keeps_its_slot sn st r computeWithinViewportOnly rowIdx rowPosition :
  firstBufferIdx r <= rowIdx < endBufferIdx r →
  firstViewportIdx r <= rowIdx < endViewportIdx r →
  BufferSet.getValuePosition (bufferSet sn) rowIdx = Some rowPosition →
  let result := computeRenderedRowOffsets sn st r computeWithinViewportOnly in
  BufferSet.getValuePosition (bufferSet result.1) rowIdx = Some rowPosition
  ∧ ∃ resulting,
      arrays result.1 !! rows result.2 = Some resulting
      ∧ resulting !! rowPosition = Some (Some rowIdx).
Proof.
  intros Hrange Hview Hpos. cbv zeta.
  destruct (offsets_slots sn st r computeWithinViewportOnly ltac:(lia)) as [-> ->].
  destruct (slots_loop_keeps computeWithinViewportOnly (firstViewportIdx r)
              (endViewportIdx r) (endBufferIdx r - firstBufferIdx r)
              (seqZ (firstBufferIdx r) (endBufferIdx r - firstBufferIdx r))
              (bufferSet sn,
               if computeWithinViewportOnly then default [] (arrays sn !! rows st) else [])
              rowIdx rowPosition Hview Hpos) as [Hq Harr].
  split; [done|]. eexists. split; [done|]. apply Harr. right. apply elem_of_seqZ. lia.
Qed.

(** X6: in viewport-only mode a row gets into the array only if it is a
    row of the viewport inside the range: every other row the resulting
    array holds was in [state.rows] before. *)
Theorem while_scrolling_only_viewport_rows_get_slots sn st r rowIdx :
  let result := computeRenderedRowOffsets sn st r true in
  rowIdx ∈ Js.values (default [] (arrays result.1 !! rows result.2)) →
  rowIdx ∈ Js.values (default [] (arrays sn !! rows st))
  ∨ (firstBufferIdx r <= rowIdx < endBufferIdx r
     ∧ firstViewportIdx r <= rowIdx < endViewportIdx r).
Proof.
  cbv zeta. destruct (Z.eq_dec (endBufferIdx r - firstBufferIdx r) 0) as [Hz|Hne].
  - unfold computeRenderedRowOffsets. rewrite Hz. cbn.
    rewrite lookup_insert_eq. cbn. by intros ?%elem_of_nil.
  - destruct (offsets_slots sn st r true Hne) as [_ ->]. cbn [default].
    intros [Hold|[Hin Hview]]%slots_values; [by left|].
    right. apply elem_of_seqZ in Hin. split; [lia|by apply Hview].
Qed.

(** ** The allocator and the array stay in step *)

Lemma agree_turn vo fv ev n acc x :
  NoDup acc.1 → slotsAgree acc.1 acc.2 →
  NoDup (slotsTurn vo fv ev n acc x).1
  ∧ slotsAgree (slotsTurn vo fv ev n acc x).1 (slotsTurn vo fv ev n acc x).2.
Proof.
  intros Hnd Hagree. unfold slotsTurn.
  destruct (vo && _); [done|].
  destruct (addRowToBuffer x acc.1 fv ev n) as [b' p] eqn:Hadd. simpl.
  apply addRowToBuffer_cases in Hadd.
  destruct Hadd as [[Hpos _]%getValuePosition_Some -> | victim Hnew _ Hvictim _ _ ->
                   | Hnew -> ->].
  - split; [done|]. intros q k Hq. destruct (decide (q = p)) as [->|Hqp].
    + rewrite array_set_lookup_eq in Hq. congruence.
    + apply array_set_lookup_ne in Hq; [|done]. by apply Hagree.
  - split; [by apply NoDup_insert_fresh|].
    intros q k Hq. destruct (decide (q = p)) as [->|Hqp].
    + rewrite array_set_lookup_eq in Hq. injection Hq as <-.
      apply list_lookup_insert_eq. by eapply lookup_lt_Some.
    + apply array_set_lookup_ne in Hq; [|done].
      rewrite list_lookup_insert_ne by done. by apply Hagree.
  - split.
    + apply NoDup_app. split; [done|]. split; [|apply NoDup_singleton].
      intros y Hy ->%list_elem_of_singleton. done.
    + intros q k Hq. destruct (decide (q = length acc.1)) as [->|Hqp].
      * rewrite array_set_lookup_eq in Hq. injection Hq as <-.
        rewrite lookup_app_r by lia. by rewrite Nat.sub_diag.
      * apply array_set_lookup_ne in Hq; [|done].
        apply lookup_app_l_Some. by apply Hagree.
Qed.

Lemma agree_loop vo fv ev n l acc :
  NoDup acc.1 → slotsAgree acc.1 acc.2 →
  NoDup (foldl (slotsTurn vo fv ev n) acc l).1
  ∧ slotsAgree (foldl (slotsTurn vo fv ev n) acc l).1
      (foldl (slotsTurn vo fv ev n) acc l).2.
Proof.
  revert acc. induction l as [|x l IH]; intros acc Hnd Hagree; simpl; [done|].
  destruct (agree_turn vo fv ev n acc x Hnd Hagree) as [? ?]. by apply IH.
Qed.

Lemma offsets_agree sn st r vo :
  NoDup (bufferSet sn) →
  (vo = true → slotsAgree (bufferSet sn) (default [] (arrays sn !! rows st))) →
  NoDup (bufferSet (computeRenderedRowOffsets sn st r vo).1)
  ∧ slotsAgree (bufferSet (computeRenderedRowOffsets sn st r vo).1)
      (default [] (arrays (computeRenderedRowOffsets sn st r vo).1
                     !! rows (computeRenderedRowOffsets sn st r vo).2)).
Proof.
  intros Hnd Hagree.
  destruct (Z.eq_dec (endBufferIdx r - firstBufferIdx r) 0) as [Hz|Hne].
  - unfold computeRenderedRowOffsets. rewrite Hz. cbn.
    rewrite lookup_insert_eq. cbn. split; [done|]. by intros q k ?.
  - destruct (offsets_slots sn st r vo Hne) as [-> ->]. cbn [default].
    apply agree_loop; simpl; [done|]. destruct vo; [by apply Hagree|]. by intros q k ?.
Qed.

(** X7: with an allocator that binds each row once and (in viewport-only
    mode, where the previous array is reused) agrees with the previous
    array, computing the offsets leaves both in step again, so the resulting
    [rows] array holds no row index twice. *)
Theorem no_row_is_held_by_two_slots sn st r computeWithinViewportOnly :
  NoDup (bufferSet sn) →
  (computeWithinViewportOnly = true →
     slotsAgree (bufferSet sn) (default [] (arrays sn !! rows st))) →
  let result := computeRenderedRowOffsets sn st r computeWithinViewportOnly in
  let resulting := default [] (arrays result.1 !! rows result.2) in
  NoDup (bufferSet result.1)
  ∧ slotsAgree (bufferSet result.1) resulting
  ∧ ∀ rowIdx p q,
      resulting !! p = Some (Some rowIdx) → resulting !! q = Some (Some rowIdx) → p = q.
Proof.
  intros Hnd Hagree. cbv zeta.
  destruct (offsets_agree sn st r computeWithinViewportOnly Hnd Hagree) as [Hnd' Hagree'].
  split; [done|]. split; [done|].
  intros k p q Hp%Hagree' Hq%Hagree'. by eapply NoDup_lookup.
Qed.

(** The allocator grows by one slot at most, and only while it holds fewer
    than [maxBufferSize] rows or nothing but rows of the range. *)
Lemma addRowToBuffer_size rowIdx b startRange endRange n :
  (addRowToBuffer rowIdx b startRange endRange n).1 = b
  ∨ length (addRowToBuffer rowIdx b startRange endRange n).1 = length b
  ∨ (length (addRowToBuffer rowIdx b startRange endRange n).1 = S (length b)
     ∧ (rowIdx ∉ b)
     ∧ (BufferSet.getSize b < n
        ∨ ∀ x, x ∈ b → BufferSet.outside startRange (endRange - 1) x = false)).
Proof.
  unfold addRowToBuffer.
  destruct (BufferSet.getValuePosition b rowIdx) as [p0|] eqn:Hpos; [by left|].
  apply getValuePosition_None in Hpos. right.
  destruct (Z.geb_spec (BufferSet.getSize b) n) as [Hfull|Hroom].
  - unfold BufferSet.replaceFurthestValuePosition.
    destruct (BufferSet.furthest _ _ b 0 None) as [[q v]|] eqn:Hfar.
    + left. simpl. apply length_insert.
    + right. simpl. rewrite length_app. simpl. split; [lia|]. split; [done|].
      right. by apply furthest_None in Hfar as [_ ?].
  - right. simpl. rewrite length_app. simpl. split; [lia|]. split; [done|]. by left.
Qed.

Lemma size_loop vo r l acc :
  firstBufferIdx r <= firstViewportIdx r → endViewportIdx r <= endBufferIdx r →
  (∀ k, k ∈ l → firstBufferIdx r <= k < endBufferIdx r) →
  NoDup acc.1 →
  BufferSet.getSize
    (foldl (slotsTurn vo (firstViewportIdx r) (endViewportIdx r)
              (endBufferIdx r - firstBufferIdx r)) acc l).1
  <= Z.max (BufferSet.getSize acc.1) (endBufferIdx r - firstBufferIdx r).
Proof.
  intros Hlo Hhi. revert acc. induction l as [|x l IH]; intros acc Hl Hnd; simpl; [lia|].
  etrans.
  { apply IH.
    - intros k Hk. apply Hl. by right.
    - unfold slotsTurn. destruct (vo && _); [done|].
      destruct (addRowToBuffer x acc.1 _ _ _) as [b' p] eqn:Hadd. simpl.
      apply addRowToBuffer_cases in Hadd.
      destruct Hadd as [_ -> | victim Hnew _ _ _ _ -> | Hnew _ ->]; [done| |].
      + by apply NoDup_insert_fresh.
      + apply NoDup_app. split; [done|]. split; [|apply NoDup_singleton].
        intros y Hy ->%list_elem_of_singleton. done. }
  assert (BufferSet.getSize
            (slotsTurn vo (firstViewportIdx r) (endViewportIdx r)
               (endBufferIdx r - firstBufferIdx r) acc x).1
          <= Z.max (BufferSet.getSize acc.1) (endBufferIdx r - firstBufferIdx r)); [|lia].
  unfold slotsTurn. destruct (vo && _); [simpl; lia|].
  pose proof (addRowToBuffer_size x acc.1 (firstViewportIdx r) (endViewportIdx r)
                (endBufferIdx r - firstBufferIdx r)) as Hsize.
  destruct (addRowToBuffer x acc.1 _ _ _) as [b' p]. simpl in Hsize |- *.
  unfold BufferSet.getSize.
  destruct Hsize as [->|[Hlen|(Hlen & Hnew & Hwhy)]]; [lia|lia|].
  assert (BufferSet.getSize acc.1 < endBufferIdx r - firstBufferIdx r) as Hroom.
  { destruct Hwhy as [?|Hinside]; [done|].
    apply (allocator_has_room acc.1 (firstBufferIdx r) (endBufferIdx r) x); try done.
    - apply Hl. by left.
    - intros y Hy. specialize (Hinside y Hy). unfold BufferSet.outside in Hinside. lia. }
  unfold BufferSet.getSize in Hroom. lia.
Qed.

(** X8: the pool of slots is bounded.  With an allocator that binds each
    row once and a viewport inside the range, the pass leaves at most as
    many slots as there were before or as the range has rows, whichever is
    larger. *)
Theorem the_pool_of_slots_is_bounded sn st r computeWithinViewportOnly :
  NoDup (bufferSet sn) →
  firstBufferIdx r <= firstViewportIdx r → endViewportIdx r <= endBufferIdx r →
  BufferSet.getSize (bufferSet (computeRenderedRowOffsets sn st r computeWithinViewportOnly).1)
  <= Z.max (BufferSet.getSize (bufferSet sn)) (endBufferIdx r - firstBufferIdx r).
Proof.
  intros Hnd Hlo Hhi.
  destruct (Z.eq_dec (endBufferIdx r - firstBufferIdx r) 0) as [Hz|Hne].
  - unfold computeRenderedRowOffsets. rewrite Hz. cbn. lia.
  - destruct (offsets_slots sn st r computeWithinViewportOnly Hne) as [-> _].
    etrans; [apply size_loop; try done|simpl; lia].
    intros k Hk%elem_of_seqZ. lia.
Qed.

(** ** [addRowToBuffer] *)

(** X9: [addRowToBuffer] returns the position the allocator then binds to
    the row, and asking again for the same row changes nothing and returns
    the same position. *)
Theorem addRowToBuffer_binds_the_row rowIdx bufferSet startRange endRange maxBufferSize
    startRange' endRange' maxBufferSize' :
  let result := addRowToBuffer rowIdx bufferSet startRange endRange maxBufferSize in
  BufferSet.getValuePosition result.1 rowIdx = Some result.2
  ∧ addRowToBuffer rowIdx result.1 startRange' endRange' maxBufferSize' = result.
Proof.
  cbv zeta.
  destruct (addRowToBuffer rowIdx bufferSet startRange endRange maxBufferSize)
    as [b' p] eqn:Hadd.
  apply addRowToBuffer_cases, slot_new in Hadd. simpl. split; [done|].
  unfold addRowToBuffer. by rewrite Hadd.
Qed.

(** X10: [addRowToBuffer] never moves a row of [[startRange, endRange)]:
    whatever it evicts or allocates, such a row keeps its position. *)
Theorem addRowToBuffer_spares_the_range rowIdx bufferSet startRange endRange maxBufferSize
    other position :
  startRange <= other < endRange →
  BufferSet.getValuePosition bufferSet other = Some position →
  BufferSet.getValuePosition
    (addRowToBuffer rowIdx bufferSet startRange endRange maxBufferSize).1 other
  = Some position.
Proof.
  intros Hin Hpos.
  pose proof (slot_turn_keeps false startRange endRange maxBufferSize (bufferSet, [])
                rowIdx other position Hin Hpos) as [Hkeep _].
  unfold slotsTurn in Hkeep. simpl in Hkeep.
  by destruct (addRowToBuffer rowIdx bufferSet startRange endRange maxBufferSize).
Qed.

(** ** The resolution of the anchor *)

Lemma heightOfRows_nil height first : heightOfRows height first first = 0.
Proof. unfold heightOfRows. by rewrite Z.sub_diag. Qed.

Lemma heightOfRows_first height first last :
  first < last →
  heightOfRows height first last = height first + heightOfRows height (first + 1) last.
Proof.
  intros Hlt. unfold heightOfRows. rewrite seqZ_cons by lia. simpl.
  do 2 f_equal. unfold Z.succ, Z.pred. f_equal. lia.
Qed.

Lemma heightOfRows_last height first last :
  first <= last →
  heightOfRows height first (last + 1) = heightOfRows height first last + height last.
Proof.
  intros Hle. unfold heightOfRows.
  replace (last + 1 - first) with (last - first + 1) by lia.
  rewrite seqZ_app by lia. rewrite foldr_app. simpl.
  replace (first + (last - first)) with last by lia.
  replace (Z.of_nat 0 + last) with last by lia.
  generalize (seqZ first (last - first)). intros l.
  induction l as [|x l IH]; simpl; lia.
Qed.

Section Resolution.

Variable roughHeightsSelector : State → RoughHeights.
Variable scrollbarsVisibleSelector : State → Z.
Variable tableHeightsSelector : State → Z.
Variable updateRowHeight : HeightCache → State → Z → HeightCache * Z * Z.

Local Abbreviation calc :=
  (calculateRenderedRowRange roughHeightsSelector scrollbarsVisibleSelector updateRowHeight).
Local Abbreviation run :=
  (computeRenderedRows roughHeightsSelector scrollbarsVisibleSelector
     tableHeightsSelector updateRowHeight).

(** X11: an anchor by first row is taken as it is.  Without [lastIndex]
    and with [firstIndex] below [rowsCount], the first row of the viewport is
    [firstIndex] and [firstRowOffset] is the [firstOffset] of the anchor: no
    bound on the offset is checked. *)
Theorem anchor_by_first_row_is_kept hc s a firstIndex :
  rowsCount s ≠ 0 →
  Anchor.firstIndex a = Some firstIndex → firstIndex < rowsCount s →
  Anchor.lastIndex a = None →
  ∃ hc' s' r,
    calculateRenderedRowRange roughHeightsSelector scrollbarsVisibleSelector
      updateRowHeight hc s a = Some (hc', s', r)
    ∧ firstViewportIdx r = firstIndex
    ∧ firstIndex < endViewportIdx r
    ∧ firstRowIndex s' = firstIndex
    ∧ firstRowOffset s' = Some (Anchor.firstOffset a).
Proof.
  intros Hnz Hfi Hlt Hli.
  destruct (calc_total roughHeightsSelector scrollbarsVisibleSelector updateRowHeight
              hc s a) as [[[hc' s'] r] H]; [left; by rewrite Hfi|].
  exists hc', s', r. split; [done|].
  destruct (calc_inv _ _ _ _ _ _ _ _ _ H Hnz)
    as (step & startIdx & tot0 & hcw & sw & endIdx & tot & hc2 & s2 & s3
        & Hstart & Hw & _ & _ & _ & Hev & _ & Hs1 & Hfv).
  rewrite Hfi, Hli in Hstart, Hfv. cbn [Js.geb orb] in Hstart, Hfv.
  destruct (Z.geb_spec firstIndex (rowsCount s)) as [|_]; [lia|].
  injection Hstart as <- <- <-.
  apply walkViewport_endIdx in Hw; [|by left].
  assert (firstIndex <= endIdx) as Hle by (destruct Hw as [->|(_ & ? & _)]; lia).
  injection Hfv as Hfv Hoff.
  rewrite Hs1. cbn [firstRowIndex firstRowOffset set_firstRow].
  rewrite Hoff, Hfv, Hev. split_and!; try done; lia.
Qed.

(** X12: an anchor past the end of the table is resolved as the anchor
    [{firstOffset: 0, lastIndex: rowsCount - 1}] is: the viewport ends with
    the last row of the table. *)
Theorem anchor_past_the_end_is_the_bottom_anchor hc s a :
  rowsCount s ≠ 0 →
  (∃ i, Anchor.firstIndex a = Some i ∧ rowsCount s <= i)
  ∨ (∃ j, Anchor.lastIndex a = Some j ∧ rowsCount s <= j) →
  calculateRenderedRowRange roughHeightsSelector scrollbarsVisibleSelector
    updateRowHeight hc s a
  = calculateRenderedRowRange roughHeightsSelector scrollbarsVisibleSelector
      updateRowHeight hc s (bottomAnchor (rowsCount s))
  ∧ ∃ hc' s' r,
      calculateRenderedRowRange roughHeightsSelector scrollbarsVisibleSelector
        updateRowHeight hc s a = Some (hc', s', r)
      ∧ endViewportIdx r = rowsCount s.
Proof.
  intros Hnz Hpast.
  assert (Js.geb (Anchor.firstIndex a) (Some (rowsCount s))
          || Js.geb (Anchor.lastIndex a) (Some (rowsCount s)) = true) as Hclamp.
  { apply orb_true_iff.
    destruct Hpast as [(i & -> & Hi)|(j & -> & Hj)]; [left|right]; simpl; lia. }
  split.
  - unfold calculateRenderedRowRange.
    destruct (Z.eqb_spec (rowsCount s) 0) as [|_]; [done|].
    cbv zeta. rewrite Hclamp. cbn [bottomAnchor Anchor.firstIndex Anchor.lastIndex Js.geb orb].
    destruct (Z.geb_spec (rowsCount s - 1) (rowsCount s)) as [|_]; [lia|]. done.
  - destruct (calc_total roughHeightsSelector scrollbarsVisibleSelector updateRowHeight
                hc s a) as [[[hc' s'] r] H].
    { destruct Hpast as [(i & -> & _)|(j & -> & _)]; eauto. }
    exists hc', s', r. split; [done|].
    destruct (calc_inv _ _ _ _ _ _ _ _ _ H Hnz)
      as (step & startIdx & tot0 & hcw & sw & endIdx & tot & hc2 & s2 & s3
          & Hstart & Hw & _ & _ & _ & Hev & _).
    rewrite Hclamp in Hstart. injection Hstart as <- <- <-.
    apply walkViewport_endIdx in Hw; [|by right].
    rewrite Hev. destruct Hw as [->|(_ & _ & Hle)]; [lia|]. specialize (Hle eq_refl). lia.
Qed.

(** X13: an anchor by last row inside the table puts that row last in the
    viewport, whatever [firstIndex] (below [rowsCount]) and [firstOffset]
    say. *)
Theorem anchor_by_last_row_ends_the_viewport hc s a lastIndex :
  rowsCount s ≠ 0 →
  Anchor.lastIndex a = Some lastIndex → lastIndex < rowsCount s →
  (∀ i, Anchor.firstIndex a = Some i → i < rowsCount s) →
  ∃ hc' s' r,
    calculateRenderedRowRange roughHeightsSelector scrollbarsVisibleSelector
      updateRowHeight hc s a = Some (hc', s', r)
    ∧ endViewportIdx r = lastIndex + 1
    ∧ firstViewportIdx r <= lastIndex + 1
    ∧ calculateRenderedRowRange roughHeightsSelector scrollbarsVisibleSelector
        updateRowHeight hc s (Anchor.mk None 0 (Some lastIndex) None)
      = Some (hc', s', r).
Proof.
  intros Hnz Hli Hlt Hfi.
  assert (Js.geb (Anchor.firstIndex a) (Some (rowsCount s))
          || Js.geb (Anchor.lastIndex a) (Some (rowsCount s)) = false) as Hclamp.
  { apply orb_false_iff. rewrite Hli. split; [|simpl; lia].
    destruct (Anchor.firstIndex a) as [i|]; [|done]. specialize (Hfi i eq_refl).
    simpl. lia. }
  destruct (calc_total roughHeightsSelector scrollbarsVisibleSelector updateRowHeight
              hc s a) as [[[hc' s'] r] H]; [right; by rewrite Hli|].
  exists hc', s', r. split; [done|].
  destruct (calc_inv _ _ _ _ _ _ _ _ _ H Hnz)
    as (step & startIdx & tot0 & hcw & sw & endIdx & tot & hc2 & s2 & s3
        & Hstart & Hw & _ & _ & _ & Hev & _ & _ & Hfv).
  rewrite Hclamp, Hli in Hstart, Hfv. injection Hstart as <- <- <-.
  apply walkViewport_endIdx in Hw; [|by right].
  assert (endIdx <= lastIndex) as Hle.
  { destruct Hw as [->|(_ & _ & Hle)]; [lia|]. by apply Hle. }
  split; [lia|]. split.
  - cbv zeta in Hfv.
    destruct (Js.geb (Some _) (storedHeights hc' !! _)); injection Hfv as -> _; lia.
  - rewrite <- H. unfold calculateRenderedRowRange.
    destruct (Z.eqb_spec (rowsCount s) 0) as [|_]; [done|].
    cbv zeta. rewrite Hclamp, Hli.
    cbn [Anchor.firstIndex Anchor.lastIndex Js.geb orb].
    destruct (Z.geb_spec lastIndex (rowsCount s)) as [|_]; [lia|]. done.
Qed.

(** X23: each buffer holds at most [bufferRowCount] rows: the trailing one
    exactly that many unless the table ends first, the leading one that many
    unless row 0 comes first, and one more when the backward path moved
    [firstViewportIdx] forward. *)
Theorem buffers_hold_bufferRowCount_rows hc s a :
  0 < rowsCount s →
  is_Some (Anchor.firstIndex a) ∨ is_Some (Anchor.lastIndex a) →
  (∀ i, Anchor.firstIndex a = Some i → 0 <= i) →
  (∀ j, Anchor.lastIndex a = Some j → 0 <= j) →
  0 <= bufferRowCount (roughHeightsSelector s) →
  ∃ hc' s' r,
    calculateRenderedRowRange roughHeightsSelector scrollbarsVisibleSelector
      updateRowHeight hc s a = Some (hc', s', r)
    ∧ endBufferIdx r - endViewportIdx r <= bufferRowCount (roughHeightsSelector s)
    ∧ (endBufferIdx r = endViewportIdx r + bufferRowCount (roughHeightsSelector s)
       ∨ endBufferIdx r = rowsCount s)
    ∧ firstViewportIdx r - firstBufferIdx r <= bufferRowCount (roughHeightsSelector s) + 1
    ∧ (firstBufferIdx r = 0
       ∨ bufferRowCount (roughHeightsSelector s) <= firstViewportIdx r - firstBufferIdx r)
    ∧ endBufferIdx r - firstBufferIdx r
      <= endViewportIdx r - firstViewportIdx r
         + 2 * bufferRowCount (roughHeightsSelector s) + 1.
Proof.
  intros Hrc Ha Hfi Hli Hbuf.
  destruct (calc_total roughHeightsSelector scrollbarsVisibleSelector updateRowHeight
              hc s a Ha) as [[[hc' s'] r] H].
  exists hc', s', r. split; [done|].
  destruct (calc_bounds _ _ _ _ _ _ _ _ _ H Hrc Hfi Hli)
    as (fv0 & Hfv0 & Hev & Hfb & Heb & Hfv).
  lia.
Qed.

(** *** The rows of the range are measured *)

Section Measured.

(** What a call of the oracle establishes for its row, and keeps for the
    others. *)
Variable measured : HeightCache → Z → Prop.
Hypothesis oracle_measures :
  ∀ hc st rowIdx, measured (updateRowHeight hc st rowIdx).1.1 rowIdx.
Hypothesis oracle_keeps :
  ∀ hc st rowIdx other, measured hc other → measured (updateRowHeight hc st rowIdx).1.1 other.

Lemma walk_keeps fuel rc M step hc st idx e tot hc' st' e' tot' :
  walkViewport updateRowHeight fuel rc M step hc st idx e tot = Some (hc', st', e', tot') →
  ∀ k, measured hc k → measured hc' k.
Proof.
  revert hc st idx e tot. induction fuel as [|fuel IH]; intros hc st idx e tot; simpl.
  - case_match; [done|]. by intros [= <- <- <- <-].
  - case_match; [|by intros [= <- <- <- <-]].
    pose proof (oracle_keeps hc st idx) as Hkeep.
    destruct (updateRowHeight hc st idx) as [[hc1 c] h]. intros Hw k Hk.
    eapply IH; [exact Hw|]. by apply Hkeep.
Qed.

Lemma walk_measures fuel rc M step hc st idx e tot hc' st' e' tot' :
  walkViewport updateRowHeight fuel rc M step hc st idx e tot = Some (hc', st', e', tot') →
  step = 1 ∨ step = -1 →
  0 <= idx < rc → tot < M →
  ∀ k, Z.min idx e' <= k <= Z.max idx e' → measured hc' k.
Proof.
  intros Hw Hstep. revert hc st idx e tot Hw.
  induction fuel as [|fuel IH]; intros hc st idx e tot; simpl.
  - case_match; [done|]. intros _ ? ?. lia.
  - intros Hw Hidx Htot.
    destruct (Z.ltb_spec idx rc); [|lia]. destruct (Z.geb_spec idx 0); [|lia].
    destruct (Z.ltb_spec tot M); [|lia]. simpl in Hw.
    pose proof (oracle_measures hc st idx) as Hhere.
    destruct (updateRowHeight hc st idx) as [[hc1 c] h]. simpl in Hhere.
    pose proof (walk_keeps _ _ _ _ _ _ _ _ _ _ _ _ _ Hw idx Hhere) as Hidx'.
    destruct (decide (0 <= idx + step < rc ∧ tot + h < M)) as [[? ?]|Hstop].
    + pose proof Hw as Hend%walkViewport_endIdx; [|done].
      pose proof (IH _ _ _ _ _ Hw ltac:(lia) ltac:(lia)) as Hall.
      assert (e' ≠ idx → (step = 1 → idx + 1 <= e') ∧ (step = -1 → e' <= idx - 1)) as Hfar.
      { intros ?. destruct Hend as [->|(_ & ? & ?)]; [done|]. lia. }
      intros k Hk. destruct (decide (k = idx)) as [->|Hne]; [done|].
      apply Hall. destruct (decide (e' = idx)) as [->|He]; [lia|].
      specialize (Hfar He). destruct Hstep as [->| ->]; lia.
    + assert (e' = idx ∧ hc' = hc1) as [-> ->].
      { destruct fuel; simpl in Hw;
          destruct (Z.ltb_spec (idx + step) rc), (Z.geb_spec (idx + step) 0),
            (Z.ltb_spec (tot + h) M); simpl in Hw;
          try lia; by injection Hw as <- _ <- _. }
      intros k Hk. by replace k with idx by lia.
Qed.

Lemma touchRows_measures hc st first last hc' st' :
  touchRows updateRowHeight hc st first last = (hc', st') →
  (∀ k, measured hc k → measured hc' k)
  ∧ ∀ k, first <= k < last → measured hc' k.
Proof.
  unfold touchRows.
  assert (∀ l hc0 st0, foldl (λ acc rowIdx,
            let '(hc1, contentHeight, _) := updateRowHeight acc.1 acc.2 rowIdx in
            (hc1, set_scrollContentHeight contentHeight acc.2)) (hc0, st0) l = (hc', st') →
          (∀ k, measured hc0 k → measured hc' k) ∧ ∀ k, k ∈ l → measured hc' k) as Hl.
  { induction l as [|x l IH]; intros hc0 st0; simpl.
    - intros [= <- <-]. split; [done|]. by intros k ?%elem_of_nil.
    - pose proof (oracle_measures hc0 st0 x) as Hhere.
      pose proof (oracle_keeps hc0 st0 x) as Hkeep.
      destruct (updateRowHeight hc0 st0 x) as [[hc1 c] h]. simpl in Hhere, Hkeep.
      intros [Hkeep' Hall]%IH. split.
      + intros k Hk. by apply Hkeep', Hkeep.
      + intros k [->|Hk]%elem_of_cons; [by apply Hkeep'|by apply Hall]. }
  intros [Hkeep Hall]%Hl. split; [done|].
  intros k Hk. apply Hall. apply elem_of_seqZ. lia.
Qed.

Lemma calc_measures hc s a hc' s' r :
  calc hc s a = Some (hc', s', r) →
  0 < rowsCount s →
  (∀ i, Anchor.firstIndex a = Some i → 0 <= i) →
  (∀ j, Anchor.lastIndex a = Some j → 0 <= j) →
  0 < maxAvailableHeight (roughHeightsSelector s) →
  Anchor.firstOffset a < maxAvailableHeight (roughHeightsSelector s) →
  (∀ rowIdx, firstBufferIdx r <= rowIdx < endBufferIdx r → measured hc' rowIdx)
  ∧ (∀ rowIdx, measured hc rowIdx → measured hc' rowIdx).
Proof.
  intros H Hrc Hfi Hli HM Hoff.
  destruct (calc_inv _ _ _ _ _ _ _ _ _ H ltac:(lia))
    as (step & startIdx & tot0 & hcw & sw & endIdx & tot & hc2 & s2 & s3
        & Hstart & Hw & Ht1 & Ht2 & Hfb & Hev & Heb & _).
  assert ((step = 1 ∨ step = -1) ∧ 0 <= startIdx < rowsCount s
          ∧ tot0 < maxAvailableHeight (roughHeightsSelector s)) as (Hstep & Hin & Htot).
  { destruct (Js.geb (Anchor.firstIndex a) _ || Js.geb (Anchor.lastIndex a) _) eqn:Hclamp.
    - injection Hstart as <- <- <-. split; [by right|]. lia.
    - apply orb_false_elim in Hclamp as [Hc1 Hc2].
      destruct (Anchor.lastIndex a) as [j|] eqn:Hj.
      + injection Hstart as <- <- <-. specialize (Hli j eq_refl). simpl in Hc2.
        split; [by right|]. lia.
      + destruct (Anchor.firstIndex a) as [i|] eqn:Hi; [|done].
        injection Hstart as <- <- <-. specialize (Hfi i eq_refl). simpl in Hc1.
        split; [by left|]. lia. }
  pose proof (walk_measures _ _ _ _ _ _ _ _ _ _ _ _ _ Hw Hstep Hin Htot) as Hwalked.
  pose proof (walk_keeps _ _ _ _ _ _ _ _ _ _ _ _ _ Hw) as Hkeepw.
  apply touchRows_measures in Ht1 as [Hkeep1 Hlead].
  apply touchRows_measures in Ht2 as [Hkeep2 Htrail].
  split; [|by eauto].
  intros k Hk. rewrite Hfb, Heb in Hk.
  destruct (decide (k < Z.min startIdx endIdx)) as [Hlow|Hnlow].
  { apply Hkeep2, Hlead. lia. }
  destruct (decide (k <= Z.max startIdx endIdx)) as [Hmid|Hhigh].
  { apply Hkeep2, Hkeep1, Hwalked. lia. }
  apply Htrail. lia.
Qed.

(** X14: when the walk has something to fill, the resolution has passed
    every row of the returned range (viewport and both buffers) to
    [updateRowHeight], and the rows measured before stay measured. *)
Theorem every_row_of_the_range_is_measured hc s a :
  0 < rowsCount s →
  is_Some (Anchor.firstIndex a) ∨ is_Some (Anchor.lastIndex a) →
  (∀ i, Anchor.firstIndex a = Some i → 0 <= i) →
  (∀ j, Anchor.lastIndex a = Some j → 0 <= j) →
  0 < maxAvailableHeight (roughHeightsSelector s) →
  Anchor.firstOffset a < maxAvailableHeight (roughHeightsSelector s) →
  ∃ hc' s' r,
    calculateRenderedRowRange roughHeightsSelector scrollbarsVisibleSelector
      updateRowHeight hc s a = Some (hc', s', r)
    ∧ (∀ rowIdx, firstBufferIdx r <= rowIdx < endBufferIdx r → measured hc' rowIdx)
    ∧ (∀ rowIdx, measured hc rowIdx → measured hc' rowIdx).
Proof.
  intros Hrc Ha Hfi Hli HM Hoff.
  destruct (calc_total roughHeightsSelector scrollbarsVisibleSelector updateRowHeight
              hc s a Ha) as [[[hc' s'] r] H].
  exists hc', s', r. split; [done|]. by eapply calc_measures.
Qed.

End Measured.

(** *** The walk fills the viewport *)

Section Heights.

(** The oracle returns a height that depends on the row only. *)
Variable height : Z → Z.
Hypothesis oracle_height : ∀ hc st rowIdx, (updateRowHeight hc st rowIdx).2 = height rowIdx.

Lemma walk_stops fuel rc M step hc st idx e tot :
  ¬ (0 <= idx < rc ∧ tot < M) →
  walkViewport updateRowHeight fuel rc M step hc st idx e tot = Some (hc, st, e, tot).
Proof.
  intros Hstop.
  destruct fuel; simpl;
    destruct (Z.ltb_spec idx rc), (Z.geb_spec idx 0), (Z.ltb_spec tot M); simpl;
    try done; lia.
Qed.

Lemma walk_forward_sum fuel rc M hc st idx e tot hc' st' e' tot' :
  walkViewport updateRowHeight fuel rc M 1 hc st idx e tot = Some (hc', st', e', tot') →
  0 <= idx < rc → tot < M →
  idx <= e' < rc
  ∧ tot' = tot + heightOfRows height idx (e' + 1)
  ∧ tot + heightOfRows height idx e' < M
  ∧ (e' + 1 = rc ∨ M <= tot').
Proof.
  revert hc st idx e tot. induction fuel as [|fuel IH]; intros hc st idx e tot; simpl.
  - case_match; [done|]. intros _ ? ?. lia.
  - intros Hw Hidx Htot.
    destruct (Z.ltb_spec idx rc); [|lia]. destruct (Z.geb_spec idx 0); [|lia].
    destruct (Z.ltb_spec tot M); [|lia]. simpl in Hw.
    pose proof (oracle_height hc st idx) as Hh.
    destruct (updateRowHeight hc st idx) as [[hc1 c] h]. simpl in Hh. subst h.
    destruct (decide (0 <= idx + 1 < rc ∧ tot + height idx < M)) as [[? ?]|Hstop].
    + apply IH in Hw as (Hle & -> & Hless & Hfull); [|lia|lia].
      rewrite (heightOfRows_first height idx (e' + 1)) by lia.
      rewrite (heightOfRows_first height idx e') by lia.
      split; [lia|]. split; [lia|]. split; [lia|]. destruct Hfull; [by left|right; lia].
    + rewrite walk_stops in Hw by done. injection Hw as <- <- <- <-.
      rewrite (heightOfRows_first height idx (idx + 1)) by lia.
      rewrite !heightOfRows_nil. split; [lia|]. split; [lia|]. split; [lia|]. lia.
Qed.

Lemma walk_backward_sum fuel rc M hc st idx e tot hc' st' e' tot' :
  walkViewport updateRowHeight fuel rc M (-1) hc st idx e tot = Some (hc', st', e', tot') →
  0 <= idx < rc → tot < M →
  0 <= e' <= idx
  ∧ tot' = tot + heightOfRows height e' (idx + 1)
  ∧ tot + heightOfRows height (e' + 1) (idx + 1) < M
  ∧ (e' = 0 ∨ M <= tot').
Proof.
  revert hc st idx e tot. induction fuel as [|fuel IH]; intros hc st idx e tot; simpl.
  - case_match; [done|]. intros _ ? ?. lia.
  - intros Hw Hidx Htot.
    destruct (Z.ltb_spec idx rc); [|lia]. destruct (Z.geb_spec idx 0); [|lia].
    destruct (Z.ltb_spec tot M); [|lia]. simpl in Hw.
    pose proof (oracle_height hc st idx) as Hh.
    destruct (updateRowHeight hc st idx) as [[hc1 c] h]. simpl in Hh. subst h.
    destruct (decide (0 <= idx + -1 < rc ∧ tot + height idx < M)) as [[? ?]|Hstop].
    + apply IH in Hw as (Hle & -> & Hless & Hfull); [|lia|lia].
      replace (idx + -1 + 1) with idx in * by lia.
      rewrite (heightOfRows_last height e' idx) by lia.
      rewrite (heightOfRows_last height (e' + 1) idx) by lia.
      split; [lia|]. split; [lia|]. split; [lia|]. destruct Hfull; [by left|right; lia].
    + rewrite walk_stops in Hw by done. injection Hw as <- <- <- <-.
      rewrite (heightOfRows_first height idx (idx + 1)) by lia.
      rewrite !heightOfRows_nil. split; [lia|]. split; [lia|]. split; [lia|]. lia.
Qed.

(** X15: the forward walk fills the viewport and no more.  From an anchor
    by first row, the rows of the viewport together with [firstOffset] reach
    [maxAvailableHeight] unless the table ends first, and they would not
    without the last of them. *)
Theorem forward_walk_fills_the_viewport hc s a firstIndex :
  Anchor.firstIndex a = Some firstIndex → 0 <= firstIndex < rowsCount s →
  Anchor.lastIndex a = None →
  Anchor.firstOffset a < maxAvailableHeight (roughHeightsSelector s) →
  ∃ hc' s' r,
    calculateRenderedRowRange roughHeightsSelector scrollbarsVisibleSelector
      updateRowHeight hc s a = Some (hc', s', r)
    ∧ firstViewportIdx r = firstIndex
    ∧ firstIndex < endViewportIdx r <= rowsCount s
    ∧ (endViewportIdx r = rowsCount s
       ∨ maxAvailableHeight (roughHeightsSelector s)
         <= Anchor.firstOffset a + heightOfRows height firstIndex (endViewportIdx r))
    ∧ Anchor.firstOffset a + heightOfRows height firstIndex (endViewportIdx r - 1)
      < maxAvailableHeight (roughHeightsSelector s).
Proof.
  intros Hfi Hin Hli Hoff.
  destruct (calc_total roughHeightsSelector scrollbarsVisibleSelector updateRowHeight
              hc s a) as [[[hc' s'] r] H]; [left; by rewrite Hfi|].
  exists hc', s', r. split; [done|].
  destruct (calc_inv _ _ _ _ _ _ _ _ _ H ltac:(lia))
    as (step & startIdx & tot0 & hcw & sw & endIdx & tot & hc2 & s2 & s3
        & Hstart & Hw & _ & _ & _ & Hev & _ & _ & Hfv).
  rewrite Hfi, Hli in Hstart, Hfv. cbn [Js.geb orb] in Hstart, Hfv.
  destruct (Z.geb_spec firstIndex (rowsCount s)) as [|_]; [lia|].
  injection Hstart as <- <- <-.
  apply walk_forward_sum in Hw as (Hle & -> & Hless & Hfull); [|done|done].
  injection Hfv as Hfv _. rewrite Hfv, Hev.
  rewrite Z.min_l, Z.max_r by lia.
  replace (endIdx + 1 - 1) with endIdx by lia.
  split; [done|]. split; [lia|]. split; [|done]. destruct Hfull; [by left|by right].
Qed.

(** X16: the backward walk fills the viewport and no more.  From an anchor
    by last row, the rows from the first one walked up to [lastIndex] reach
    [maxAvailableHeight] unless row 0 was reached, and they would not
    without the first of them; [firstViewportIdx] is that first row or the
    next one. *)
Theorem backward_walk_fills_the_viewport hc s a lastIndex :
  Anchor.lastIndex a = Some lastIndex → 0 <= lastIndex < rowsCount s →
  (∀ i, Anchor.firstIndex a = Some i → i < rowsCount s) →
  0 < maxAvailableHeight (roughHeightsSelector s) →
  ∃ hc' s' r firstWalked,
    calculateRenderedRowRange roughHeightsSelector scrollbarsVisibleSelector
      updateRowHeight hc s a = Some (hc', s', r)
    ∧ endViewportIdx r = lastIndex + 1
    ∧ 0 <= firstWalked <= lastIndex
    ∧ (firstViewportIdx r = firstWalked ∨ firstViewportIdx r = firstWalked + 1)
    ∧ firstBufferIdx r
      = Z.max (firstWalked - bufferRowCount (roughHeightsSelector s)) 0
    ∧ (firstWalked = 0
       ∨ maxAvailableHeight (roughHeightsSelector s)
         <= heightOfRows height firstWalked (lastIndex + 1))
    ∧ heightOfRows height (firstWalked + 1) (lastIndex + 1)
      < maxAvailableHeight (roughHeightsSelector s).
Proof.
  intros Hli Hin Hfi HM.
  assert (Js.geb (Anchor.firstIndex a) (Some (rowsCount s))
          || Js.geb (Anchor.lastIndex a) (Some (rowsCount s)) = false) as Hclamp.
  { apply orb_false_iff. rewrite Hli. split; [|simpl; lia].
    destruct (Anchor.firstIndex a) as [i|]; [|done]. specialize (Hfi i eq_refl).
    simpl. lia. }
  destruct (calc_total roughHeightsSelector scrollbarsVisibleSelector updateRowHeight
              hc s a) as [[[hc' s'] r] H]; [right; by rewrite Hli|].
  destruct (calc_inv _ _ _ _ _ _ _ _ _ H ltac:(lia))
    as (step & startIdx & tot0 & hcw & sw & endIdx & tot & hc2 & s2 & s3
        & Hstart & Hw & _ & _ & Hfb & Hev & _ & _ & Hfv).
  rewrite Hclamp, Hli in Hstart, Hfv. injection Hstart as <- <- <-.
  apply walk_backward_sum in Hw as (Hle & -> & Hless & Hfull); [|done|done].
  exists hc', s', r, endIdx. split; [done|].
  rewrite (Z.min_r lastIndex endIdx) in Hfv, Hfb by lia.
  rewrite (Z.max_l lastIndex endIdx) in Hev by lia.
  split; [done|]. split; [done|]. split.
  { cbv zeta in Hfv.
    destruct (Js.geb (Some _) (storedHeights hc' !! _)); injection Hfv as -> _; eauto. }
  split; [done|]. split; [|lia]. destruct Hfull; [by left|right; lia].
Qed.

Lemma heightOfRows_lower lowest first last :
  (∀ rowIdx, lowest <= height rowIdx) → first <= last →
  (last - first) * lowest <= heightOfRows height first last.
Proof.
  intros Hlow Hle. unfold heightOfRows.
  assert (∀ l, Z.of_nat (length l) * lowest
               <= foldr (λ rowIdx acc, height rowIdx + acc) 0 l) as Hl.
  { induction l as [|x l IH]; [simpl; lia|]. cbn [length foldr].
    rewrite Nat2Z.inj_succ. specialize (Hlow x). lia. }
  specialize (Hl (seqZ first (last - first))). rewrite length_seqZ in Hl.
  by rewrite Z2Nat.id in Hl by lia.
Qed.


End Heights.

End Resolution.

(** ** The whole call *)

Lemma clamp_bounds resolved upper y :
  Js.clamp resolved 0 upper = Some y → 0 <= y <= Z.max 0 upper.
Proof.
  destruct resolved as [n|]; [|done]. unfold Js.clamp.
  destruct (Z.leb_spec n upper);
    [destruct (Z.geb_spec n 0)|destruct (Z.geb_spec upper 0)]; intros [= <-]; lia.
Qed.

(** In viewport-only mode a pass over a non-empty range stores the array
    of the state it was given, altered in place; no other array changes. *)
Lemma offsets_in_place sn st r :
  endBufferIdx r - firstBufferIdx r ≠ 0 →
  rows (computeRenderedRowOffsets sn st r true).2 = rows st
  ∧ ∀ other, other ≠ rows st →
      arrays (computeRenderedRowOffsets sn st r true).1 !! other = arrays sn !! other.
Proof.
  intros Hne. unfold computeRenderedRowOffsets.
  destruct (Z.eqb_spec (endBufferIdx r - firstBufferIdx r) 0) as [|_]; [done|].
  cbn. split; [done|]. intros other Hother. by rewrite lookup_insert_ne.
Qed.

Lemma earlier_viewport_frame sn st r sn' st' :
  Earlier.computeViewPortRenderedRowOffsets sn st r = (sn', st') →
  st' = set_rows (rowHeights st') (rows st') st ∧ heights sn' = heights sn.
Proof.
  unfold Earlier.computeViewPortRenderedRowOffsets.
  destruct (_ =? 0); intros [= <- <-]; done.
Qed.

Lemma earlier_turn sh fv ev n v k :
  Earlier.offsetsTurn sh fv ev n v k = offsetsTurn sh false fv ev n v k.
Proof. done. Qed.

Section Calls.

Variable roughHeightsSelector : State → RoughHeights.
Variable scrollbarsVisibleSelector : State → Z.
Variable tableHeightsSelector : State → Z.
Variable updateRowHeight : HeightCache → State → Z → HeightCache * Z * Z.

Local Abbreviation calc :=
  (calculateRenderedRowRange roughHeightsSelector scrollbarsVisibleSelector updateRowHeight).
Local Abbreviation run :=
  (computeRenderedRows roughHeightsSelector scrollbarsVisibleSelector
     tableHeightsSelector updateRowHeight).

(** The call returns as soon as the anchor names a row. *)
Lemma run_total sn s a :
  is_Some (Anchor.firstIndex a) ∨ is_Some (Anchor.lastIndex a) →
  ∃ sn' s', run sn s a = Some (sn', s').
Proof.
  intros Ha.
  destruct (calc_total roughHeightsSelector scrollbarsVisibleSelector updateRowHeight
              (heights sn) s a Ha) as [[[hc1 ns1] r1] Hfirst].
  unfold computeRenderedRows. rewrite Hfirst. cbn [mbind option_bind].
  destruct (scrollContentHeight ns1 - tableHeightsSelector ns1 =? 0).
  - destruct (firstViewportIdx r1 >? 0).
    + destruct (calc_total roughHeightsSelector scrollbarsVisibleSelector updateRowHeight
                  hc1 ns1 (bottomAnchor (rowsCount ns1))) as [[[hc2 ns2] r2] ->].
      { right. simpl. eauto. }
      cbn [mbind option_bind].
      destruct (computeRenderedRowOffsets _ _ _ _). eauto.
    + cbn [mbind option_bind]. destruct (computeRenderedRowOffsets _ _ _ _). eauto.
  - cbn [mbind option_bind]. destruct (computeRenderedRowOffsets _ _ _ _). eauto.
Qed.

(** X17: an empty table.  With [rowsCount = 0] the call needs no anchor and
    measures nothing: it returns a new empty [rows] array, an empty
    [rowHeights], [scrollY = 0], and leaves [firstRowIndex] as it was;
    [firstRowOffset] is left as it was too unless [maxScrollY] is 0. *)
Theorem empty_table_is_reset sn s a :
  rowsCount s = 0 →
  ∃ sn' s',
    computeRenderedRows roughHeightsSelector scrollbarsVisibleSelector
      tableHeightsSelector updateRowHeight sn s a = Some (sn', s')
    ∧ rowHeights s' = ∅
    ∧ arrays sn' !! rows s' = Some []
    ∧ (rows s' ∉ dom (arrays sn))
    ∧ bufferSet sn' = bufferSet sn ∧ heights sn' = heights sn
    ∧ scrollY s' = Some 0
    ∧ maxScrollY s' = scrollContentHeight s - tableHeightsSelector s
    ∧ scrollJumpedY s' = jumpRequested a && Js.strict_ne (Some 0) (scrollY s)
    ∧ firstRowIndex s' = firstRowIndex s
    ∧ firstRowOffset s' = (if maxScrollY s' =? 0 then Some 0 else firstRowOffset s).
Proof.
  intros Hz. unfold computeRenderedRows.
  rewrite (calc_zero roughHeightsSelector scrollbarsVisibleSelector updateRowHeight)
    by done.
  cbn [mbind option_bind]. rewrite Hz.
  assert (∀ upper, Js.clamp (Some 0) 0 upper = Some 0) as Hclamp.
  { intros upper. unfold Js.clamp. destruct (Z.leb_spec 0 upper); [done|].
    destruct (Z.geb_spec upper 0); [lia|done]. }
  cbn [firstViewportIdx]. change (0 >? 0) with false. cbv iota. rewrite Hclamp.
  assert (∀ snA stA vo,
            computeRenderedRowOffsets snA stA (mkRowRange 0 0 0 0) vo
            = (set_arrays (<[fresh (dom (arrays snA)) := []]> (arrays snA)) snA,
               set_rows ∅ (fresh (dom (arrays snA))) stA)) as Hreset.
  { intros snA stA vo. done. }
  destruct (scrollContentHeight s - tableHeightsSelector s =? 0) eqn:Hfits;
    cbn [mbind option_bind]; rewrite Hreset; eexists _, _; (split; [reflexivity|]);
    cbn [rowHeights rows arrays bufferSet heights scrollY maxScrollY scrollJumpedY
         firstRowIndex firstRowOffset set_scroll set_rows set_arrays set_heights
         set_firstRowOffset set_firstRow];
    rewrite Hfits, lookup_insert_eq; split_and!; try done; apply is_fresh.
Qed.

(** X18: the returned [scrollY], when it is a number, is never negative and
    never above [maxScrollY] (above 0 when [maxScrollY] is negative). *)
Theorem scrollY_is_clamped sn s a :
  is_Some (Anchor.firstIndex a) ∨ is_Some (Anchor.lastIndex a) →
  ∃ sn' s',
    computeRenderedRows roughHeightsSelector scrollbarsVisibleSelector
      tableHeightsSelector updateRowHeight sn s a = Some (sn', s')
    ∧ ∀ y, scrollY s' = Some y → 0 <= y <= Z.max 0 (maxScrollY s').
Proof.
  intros Ha. destruct (run_total sn s a Ha) as (sn' & s' & Hrun).
  exists sn', s'. split; [done|].
  apply run_scroll in Hrun as [Hclamp _]. cbv zeta in Hclamp.
  intros y Hy. rewrite Hclamp in Hy. by apply clamp_bounds in Hy.
Qed.

(** X19: when the content fits ([maxScrollY = 0]) the table is returned at
    its top, whatever the anchor: [firstRowOffset] is 0 and [scrollY] is 0
    (or [NaN] when no offset is known for the first row). *)
Theorem fitting_content_is_at_the_top sn s a :
  is_Some (Anchor.firstIndex a) ∨ is_Some (Anchor.lastIndex a) →
  ∃ sn' s',
    computeRenderedRows roughHeightsSelector scrollbarsVisibleSelector
      tableHeightsSelector updateRowHeight sn s a = Some (sn', s')
    ∧ (maxScrollY s' = 0 →
       firstRowOffset s' = Some 0 ∧ (scrollY s' = Some 0 ∨ scrollY s' = None)).
Proof.
  intros Ha. destruct (run_total sn s a Ha) as (sn' & s' & Hrun).
  exists sn', s'. split; [done|]. intros Hmax.
  pose proof Hrun as [Hclamp _]%run_scroll. cbv zeta in Hclamp.
  apply run_steps in Hrun
    as [hc1 hc ns1 ns ns3 r1 r resolved Hfirst Hcorrect Hoff Hres Hs1].
  apply offsets_frame in Hoff as [Hns3 _].
  assert (scrollContentHeight ns1 - tableHeightsSelector ns1 = 0) as Hfits.
  { by rewrite Hs1 in Hmax. }
  rewrite Hfits in Hcorrect. simpl in Hcorrect. destruct Hcorrect as (ns2 & _ & ->).
  split.
  - rewrite Hs1, Hns3. done.
  - rewrite Hclamp, Hmax.
    destruct (if rowsCount s >? 0 then _ else _) as [y|] eqn:Hy; [|by right].
    left. pose proof (clamp_bounds (Some y) 0 _ eq_refl) as Hb.
    unfold Js.clamp in *. destruct (y <=? 0), (_ >=? 0); f_equal; lia.
Qed.

(** X20: while scrolling, a call on a table with rows returns the [rows]
    array of the state it was given: the array is altered in place, so the
    previous state sees the new slots; every other array is left alone. *)
Theorem scrolling_call_alters_the_rows_array_in_place sn s a :
  scrolling s = true →
  0 < rowsCount s →
  is_Some (Anchor.firstIndex a) ∨ is_Some (Anchor.lastIndex a) →
  (∀ i, Anchor.firstIndex a = Some i → 0 <= i) →
  (∀ j, Anchor.lastIndex a = Some j → 0 <= j) →
  (∀ st, 0 <= bufferRowCount (roughHeightsSelector st)) →
  ∃ sn' s',
    computeRenderedRows roughHeightsSelector scrollbarsVisibleSelector
      tableHeightsSelector updateRowHeight sn s a = Some (sn', s')
    ∧ rows s' = rows s
    ∧ ∀ other, other ≠ rows s → arrays sn' !! other = arrays sn !! other.
Proof.
  intros Hscrolling Hrc Ha Hfi Hli Hbuf.
  destruct (run_total sn s a Ha) as (sn' & s' & Hrun).
  exists sn', s'. split; [done|].
  apply run_steps in Hrun
    as [hc1 hc ns1 ns ns3 r1 r resolved Hfirst Hcorrect Hoff Hres Hs1].
  pose proof Hfirst as [Hframe1 _]%calc_frame.
  assert (∀ hcA sA aA hcB sB rB,
            calc hcA sA aA = Some (hcB, sB, rB) → 0 < rowsCount sA →
            (∀ i, Anchor.firstIndex aA = Some i → 0 <= i) →
            (∀ j, Anchor.lastIndex aA = Some j → 0 <= j) →
            endBufferIdx rB - firstBufferIdx rB ≠ 0) as Hrange.
  { intros hcA sA aA hcB sB rB HA HrcA HfiA HliA.
    destruct (calc_bounds _ _ _ _ _ _ _ _ _ HA HrcA HfiA HliA)
      as (fv0 & Hfv0 & Hev & -> & -> & _).
    specialize (Hbuf sA). lia. }
  assert (endBufferIdx r - firstBufferIdx r ≠ 0 ∧ rows ns = rows s) as [Hne Hrows].
  { destruct Hframe1 as (Hrc1 & _ & Hrows1 & _).
    destruct (_ =? 0).
    - destruct Hcorrect as (ns2 & Hsecond & ->).
      destruct (firstViewportIdx r1 >? 0).
      + split.
        * eapply Hrange; [exact Hsecond|lia|done|]. simpl. intros j [= <-]. lia.
        * apply calc_frame in Hsecond as [(_ & _ & Hrows2 & _) _]. simpl. congruence.
      + injection Hsecond as _ <- <-. split; [by eapply Hrange|done].
    - injection Hcorrect as _ -> ->. split; [by eapply Hrange|done]. }
  rewrite Hscrolling in Hoff.
  destruct (offsets_in_place (set_heights hc sn) ns r Hne) as [Hsame Hothers].
  rewrite Hoff in Hsame, Hothers. simpl in Hsame, Hothers.
  rewrite Hs1. cbn [rows set_scroll]. split; [congruence|].
  intros other Hother. apply Hothers. congruence.
Qed.

(** X21: while scrolling, the earlier evolution and the unified one agree
    on the scroll position as long as [maxScrollY] is not 0 (the earlier one
    skips the corrected resolution while scrolling): same [maxScrollY],
    same height cache, first row and offset, the offsets the earlier one
    stores are stored alike by the unified one, and [scrollY] and
    [scrollJumpedY] agree when the first row has an offset. *)
Theorem earlier_evolution_agrees_while_scrolling sn s a :
  scrolling s = true →
  0 < rowsCount s →
  is_Some (Anchor.firstIndex a) ∨ is_Some (Anchor.lastIndex a) →
  ∃ snE sE snU sU,
    Earlier.computeRenderedRows roughHeightsSelector scrollbarsVisibleSelector
      tableHeightsSelector updateRowHeight sn s a = Some (snE, sE)
    ∧ computeRenderedRows roughHeightsSelector scrollbarsVisibleSelector
        tableHeightsSelector updateRowHeight sn s a = Some (snU, sU)
    ∧ maxScrollY sE = maxScrollY sU
    ∧ (maxScrollY sU ≠ 0 →
       heights snE = heights snU
       ∧ firstRowIndex sE = firstRowIndex sU
       ∧ firstRowOffset sE = firstRowOffset sU
       ∧ (∀ rowIdx, is_Some (rowHeights sE !! rowIdx) →
            rowHeights sU !! rowIdx = rowHeights sE !! rowIdx)
       ∧ (is_Some (rowHeights sE !! firstRowIndex sE) →
          scrollY sE = scrollY sU ∧ scrollJumpedY sE = scrollJumpedY sU)).
Proof.
  intros Hscrolling Hrc Ha.
  destruct (run_total sn s a Ha) as (snU & sU & Hrun).
  pose proof Hrun as [hc1 hc ns1 ns ns3 r1 r resolved Hfirst Hcorrect Hoff Hres Hs1]%run_steps.
  pose proof Hfirst as [(Hrc1 & _) Hfv1]%calc_frame.
  unfold Earlier.computeRenderedRows. rewrite Hfirst. cbn [mbind option_bind].
  rewrite Hscrolling.
  destruct (Earlier.computeViewPortRenderedRowOffsets (set_heights hc1 sn) ns1 r1)
    as [snV nsV] eqn:Hview.
  cbn [mbind option_bind]. rewrite earlier_offsets.
  destruct (computeRenderedRowOffsets snV nsV r1 false) as [snE nsE] eqn:HoffE.
  apply earlier_viewport_frame in Hview as [HnsV HheightsV]. simpl in HheightsV.
  pose proof HoffE as [HnsE HheightsE]%offsets_frame.
  pose proof Hoff as [Hns3 Hheights3]%offsets_frame. simpl in Hheights3.
  eexists snE, _, snU, sU. split; [reflexivity|]. split; [done|].
  rewrite Hs1. cbn [maxScrollY set_scroll heights firstRowIndex firstRowOffset rowHeights
                    scrollY scrollJumpedY].
  split; [done|]. intros Hmax.
  apply Z.eqb_neq in Hmax. rewrite Hmax in Hcorrect. injection Hcorrect as -> -> ->.
  rewrite Hscrolling in Hoff.
  assert (firstRowIndex nsE = firstRowIndex ns3 ∧ firstRowOffset nsE = firstRowOffset ns3)
    as [Hidx Hoffset].
  { rewrite HnsE, HnsV, Hns3. done. }
  assert (∀ k, is_Some (rowHeights nsE !! k) → rowHeights ns3 !! k = rowHeights nsE !! k)
    as Hsame.
  { intros k Hk.
    replace nsE with (computeRenderedRowOffsets snV nsV r1 false).2 in * by (by rewrite HoffE).
    replace ns3 with (computeRenderedRowOffsets (set_heights hc1 sn) ns1 r1 true).2
      by (by rewrite Hoff).
    apply offsets_full_keys in Hk.
    rewrite !offsets_lookup by done. rewrite HheightsV. done. }
  split; [congruence|]. split; [done|]. split; [done|]. split; [done|].
  intros Hfirstrow.
  assert ((rowsCount ns1 >? 0) = true) as Hpos by (apply Z.gtb_lt; lia).
  rewrite Hpos in Hres |- *.
  assert (firstRowIndex nsE = firstViewportIdx r1) as Hfv.
  { rewrite HnsE, HnsV. simpl. apply Hfv1. lia. }
  rewrite Hfv in Hfirstrow. apply Hsame in Hfirstrow.
  assert (Js.sub (Js.get (rowHeights nsE) (firstViewportIdx r1)) (firstRowOffset nsE)
          = resolved) as ->.
  { rewrite Hres, Hoffset. unfold Js.get. by rewrite Hfirstrow. }
  done.
Qed.

(** X26: at rest the call builds a new [rows] array and alters no array
    that existed before, whatever the range. *)
Theorem call_at_rest_builds_a_new_rows_array sn s a :
  scrolling s = false →
  is_Some (Anchor.firstIndex a) ∨ is_Some (Anchor.lastIndex a) →
  ∃ sn' s',
    computeRenderedRows roughHeightsSelector scrollbarsVisibleSelector
      tableHeightsSelector updateRowHeight sn s a = Some (sn', s')
    ∧ (rows s' ∉ dom (arrays sn))
    ∧ is_Some (arrays sn' !! rows s')
    ∧ ∀ other, other ≠ rows s' → arrays sn' !! other = arrays sn !! other.
Proof.
  intros Hscrolling Ha.
  destruct (run_total sn s a Ha) as (sn' & s' & Hrun).
  exists sn', s'. split; [done|].
  apply run_steps in Hrun
    as [hc1 hc ns1 ns ns3 r1 r resolved Hfirst Hcorrect Hoff Hres Hs1].
  rewrite Hscrolling in Hoff. rewrite Hs1. cbn [rows set_scroll].
  unfold computeRenderedRowOffsets in Hoff.
  destruct (endBufferIdx r - firstBufferIdx r =? 0); injection Hoff as <- <-;
    cbn [rows set_rows arrays set_arrays set_heights];
    (split; [apply is_fresh|]); (split; [rewrite lookup_insert_eq; eauto|]);
    intros other Hother; by rewrite lookup_insert_ne.
Qed.

(** *** No offset is [NaN] *)

Lemma offsetAfter_number sh start first (n : nat) :
  (∀ i, (i < n)%nat → is_Some (sh !! (first + Z.of_nat i))) →
  is_Some (offsetAfter sh (Some start) first n).
Proof.
  induction n as [|n IH]; intros Hall; [by eexists|].
  cbn [offsetAfter]. destruct IH as [y ->]; [intros i ?; apply Hall; lia|].
  destruct (Hall n ltac:(lia)) as [h ->]. by eexists.
Qed.

Section Numbers.

(** The oracle stores a height for the row it measures and drops none. *)
Hypothesis oracle_stores :
  ∀ hc st rowIdx, is_Some (storedHeights (updateRowHeight hc st rowIdx).1.1 !! rowIdx).
Hypothesis oracle_drops_nothing :
  ∀ hc st rowIdx other,
    is_Some (storedHeights hc !! other) →
    is_Some (storedHeights (updateRowHeight hc st rowIdx).1.1 !! other).

(** X25: at rest, on a table with rows and a viewport with some height to
    fill, every offset of the returned [rowHeights] is a number: each row of
    the range was measured before its offset was summed. *)
Theorem offsets_at_rest_are_numbers sn s a :
  scrolling s = false →
  0 < rowsCount s →
  is_Some (Anchor.firstIndex a) ∨ is_Some (Anchor.lastIndex a) →
  (∀ i, Anchor.firstIndex a = Some i → 0 <= i) →
  (∀ j, Anchor.lastIndex a = Some j → 0 <= j) →
  (∀ st, 0 < maxAvailableHeight (roughHeightsSelector st)) →
  (∀ st, Anchor.firstOffset a < maxAvailableHeight (roughHeightsSelector st)) →
  ∃ sn' s',
    computeRenderedRows roughHeightsSelector scrollbarsVisibleSelector
      tableHeightsSelector updateRowHeight sn s a = Some (sn', s')
    ∧ ∀ rowIdx offset, rowHeights s' !! rowIdx = Some offset → is_Some offset.
Proof.
  intros Hscrolling Hrc Ha Hfi Hli HM Hoffset.
  destruct (run_total sn s a Ha) as (sn' & s' & Hrun).
  exists sn', s'. split; [done|].
  apply run_steps in Hrun
    as [hc1 hc ns1 ns ns3 r1 r resolved Hfirst Hcorrect Hoff Hres Hs1].
  pose proof Hfirst as [(Hrc1 & _) _]%calc_frame.
  assert (∀ k, firstBufferIdx r <= k < endBufferIdx r → is_Some (storedHeights hc !! k))
    as Hmeasured.
  { pose proof (calc_measures roughHeightsSelector scrollbarsVisibleSelector
                  updateRowHeight (λ hc k, is_Some (storedHeights hc !! k))
                  oracle_stores oracle_drops_nothing) as Hcalc.
    destruct (scrollContentHeight ns1 - tableHeightsSelector ns1 =? 0).
    - destruct Hcorrect as (ns2 & Hsecond & _).
      destruct (firstViewportIdx r1 >? 0).
      + eapply Hcalc; [exact Hsecond|lia|done| |apply HM|apply HM].
        simpl. intros j [= <-]. lia.
      + injection Hsecond as <- _ <-. eapply Hcalc; eauto.
    - injection Hcorrect as -> _ ->. eapply Hcalc; eauto. }
  rewrite Hscrolling in Hoff. rewrite Hs1. cbn [rowHeights set_scroll].
  replace ns3 with (computeRenderedRowOffsets (set_heights hc sn) ns r false).2
    by (by rewrite Hoff).
  intros k v Hk.
  assert (firstBufferIdx r <= k < endBufferIdx r) as Hin.
  { apply (offsets_full_keys (set_heights hc sn) ns r k). by rewrite Hk. }
  rewrite offsets_lookup in Hk by done. injection Hk as <-.
  apply offsetAfter_number. intros i Hi. apply Hmeasured. lia.
Qed.

End Numbers.

End Calls.

(** ** The anchor by last row, in closed form *)

Section Bottom.

Variable roughHeightsSelector : State → RoughHeights.
Variable scrollbarsVisibleSelector : State → Z.
Variable updateRowHeight : HeightCache → State → Z → HeightCache * Z * Z.

(** A table whose available height does not depend on the state and is
    positive, whose rows have a positive height, and an oracle that stores
    the height it returns and keeps the heights stored before. *)
Variable availableHeight : Z.
Variable height : Z → Z.
Hypothesis available : ∀ st, scrollbarsVisibleSelector st = availableHeight.
Hypothesis available_positive : 0 < availableHeight.
Hypothesis height_positive : ∀ rowIdx, 0 < height rowIdx.
Hypothesis oracle_height : ∀ hc st rowIdx, (updateRowHeight hc st rowIdx).2 = height rowIdx.
Hypothesis oracle_stores :
  ∀ hc st rowIdx,
    storedHeights (updateRowHeight hc st rowIdx).1.1 !! rowIdx = Some (height rowIdx).
Hypothesis oracle_keeps :
  ∀ hc st rowIdx other,
    storedHeights hc !! other = Some (height other) →
    storedHeights (updateRowHeight hc st rowIdx).1.1 !! other = Some (height other).

Local Abbreviation calc :=
  (calculateRenderedRowRange roughHeightsSelector scrollbarsVisibleSelector updateRowHeight).

Lemma backward_closed hc s a hc' s' r lastIndex :
  calc hc s a = Some (hc', s', r) →
  0 <= lastIndex < rowsCount s →
  (if Js.geb (Anchor.firstIndex a) (Some (rowsCount s))
      || Js.geb (Anchor.lastIndex a) (Some (rowsCount s))
   then Some (rowsCount s - 1) else Anchor.lastIndex a) = Some lastIndex →
  0 < maxAvailableHeight (roughHeightsSelector s) →
  ∃ firstWalked,
    0 <= firstWalked <= lastIndex
    ∧ endViewportIdx r = lastIndex + 1
    ∧ (height firstWalked
       <= - Z.min (availableHeight - heightOfRows height firstWalked (lastIndex + 1)) 0 →
       firstWalked < lastIndex
       ∧ firstViewportIdx r = firstWalked + 1
       ∧ firstRowOffset s'
         = Some (Z.min (availableHeight - heightOfRows height firstWalked (lastIndex + 1)) 0
                 + height (firstWalked + 1)))
    ∧ (- Z.min (availableHeight - heightOfRows height firstWalked (lastIndex + 1)) 0
       < height firstWalked →
       firstViewportIdx r = firstWalked
       ∧ firstRowOffset s'
         = Some (Z.min (availableHeight - heightOfRows height firstWalked (lastIndex + 1)) 0)).
Proof.
  intros H Hin Heff HM.
  destruct (calc_inv _ _ _ _ _ _ _ _ _ H ltac:(lia))
    as (step & startIdx & tot0 & hcw & sw & endIdx & tot & hc2 & s2 & s3
        & Hstart & Hw & Ht1 & Ht2 & _ & Hev & _ & _ & Hfv).
  rewrite Heff in Hstart, Hfv. injection Hstart as <- <- <-.
  pose proof (walk_measures updateRowHeight
                (λ hc k, storedHeights hc !! k = Some (height k)) oracle_stores oracle_keeps
                _ _ _ _ _ _ _ _ _ _ _ _ _ Hw ltac:(by right) Hin HM) as Hwalked.
  apply (touchRows_measures updateRowHeight
           (λ hc k, storedHeights hc !! k = Some (height k)) oracle_stores oracle_keeps)
    in Ht1 as [Hkeep1 _].
  apply (touchRows_measures updateRowHeight
           (λ hc k, storedHeights hc !! k = Some (height k)) oracle_stores oracle_keeps)
    in Ht2 as [Hkeep2 _].
  apply (walk_backward_sum updateRowHeight height oracle_height)
    in Hw as (Hle & -> & _ & _); [|done|done].
  exists endIdx. split; [done|].
  rewrite (Z.min_r lastIndex endIdx) in Hfv by lia.
  rewrite (Z.max_l lastIndex endIdx) in Hev by lia.
  split; [done|].
  rewrite available in Hfv. cbv zeta in Hfv.
  replace (0 + heightOfRows height endIdx (lastIndex + 1))
    with (heightOfRows height endIdx (lastIndex + 1)) in Hfv by lia.
  rewrite (Hkeep2 _ (Hkeep1 _ (Hwalked endIdx ltac:(lia)))) in Hfv.
  cbn [Js.geb] in Hfv.
  destruct (Z.geb_spec
              (-1 * Z.min (availableHeight - heightOfRows height endIdx (lastIndex + 1)) 0)
              (height endIdx)) as [Hadv|Hstay].
  - assert (endIdx < lastIndex) as Hlt.
    { destruct (decide (endIdx = lastIndex)) as [->|]; [|lia].
      rewrite (heightOfRows_first height lastIndex (lastIndex + 1)) in Hadv by lia.
      rewrite heightOfRows_nil in Hadv. pose proof (height_positive lastIndex). lia. }
    rewrite (Hkeep2 _ (Hkeep1 _ (Hwalked (endIdx + 1) ltac:(lia)))) in Hfv.
    injection Hfv as -> ->. split; [done|]. intros ?. lia.
  - injection Hfv as -> ->. split; [intros ?; lia|done].
Qed.

(** X27: an anchor by last row, in closed form.  With [T] the height of
    the rows from the first one walked to [lastIndex], the offset is
    [min(availableHeight - T, 0)] and the first row of the viewport is the
    first one walked, unless that row is pushed off the viewport as a
    whole: then the first row is the next one and the offset is increased
    by the height of that next row. *)
Theorem anchor_by_last_row_in_closed_form hc s a lastIndex :
  Anchor.lastIndex a = Some lastIndex → 0 <= lastIndex < rowsCount s →
  (∀ i, Anchor.firstIndex a = Some i → i < rowsCount s) →
  0 < maxAvailableHeight (roughHeightsSelector s) →
  ∃ hc' s' r firstWalked,
    calculateRenderedRowRange roughHeightsSelector scrollbarsVisibleSelector
      updateRowHeight hc s a = Some (hc', s', r)
    ∧ 0 <= firstWalked <= lastIndex
    ∧ endViewportIdx r = lastIndex + 1
    ∧ firstRowIndex s' = firstViewportIdx r
    ∧ (height firstWalked
       <= - Z.min (availableHeight - heightOfRows height firstWalked (lastIndex + 1)) 0 →
       firstWalked < lastIndex
       ∧ firstViewportIdx r = firstWalked + 1
       ∧ firstRowOffset s'
         = Some (Z.min (availableHeight - heightOfRows height firstWalked (lastIndex + 1)) 0
                 + height (firstWalked + 1)))
    ∧ (- Z.min (availableHeight - heightOfRows height firstWalked (lastIndex + 1)) 0
       < height firstWalked →
       firstViewportIdx r = firstWalked
       ∧ firstRowOffset s'
         = Some (Z.min (availableHeight - heightOfRows height firstWalked (lastIndex + 1)) 0)).
Proof.
  intros Hli Hin Hfi HM.
  assert (Js.geb (Anchor.firstIndex a) (Some (rowsCount s))
          || Js.geb (Anchor.lastIndex a) (Some (rowsCount s)) = false) as Hclamp.
  { apply orb_false_iff. rewrite Hli. split; [|simpl; lia].
    destruct (Anchor.firstIndex a) as [i|]; [|done]. specialize (Hfi i eq_refl).
    simpl. lia. }
  destruct (calc_total roughHeightsSelector scrollbarsVisibleSelector updateRowHeight
              hc s a) as [[[hc' s'] r] H]; [right; by rewrite Hli|].
  destruct (backward_closed hc s a hc' s' r lastIndex H Hin) as (fw & Hfw & Hev & Hadv & Hstay).
  { by rewrite Hclamp. }
  { done. }
  exists hc', s', r, fw. split; [done|]. split; [done|]. split; [done|].
  split; [|done]. apply calc_frame in H as [_ Hidx]. apply Hidx. lia.
Qed.

(** X28: the viewport holds a row.  For a table with rows, the returned
    viewport is not empty and its first row exists:
    [0 <= firstViewportIdx < endViewportIdx <= rowsCount], and
    [state.firstRowIndex] is that first row. *)
Theorem viewport_holds_a_row hc s a :
  0 < rowsCount s →
  is_Some (Anchor.firstIndex a) ∨ is_Some (Anchor.lastIndex a) →
  (∀ i, Anchor.firstIndex a = Some i → 0 <= i) →
  (∀ j, Anchor.lastIndex a = Some j → 0 <= j) →
  0 < maxAvailableHeight (roughHeightsSelector s) →
  ∃ hc' s' r,
    calculateRenderedRowRange roughHeightsSelector scrollbarsVisibleSelector
      updateRowHeight hc s a = Some (hc', s', r)
    ∧ 0 <= firstViewportIdx r < endViewportIdx r
    ∧ endViewportIdx r <= rowsCount s
    ∧ firstRowIndex s' = firstViewportIdx r.
Proof.
  intros Hrc Ha Hfi Hli HM.
  destruct (calc_total roughHeightsSelector scrollbarsVisibleSelector updateRowHeight
              hc s a Ha) as [[[hc' s'] r] H].
  exists hc', s', r. split; [done|].
  pose proof H as [_ Hidx]%calc_frame. specialize (Hidx ltac:(lia)).
  destruct (calc_bounds _ _ _ _ _ _ _ _ _ H Hrc Hfi Hli)
    as (fv0 & Hfv0 & Hev & _ & _ & Hfv).
  split; [|done].
  destruct (if Js.geb (Anchor.firstIndex a) (Some (rowsCount s))
               || Js.geb (Anchor.lastIndex a) (Some (rowsCount s))
            then Some (rowsCount s - 1) else Anchor.lastIndex a) as [li|] eqn:Heff.
  - assert (0 <= li < rowsCount s) as Hin.
    { destruct (Js.geb (Anchor.firstIndex a) _ || Js.geb (Anchor.lastIndex a) _) eqn:Hclamp.
      - injection Heff as <-. lia.
      - apply orb_false_elim in Hclamp as [_ Hc2]. rewrite Heff in Hc2. simpl in Hc2.
        specialize (Hli _ Heff). lia. }
    destruct (backward_closed hc s a hc' s' r li H Hin Heff HM)
      as (fw & Hfw & Hev' & Hadv & Hstay).
    destruct (Z.le_gt_cases (height fw)
                (- Z.min (availableHeight - heightOfRows height fw (li + 1)) 0))
      as [Hcase|Hcase].
    + destruct (Hadv Hcase) as (? & -> & _). lia.
    + destruct (Hstay Hcase) as (-> & _). lia.
  - destruct (calc_inv _ _ _ _ _ _ _ _ _ H ltac:(lia))
      as (step & startIdx & tot0 & hcw & sw & endIdx & tot & hc2 & s2 & s3
          & Hstart & Hw & _ & _ & _ & Hev' & _ & _ & Hfv').
    rewrite Heff in Hstart, Hfv'. injection Hfv' as Hfv' _.
    destruct Hfv as [Hfv| Hfv]; [lia|].
    destruct (Anchor.firstIndex a) as [fi|] eqn:Hfi'; [|done].
    injection Hstart as <- <- <-. specialize (Hfi _ eq_refl).
    apply walkViewport_endIdx in Hw; [|by left]. lia.
Qed.

End Bottom.

(** ** The viewport pass of the earlier evolution *)

Lemma slot_turn_gives_full fv ev n acc x :
  ∃ q, BufferSet.getValuePosition (slotsTurn false fv ev n acc x).1 x = Some q
       ∧ (slotsTurn false fv ev n acc x).2 !! q = Some (Some x).
Proof.
  unfold slotsTurn. simpl.
  destruct (addRowToBuffer x acc.1 fv ev n) as [b' p] eqn:Hadd. simpl.
  apply addRowToBuffer_cases in Hadd. exists p.
  split; [by eapply slot_new|]. apply array_set_lookup_eq.
Qed.

(** X22: the viewport pass of the earlier evolution walks the rows from
    [firstViewportIdx] to [endViewportIdx] included, one row past the
    viewport: each of them gets an offset and a slot in [state.rows], which
    is altered in place. *)
Theorem earlier_viewport_pass_walks_one_row_past sn st r rowIdx :
  endBufferIdx r - firstBufferIdx r ≠ 0 →
  firstViewportIdx r <= rowIdx <= endViewportIdx r →
  let result := Earlier.computeViewPortRenderedRowOffsets sn st r in
  rows result.2 = rows st
  ∧ is_Some (rowHeights result.2 !! rowIdx)
  ∧ ∃ resulting rowPosition,
      arrays result.1 !! rows st = Some resulting
      ∧ resulting !! rowPosition = Some (Some rowIdx)
      ∧ BufferSet.getValuePosition (bufferSet result.1) rowIdx = Some rowPosition.
Proof.
  intros Hne Hview. cbv zeta. unfold Earlier.computeViewPortRenderedRowOffsets.
  destruct (Z.eqb_spec (endBufferIdx r - firstBufferIdx r) 0) as [|_]; [done|].
  cbv zeta.
  rewrite (foldl_pointwise _ _ _ _
             (earlier_turn (storedHeights (heights sn)) (firstViewportIdx r)
                (endViewportIdx r) (endBufferIdx r - firstBufferIdx r))).
  rewrite loop_split.
  cbn [loopBufferSet bufferMapping rowOffsetsCache runningOffset rows rowHeights set_rows
       arrays bufferSet fst snd].
  set (sl := foldl (slotsTurn false _ _ _) _ _).
  set (os := foldl (offsetsSide _) _ _).
  assert (rowIdx ∈ seqZ (firstViewportIdx r)
                     (endViewportIdx r + 1 - firstViewportIdx r)) as Hin.
  { apply elem_of_seqZ. lia. }
  split; [done|]. split.
  { rewrite foldl_insert_lookup. case_decide; [eauto|].
    by apply offsetsSide_walked. }
  rewrite lookup_insert_eq.
  destruct (decide (rowIdx = endViewportIdx r)) as [->|Hlast].
  - unfold sl.
    replace (endViewportIdx r + 1 - firstViewportIdx r)
      with (endViewportIdx r - firstViewportIdx r + 1) by lia.
    rewrite seqZ_app by lia. rewrite foldl_app.
    replace (seqZ (firstViewportIdx r + (endViewportIdx r - firstViewportIdx r)) 1)
      with [endViewportIdx r].
    2: { rewrite seqZ_cons by lia. simpl. f_equal. lia. }
    cbn [foldl].
    destruct (slot_turn_gives_full (firstViewportIdx r) (endViewportIdx r)
                (endBufferIdx r - firstBufferIdx r)
                (foldl (slotsTurn false (firstViewportIdx r) (endViewportIdx r)
                          (endBufferIdx r - firstBufferIdx r))
                   (bufferSet sn, default [] (arrays sn !! rows st))
                   (seqZ (firstViewportIdx r) (endViewportIdx r - firstViewportIdx r)))
                (endViewportIdx r)) as (q & Hq & Harr).
    eauto.
  - destruct (slots_loop_gives false (firstViewportIdx r) (endViewportIdx r)
                (endBufferIdx r - firstBufferIdx r)
                (seqZ (firstViewportIdx r) (endViewportIdx r + 1 - firstViewportIdx r))
                (bufferSet sn, default [] (arrays sn !! rows st)) rowIdx)
      as (q & Hq & Harr); [lia|done|]. eauto.
Qed.

(** ** The further properties on concrete tables *)

Ltac distinct_rows :=
  repeat (apply NoDup_cons; split;
    [let H := fresh in
     intros H; repeat (apply elem_of_cons in H as [[=]|H]); by apply elem_of_nil in H|]);
  apply NoDup_nil_2.

(** Ten rows of height 20, all measured; rows 7, 2 and 9 hold the slots and
    the pass runs over the range [[0, 3)] with the viewport [[1, 2)]. *)
Lemma offsets_of_the_range_are_stacked_witness :
  rowHeights
    (computeRenderedRowOffsets
       (Sample.sessionOf [Some 7; Some 2; Some 9] [7; 2; 9] (Sample.measured 10 20))
       (Sample.state 10 200 true) (mkRowRange 3 2 0 1) true).2 !! (1 + 1)
  = Some (Js.add (Some 20) (Some 20)).
Proof.
  destruct (offsets_of_the_range_are_stacked
              (Sample.sessionOf [Some 7; Some 2; Some 9] [7; 2; 9] (Sample.measured 10 20))
              (Sample.state 10 200 true) (mkRowRange 3 2 0 1) true) as [_ Hnext].
  - simpl. lia.
  - exact (eq_trans (Hnext 1 ltac:(simpl; lia) ltac:(simpl; lia)) eq_refl).
Defined.

Lemma incremental_offsets_are_the_prefix_sums_witness :
  rowHeights
    (computeRenderedRowOffsets
       (Sample.sessionOf [Some 7; Some 2; Some 9] [7; 2; 9] (Sample.measured 10 20))
       (Sample.state 10 200 true) (mkRowRange 3 2 0 1) true).2 !! 2
  = Some (Some (sumUntil (rowOffsets (Sample.measured 10 20)) 2)).
Proof.
  apply (incremental_offsets_are_the_prefix_sums
           (Sample.sessionOf [Some 7; Some 2; Some 9] [7; 2; 9] (Sample.measured 10 20))
           (Sample.state 10 200 true) (mkRowRange 3 2 0 1) true).
  - simpl. lia.
  - simpl. intros k Hk. exists 20.
    assert (k = 0 ∨ k = 1 ∨ k = 2) as [->|[->| ->]] by lia; split; reflexivity.
  - simpl. lia.
Defined.

Lemma every_viewport_row_gets_a_slot_witness :
  ∃ resulting rowPosition,
    arrays
      (computeRenderedRowOffsets
         (Sample.sessionOf [Some 7; Some 2; Some 9] [7; 2; 9] (Sample.measured 10 20))
         (Sample.state 10 200 true) (mkRowRange 3 2 0 1) true).1 !! 1%positive
    = Some resulting
    ∧ resulting !! rowPosition = Some (Some 1).
Proof.
  destruct (every_viewport_row_gets_a_slot
              (Sample.sessionOf [Some 7; Some 2; Some 9] [7; 2; 9] (Sample.measured 10 20))
              (Sample.state 10 200 true) (mkRowRange 3 2 0 1) true 1)
    as (resulting & q & Harr & Hq & _).
  - simpl. lia.
  - simpl. lia.
  - exists resulting, q. split; [exact Harr|exact Hq].
Defined.

(** Row 1 holds slot 1 and is in the viewport: it stays there. *)
Lemma a_viewport_row_keeps_its_slot_witness :
  BufferSet.getValuePosition
    (bufferSet
       (computeRenderedRowOffsets
          (Sample.sessionOf [Some 7; Some 1; Some 9] [7; 1; 9] (Sample.measured 10 20))
          (Sample.state 10 200 false) (mkRowRange 3 2 0 1) false).1) 1
  = Some 1%nat.
Proof.
  apply (a_viewport_row_keeps_its_slot
           (Sample.sessionOf [Some 7; Some 1; Some 9] [7; 1; 9] (Sample.measured 10 20))
           (Sample.state 10 200 false) (mkRowRange 3 2 0 1) false 1 1%nat).
  - simpl. lia.
  - simpl. lia.
  - reflexivity.
Defined.

Lemma while_scrolling_only_viewport_rows_get_slots_witness :
  1 ∈ Js.values [Some 7; Some 2; Some 9]
  ∨ (0 <= 1 < 3 ∧ 1 <= 1 < 2).
Proof.
  apply (while_scrolling_only_viewport_rows_get_slots
           (Sample.sessionOf [Some 7; Some 2; Some 9] [7; 2; 9] (Sample.measured 10 20))
           (Sample.state 10 200 true) (mkRowRange 3 2 0 1) 1).
  vm_compute. by repeat constructor.
Defined.

Lemma no_row_is_held_by_two_slots_witness :
  NoDup
    (bufferSet
       (computeRenderedRowOffsets
          (Sample.sessionOf [Some 7; Some 2; Some 9] [7; 2; 9] (Sample.measured 10 20))
          (Sample.state 10 200 true) (mkRowRange 3 2 0 1) true).1).
Proof.
  apply (no_row_is_held_by_two_slots
           (Sample.sessionOf [Some 7; Some 2; Some 9] [7; 2; 9] (Sample.measured 10 20))
           (Sample.state 10 200 true) (mkRowRange 3 2 0 1) true).
  - simpl. distinct_rows.
  - intros _ q k. simpl. destruct q as [|[|[|q]]]; simpl; intros [= <-]; reflexivity.
Defined.

Lemma the_pool_of_slots_is_bounded_witness :
  BufferSet.getSize
    (bufferSet
       (computeRenderedRowOffsets
          (Sample.sessionOf [] [3; 20; 21] (Sample.measured 5 20))
          (Sample.state 5 100 false) (mkRowRange 5 5 0 4) false).1)
  <= Z.max 3 5.
Proof.
  apply (the_pool_of_slots_is_bounded
           (Sample.sessionOf [] [3; 20; 21] (Sample.measured 5 20))
           (Sample.state 5 100 false) (mkRowRange 5 5 0 4) false).
  - simpl. distinct_rows.
  - simpl. lia.
  - simpl. lia.
Defined.

(** Row 4 is in the range [[4, 6)]: the slots being full, row 5 takes the
    slot of row 9 and row 4 stays in slot 0. *)
Lemma addRowToBuffer_spares_the_range_witness :
  BufferSet.getValuePosition (addRowToBuffer 5 [4; 9] 4 6 2).1 4 = Some 0%nat.
Proof.
  apply (addRowToBuffer_spares_the_range 5 [4; 9] 4 6 2 4 0%nat).
  - lia.
  - reflexivity.
Defined.

Lemma anchor_by_first_row_is_kept_witness :
  ∃ hc' s' r,
    calculateRenderedRowRange (Sample.rough 2 100) (Sample.const 83)
      (Oracle.updateRowHeight Sample.tallLast) (mkHeightCache ∅ ∅)
      (Sample.state 10 225 false) (Sample.fromFirst 3 (-5) None) = Some (hc', s', r)
    ∧ firstViewportIdx r = 3
    ∧ 3 < endViewportIdx r
    ∧ firstRowIndex s' = 3
    ∧ firstRowOffset s' = Some (-5).
Proof.
  apply (anchor_by_first_row_is_kept (Sample.rough 2 100) (Sample.const 83)
           (Oracle.updateRowHeight Sample.tallLast) (mkHeightCache ∅ ∅)
           (Sample.state 10 225 false) (Sample.fromFirst 3 (-5) None) 3).
  - simpl. lia.
  - reflexivity.
  - simpl. lia.
  - reflexivity.
Defined.

Lemma anchor_past_the_end_is_the_bottom_anchor_witness :
  ∃ hc' s' r,
    calculateRenderedRowRange (Sample.rough 2 100) (Sample.const 83)
      (Oracle.updateRowHeight Sample.tallLast) (mkHeightCache ∅ ∅)
      (Sample.state 10 225 false) (Sample.fromFirst 12 0 None) = Some (hc', s', r)
    ∧ endViewportIdx r = 10.
Proof.
  apply (anchor_past_the_end_is_the_bottom_anchor (Sample.rough 2 100) (Sample.const 83)
           (Oracle.updateRowHeight Sample.tallLast) (mkHeightCache ∅ ∅)
           (Sample.state 10 225 false) (Sample.fromFirst 12 0 None)).
  - simpl. lia.
  - left. exists 12. split; [reflexivity|simpl; lia].
Defined.

Lemma anchor_by_last_row_ends_the_viewport_witness :
  ∃ hc' s' r,
    calculateRenderedRowRange (Sample.rough 2 100) (Sample.const 83)
      (Oracle.updateRowHeight Sample.tallLast) (mkHeightCache ∅ ∅)
      (Sample.state 10 225 false) (Sample.toLast 6) = Some (hc', s', r)
    ∧ endViewportIdx r = 7.
Proof.
  destruct (anchor_by_last_row_ends_the_viewport (Sample.rough 2 100) (Sample.const 83)
              (Oracle.updateRowHeight Sample.tallLast) (mkHeightCache ∅ ∅)
              (Sample.state 10 225 false) (Sample.toLast 6) 6)
    as (hc' & s' & r & Hcalc & Hev & _).
  - simpl. lia.
  - reflexivity.
  - simpl. lia.
  - simpl. intros i [= <-]. lia.
  - exists hc', s', r. split; [exact Hcalc|exact Hev].
Defined.

Lemma every_row_of_the_range_is_measured_witness :
  ∃ hc' s' r,
    calculateRenderedRowRange (Sample.rough 2 100) (Sample.const 83)
      (Oracle.updateRowHeight Sample.tallLast) (mkHeightCache ∅ ∅)
      (Sample.state 10 225 false) (Sample.fromFirst 3 0 None) = Some (hc', s', r)
    ∧ ∀ rowIdx, firstBufferIdx r <= rowIdx < endBufferIdx r →
        cachedAt Sample.tallLast hc' rowIdx.
Proof.
  destruct (every_row_of_the_range_is_measured (Sample.rough 2 100) (Sample.const 83)
              (Oracle.updateRowHeight Sample.tallLast) (cachedAt Sample.tallLast)
              (touch_cached Sample.tallLast) (touch_keeps Sample.tallLast)
              (mkHeightCache ∅ ∅) (Sample.state 10 225 false) (Sample.fromFirst 3 0 None))
    as (hc' & s' & r & Hcalc & Hall & _).
  - simpl. lia.
  - left. simpl. eauto.
  - simpl. intros i [= <-]. lia.
  - simpl. intros j [=].
  - simpl. lia.
  - simpl. lia.
  - exists hc', s', r. split; [exact Hcalc|exact Hall].
Defined.

Lemma forward_walk_fills_the_viewport_witness :
  ∃ hc' s' r,
    calculateRenderedRowRange (Sample.rough 2 100) (Sample.const 83)
      (Oracle.updateRowHeight Sample.tallLast) (mkHeightCache ∅ ∅)
      (Sample.state 10 225 false) (Sample.fromFirst 3 0 None) = Some (hc', s', r)
    ∧ 0 + heightOfRows Sample.tallLast 3 (endViewportIdx r - 1) < 100.
Proof.
  destruct (forward_walk_fills_the_viewport (Sample.rough 2 100) (Sample.const 83)
              (Oracle.updateRowHeight Sample.tallLast) Sample.tallLast
              (λ _ _ _, eq_refl)
              (mkHeightCache ∅ ∅) (Sample.state 10 225 false) (Sample.fromFirst 3 0 None) 3)
    as (hc' & s' & r & Hcalc & _ & _ & _ & Hless).
  - reflexivity.
  - simpl. lia.
  - reflexivity.
  - simpl. lia.
  - exists hc', s', r. split; [exact Hcalc|exact Hless].
Defined.

Lemma backward_walk_fills_the_viewport_witness :
  ∃ hc' s' r firstWalked,
    calculateRenderedRowRange (Sample.rough 2 100) (Sample.const 83)
      (Oracle.updateRowHeight Sample.tallLast) (mkHeightCache ∅ ∅)
      (Sample.state 10 225 false) (Sample.toLast 6) = Some (hc', s', r)
    ∧ endViewportIdx r = 7
    ∧ heightOfRows Sample.tallLast (firstWalked + 1) 7 < 100.
Proof.
  destruct (backward_walk_fills_the_viewport (Sample.rough 2 100) (Sample.const 83)
              (Oracle.updateRowHeight Sample.tallLast) Sample.tallLast
              (λ _ _ _, eq_refl)
              (mkHeightCache ∅ ∅) (Sample.state 10 225 false) (Sample.toLast 6) 6)
    as (hc' & s' & r & firstWalked & Hcalc & Hev & _ & _ & _ & _ & Hless).
  - reflexivity.
  - simpl. lia.
  - simpl. intros i [= <-]. lia.
  - simpl. lia.
  - exists hc', s', r, firstWalked. split; [exact Hcalc|]. split; [exact Hev|exact Hless].
Defined.

Lemma empty_table_is_reset_witness :
  ∃ sn' s',
    computeRenderedRows (Sample.rough 1 60) (Sample.const 60) (Sample.const 60)
      (Oracle.updateRowHeight (λ _, 20)) (Sample.session [4; 5])
      (Sample.state 0 0 true) (Sample.fromFirst 3 0 None) = Some (sn', s')
    ∧ rowHeights s' = ∅
    ∧ arrays sn' !! rows s' = Some [].
Proof.
  destruct (empty_table_is_reset (Sample.rough 1 60) (Sample.const 60) (Sample.const 60)
              (Oracle.updateRowHeight (λ _, 20)) (Sample.session [4; 5])
              (Sample.state 0 0 true) (Sample.fromFirst 3 0 None))
    as (sn' & s' & Hrun & Hheights & Harr & _).
  - reflexivity.
  - exists sn', s'. split; [exact Hrun|]. split; [exact Hheights|exact Harr].
Defined.

Lemma scrollY_is_clamped_witness :
  ∃ sn' s',
    computeRenderedRows (Sample.rough 2 200) (Sample.const 200) (Sample.const 200)
      (Oracle.updateRowHeight (λ _, 20)) (Sample.session []) (Sample.state 100 2000 false)
      (Sample.fromFirst 5 0 (Some true)) = Some (sn', s')
    ∧ ∀ y, scrollY s' = Some y → 0 <= y <= Z.max 0 (maxScrollY s').
Proof.
  apply (scrollY_is_clamped (Sample.rough 2 200) (Sample.const 200) (Sample.const 200)
           (Oracle.updateRowHeight (λ _, 20)) (Sample.session [])
           (Sample.state 100 2000 false) (Sample.fromFirst 5 0 (Some true))).
  left. simpl. eauto.
Defined.

Lemma fitting_content_is_at_the_top_witness :
  ∃ sn' s',
    computeRenderedRows (Sample.rough 1 60) (Sample.const 60) (Sample.const 60)
      (Oracle.updateRowHeight (λ _, 20)) (Sample.session []) (Sample.state 3 60 false)
      (Sample.fromFirst 1 0 None) = Some (sn', s')
    ∧ (maxScrollY s' = 0 →
       firstRowOffset s' = Some 0 ∧ (scrollY s' = Some 0 ∨ scrollY s' = None)).
Proof.
  apply (fitting_content_is_at_the_top (Sample.rough 1 60) (Sample.const 60)
           (Sample.const 60) (Oracle.updateRowHeight (λ _, 20)) (Sample.session [])
           (Sample.state 3 60 false) (Sample.fromFirst 1 0 None)).
  left. simpl. eauto.
Defined.

Lemma scrolling_call_alters_the_rows_array_in_place_witness :
  ∃ sn' s',
    computeRenderedRows (Sample.rough 2 200) (Sample.const 200) (Sample.const 200)
      (Oracle.updateRowHeight (λ _, 20)) (Sample.session []) (Sample.state 100 2000 true)
      (Sample.fromFirst 5 0 None) = Some (sn', s')
    ∧ rows s' = 1%positive.
Proof.
  destruct (scrolling_call_alters_the_rows_array_in_place (Sample.rough 2 200)
              (Sample.const 200) (Sample.const 200) (Oracle.updateRowHeight (λ _, 20))
              (Sample.session []) (Sample.state 100 2000 true) (Sample.fromFirst 5 0 None))
    as (sn' & s' & Hrun & Hrows & _).
  - reflexivity.
  - simpl. lia.
  - left. simpl. eauto.
  - simpl. intros i [= <-]. lia.
  - simpl. intros j [=].
  - intros st. simpl. lia.
  - exists sn', s'. split; [exact Hrun|exact Hrows].
Defined.

Lemma earlier_evolution_agrees_while_scrolling_witness :
  ∃ snE sE snU sU,
    Earlier.computeRenderedRows (Sample.rough 2 200) (Sample.const 200) (Sample.const 200)
      (Oracle.updateRowHeight (λ _, 20)) (Sample.session []) (Sample.state 100 2000 true)
      (Sample.fromFirst 5 0 None) = Some (snE, sE)
    ∧ computeRenderedRows (Sample.rough 2 200) (Sample.const 200) (Sample.const 200)
        (Oracle.updateRowHeight (λ _, 20)) (Sample.session []) (Sample.state 100 2000 true)
        (Sample.fromFirst 5 0 None) = Some (snU, sU)
    ∧ maxScrollY sE = maxScrollY sU.
Proof.
  destruct (earlier_evolution_agrees_while_scrolling (Sample.rough 2 200)
              (Sample.const 200) (Sample.const 200) (Oracle.updateRowHeight (λ _, 20))
              (Sample.session []) (Sample.state 100 2000 true) (Sample.fromFirst 5 0 None))
    as (snE & sE & snU & sU & HE & HU & Hmax & _).
  - reflexivity.
  - simpl. lia.
  - left. simpl. eauto.
  - exists snE, sE, snU, sU. split; [exact HE|]. split; [exact HU|exact Hmax].
Defined.

(** The viewport [[1, 2)] of the range [[0, 3)]: the earlier pass also
    gives row 2 a slot. *)
Lemma earlier_viewport_pass_walks_one_row_past_witness :
  ∃ resulting rowPosition,
    arrays
      (Earlier.computeViewPortRenderedRowOffsets
         (Sample.sessionOf [Some 7] [7] (Sample.measured 10 20))
         (Sample.state 10 200 true) (mkRowRange 3 2 0 1)).1 !! 1%positive
    = Some resulting
    ∧ resulting !! rowPosition = Some (Some 2).
Proof.
  destruct (earlier_viewport_pass_walks_one_row_past
              (Sample.sessionOf [Some 7] [7] (Sample.measured 10 20))
              (Sample.state 10 200 true) (mkRowRange 3 2 0 1) 2)
    as (_ & _ & resulting & q & Harr & Hq & _).
  - simpl. lia.
  - simpl. lia.
  - exists resulting, q. split; [exact Harr|exact Hq].
Defined.

Lemma buffers_hold_bufferRowCount_rows_witness :
  ∃ hc' s' r,
    calculateRenderedRowRange (Sample.rough 2 100) (Sample.const 83)
      (Oracle.updateRowHeight Sample.tallLast) (mkHeightCache ∅ ∅)
      (Sample.state 10 225 false) (Sample.toLast 9) = Some (hc', s', r)
    ∧ endBufferIdx r - endViewportIdx r <= 2
    ∧ firstViewportIdx r - firstBufferIdx r <= 2 + 1.
Proof.
  destruct (buffers_hold_bufferRowCount_rows (Sample.rough 2 100) (Sample.const 83)
              (Oracle.updateRowHeight Sample.tallLast) (mkHeightCache ∅ ∅)
              (Sample.state 10 225 false) (Sample.toLast 9))
    as (hc' & s' & r & Hcalc & Htrail & _ & Hlead & _).
  - simpl. lia.
  - left. simpl. eauto.
  - simpl. intros i [= <-]. lia.
  - simpl. intros j [= <-]. lia.
  - simpl. lia.
  - exists hc', s', r. split; [exact Hcalc|]. split; [exact Htrail|exact Hlead].
Defined.


Lemma oracle_stores_the_height g hc st rowIdx :
  is_Some (storedHeights (Oracle.updateRowHeight g hc st rowIdx).1.1 !! rowIdx).
Proof. simpl. rewrite lookup_insert_eq. eauto. Qed.

Lemma oracle_keeps_the_heights g hc st rowIdx other :
  is_Some (storedHeights hc !! other) →
  is_Some (storedHeights (Oracle.updateRowHeight g hc st rowIdx).1.1 !! other).
Proof.
  intros Hother. simpl. destruct (decide (rowIdx = other)) as [->|Hne].
  - rewrite lookup_insert_eq. eauto.
  - by rewrite lookup_insert_ne.
Qed.

Lemma offsets_at_rest_are_numbers_witness :
  ∃ sn' s',
    computeRenderedRows (Sample.rough 2 200) (Sample.const 200) (Sample.const 200)
      (Oracle.updateRowHeight (λ _, 20)) (Sample.session []) (Sample.state 100 2000 false)
      (Sample.fromFirst 5 0 None) = Some (sn', s')
    ∧ ∀ rowIdx offset, rowHeights s' !! rowIdx = Some offset → is_Some offset.
Proof.
  apply (offsets_at_rest_are_numbers (Sample.rough 2 200) (Sample.const 200)
           (Sample.const 200) (Oracle.updateRowHeight (λ _, 20))
           (oracle_stores_the_height (λ _, 20)) (oracle_keeps_the_heights (λ _, 20))
           (Sample.session []) (Sample.state 100 2000 false) (Sample.fromFirst 5 0 None)).
  - reflexivity.
  - simpl. lia.
  - left. simpl. eauto.
  - simpl. intros i [= <-]. lia.
  - simpl. intros j [=].
  - intros st. simpl. lia.
  - intros st. simpl. lia.
Defined.

Lemma call_at_rest_builds_a_new_rows_array_witness :
  ∃ sn' s',
    computeRenderedRows (Sample.rough 2 200) (Sample.const 200) (Sample.const 200)
      (Oracle.updateRowHeight (λ _, 20)) (Sample.session []) (Sample.state 100 2000 false)
      (Sample.fromFirst 5 0 None) = Some (sn', s')
    ∧ (rows s' ∉ dom (arrays (Sample.session []))).
Proof.
  destruct (call_at_rest_builds_a_new_rows_array (Sample.rough 2 200) (Sample.const 200)
              (Sample.const 200) (Oracle.updateRowHeight (λ _, 20)) (Sample.session [])
              (Sample.state 100 2000 false) (Sample.fromFirst 5 0 None))
    as (sn' & s' & Hrun & Hfresh & _).
  - reflexivity.
  - left. simpl. eauto.
  - exists sn', s'. split; [exact Hrun|exact Hfresh].
Defined.

Lemma oracle_stores_what_it_returns g hc st rowIdx :
  storedHeights (Oracle.updateRowHeight g hc st rowIdx).1.1 !! rowIdx = Some (g rowIdx).
Proof. simpl. apply lookup_insert_eq. Qed.

Lemma oracle_keeps_what_it_stored g hc st rowIdx other :
  storedHeights hc !! other = Some (g other) →
  storedHeights (Oracle.updateRowHeight g hc st rowIdx).1.1 !! other = Some (g other).
Proof.
  intros Hother. simpl. destruct (decide (rowIdx = other)) as [->|Hne].
  - apply lookup_insert_eq.
  - by rewrite lookup_insert_ne.
Qed.

Lemma tallLast_positive rowIdx : 0 < Sample.tallLast rowIdx.
Proof. unfold Sample.tallLast. destruct (rowIdx =? 9); lia. Qed.

(** Ten rows, the last one tall, and the anchor on the last row: rows 9
    and 8 are walked, row 8 is pushed off as a whole and the offset gets the
    height of row 9. *)
Lemma anchor_by_last_row_in_closed_form_witness :
  ∃ hc' s' r firstWalked,
    calculateRenderedRowRange (Sample.rough 2 100) (Sample.const 83)
      (Oracle.updateRowHeight Sample.tallLast) (mkHeightCache ∅ ∅)
      (Sample.state 10 225 false) (Sample.toLast 9) = Some (hc', s', r)
    ∧ 0 <= firstWalked <= 9
    ∧ endViewportIdx r = 9 + 1.
Proof.
  destruct (anchor_by_last_row_in_closed_form (Sample.rough 2 100) (Sample.const 83)
              (Oracle.updateRowHeight Sample.tallLast) 83 Sample.tallLast
              (λ _, eq_refl) ltac:(lia) tallLast_positive (λ _ _ _, eq_refl)
              (oracle_stores_what_it_returns Sample.tallLast)
              (oracle_keeps_what_it_stored Sample.tallLast)
              (mkHeightCache ∅ ∅) (Sample.state 10 225 false) (Sample.toLast 9) 9)
    as (hc' & s' & r & fw & Hcalc & Hfw & Hev & _).
  - reflexivity.
  - simpl. lia.
  - simpl. intros i [= <-]. lia.
  - simpl. lia.
  - exists hc', s', r, fw. split; [exact Hcalc|]. split; [exact Hfw|exact Hev].
Defined.

Lemma viewport_holds_a_row_witness :
  ∃ hc' s' r,
    calculateRenderedRowRange (Sample.rough 2 100) (Sample.const 83)
      (Oracle.updateRowHeight Sample.tallLast) (mkHeightCache ∅ ∅)
      (Sample.state 10 225 false) (Sample.toLast 9) = Some (hc', s', r)
    ∧ 0 <= firstViewportIdx r < endViewportIdx r
    ∧ endViewportIdx r <= 10
    ∧ firstRowIndex s' = firstViewportIdx r.
Proof.
  apply (viewport_holds_a_row (Sample.rough 2 100) (Sample.const 83)
           (Oracle.updateRowHeight Sample.tallLast) 83 Sample.tallLast
           (λ _, eq_refl) ltac:(lia) tallLast_positive (λ _ _ _, eq_refl)
           (oracle_stores_what_it_returns Sample.tallLast)
           (oracle_keeps_what_it_stored Sample.tallLast)
           (mkHeightCache ∅ ∅) (Sample.state 10 225 false) (Sample.toLast 9)).
  - simpl. lia.
  - left. simpl. eauto.
  - simpl. intros i [= <-]. lia.
  - simpl. intros j [= <-]. lia.
  - simpl. lia.
Defined.
